(** * prtimes-scraping-api: a shallow embedding of [main.go]

    The handler [handlePRTimesPosts] aggregates the paginated listings of the
    PR TIMES keyword search, looks up a like count per release, normalises the
    release date, sorts by like count and cuts the result to the requested
    limit.  This file embeds the final revision of [main.go] (the one with
    [fetchLikeCount], [extractReleaseID] and the [limit] parameter).

    Conventions of the embedding:
    - a Go [string] is a sequence of bytes: Rocq's [string] (one [ascii] per
      byte); the Japanese markers are their UTF-8 bytes;
    - a Go [int] (64 bit) is a [Z]; where the source can overflow
      ([time.Duration] arithmetic) the wrap-around is written out;
    - a Go [(T, error)] pair is a [result T];
    - the two upstream endpoints and the clock are an explicit world that is
      threaded through every call, and every call of a fetcher is recorded in
      a trace together with what it returned;
    - the goroutines of the fan-out are small state machines that a schedule
      interleaves; the append under [mu] is one atomic step. *)

From Stdlib Require Import ZArith List String Ascii Bool Lia Arith.
From Stdlib Require Import Permutation Sorted.
Import ListNotations.

#[local] Open Scope list_scope.
#[local] Open Scope string_scope.
#[local] Open Scope Z_scope.

(** ** Go values *)

Definition error := string.

Inductive result (A : Type) : Type :=
| Ok (a : A)
| Err (e : error).
Arguments Ok {A} a.
Arguments Err {A} e.

Definition min_int64 : Z := - 2 ^ 63.
Definition max_int64 : Z := 2 ^ 63 - 1.

(** Two's complement wrap-around of a 64-bit signed result. *)
Definition wrap64 (z : Z) : Z := (z + 2 ^ 63) mod 2 ^ 64 - 2 ^ 63.

(** ** Bytes and strings *)

Definition is_digit (c : ascii) : bool :=
  (48 <=? nat_of_ascii c)%nat && (nat_of_ascii c <=? 57)%nat.

Definition digit_val (c : ascii) : Z := Z.of_nat (nat_of_ascii c) - 48.

Definition digit_char (d : Z) : ascii := ascii_of_nat (48 + Z.to_nat d).

Fixpoint all_digits (s : string) : bool :=
  match s with
  | EmptyString => true
  | String c s' => is_digit c && all_digits s'
  end.

(** [strings.CutPrefix]: the rest of [s] after the prefix [p], if [s] starts
    with [p]. *)
Fixpoint cut_prefix (p s : string) : option string :=
  match p with
  | EmptyString => Some s
  | String a p' =>
      match s with
      | EmptyString => None
      | String b s' => if Ascii.eqb a b then cut_prefix p' s' else None
      end
  end.

(** The longest run of ASCII digits at the head of [s], and what follows. *)
Fixpoint span_digits (s : string) : string * string :=
  match s with
  | EmptyString => (EmptyString, EmptyString)
  | String c s' =>
      if is_digit c
      then let (d, r) := span_digits s' in (String c d, r)
      else (EmptyString, s)
  end.

(** ** Package strconv *)

Module strconv.

(** The value of a run of decimal digits; [None] at the first other byte. *)
Fixpoint digits_value (acc : Z) (s : string) : option Z :=
  match s with
  | EmptyString => Some acc
  | String c s' =>
      if is_digit c then digits_value (10 * acc + digit_val c) s' else None
  end.

(** [strconv.Atoi]: an optional sign, then one or more decimal digits, the
    value within the 64-bit [int].  On an error the source never looks at
    the returned number, so only the error is modelled. *)
Definition Atoi (s : string) : result Z :=
  match s with
  | EmptyString => Err "invalid syntax"
  | String c rest =>
      let neg := Ascii.eqb c "-" in
      let body := if neg || Ascii.eqb c "+" then rest else s in
      match body with
      | EmptyString => Err "invalid syntax"
      | _ =>
          match digits_value 0 body with
          | None => Err "invalid syntax"
          | Some un =>
              let n := if neg then - un else un in
              if (min_int64 <=? n) && (n <=? max_int64)
              then Ok n
              else Err "value out of range"
          end
      end
  end.

(** [strconv.Itoa] / the verb [%d]: decimal digits, most significant
    first, with a minus sign for a negative number. *)
Fixpoint utoa (fuel : nat) (u : Z) (acc : string) : string :=
  match fuel with
  | O => acc
  | S fuel' =>
      let acc' := String (digit_char (u mod 10)) acc in
      if u / 10 =? 0 then acc' else utoa fuel' (u / 10) acc'
  end.

Definition Itoa (x : Z) : string :=
  let u := Z.abs x in
  let ds := utoa (S (Z.to_nat (Z.log2 u))) u EmptyString in
  if x <? 0 then String "-" ds else ds.

End strconv.

(** ** Package regexp

    The three patterns of the source are sequences of literals and capturing
    groups of one or more ASCII digits ([([0-9]+)], [(\d+)]).  In each of
    them a digit group is followed by a literal whose first byte is not a
    digit, so the greedy group can only stop at the end of the digit run:
    the backtracking of the engine never finds a match that the greedy
    attempt misses.  A pattern is matched on bytes; since every pattern
    starts with an ASCII byte and UTF-8 is self-synchronising this agrees
    with the rune-wise matching of the engine. *)

Module regexp.

Inductive item : Type :=
| Lit (s : string)
| Digits.

Definition Regexp := list item.

(** Match the whole pattern at the head of [s]: the captures and the text
    after the match. *)
Fixpoint match_here (re : Regexp) (s : string) : option (list string * string) :=
  match re with
  | [] => Some ([], s)
  | Lit l :: re' =>
      match cut_prefix l s with
      | Some s' => match_here re' s'
      | None => None
      end
  | Digits :: re' =>
      let (d, r) := span_digits s in
      match d with
      | EmptyString => None
      | _ =>
          match match_here re' r with
          | Some (caps, rest) => Some (d :: caps, rest)
          | None => None
          end
      end
  end.

(** [Regexp.FindStringSubmatch]: the leftmost match, as the matched
    text followed by the captures; [nil] when nothing matches. *)
Fixpoint FindStringSubmatch (re : Regexp) (s : string) : list string :=
  match match_here re s with
  | Some (caps, rest) =>
      substring 0 (String.length s - String.length rest) s :: caps
  | None =>
      match s with
      | EmptyString => []
      | String _ s' => FindStringSubmatch re s'
      end
  end.

End regexp.

(** ** The Identifier Extractor *)

Definition reReleasePath : regexp.Regexp :=
  [regexp.Lit "/main/html/rd/p/"; regexp.Digits; regexp.Lit ".";
   regexp.Digits; regexp.Lit ".html"].

Definition extractReleaseID (releaseURL : string) : string :=
  let re := reReleasePath in
  let matches := regexp.FindStringSubmatch re releaseURL in
  match matches with
  | [_; m1; m2] => m1 ++ "." ++ m2
  | _ => ""
  end.

(** ** Package time

    A [Time] is an instant (seconds and nanoseconds since the Unix epoch)
    together with the location it is shown in.  A location gives the offset
    east of UTC, in seconds, that is in force at an instant.  The calendar
    arithmetic follows the library: days are counted from 1 January of year
    1 and cut into cycles of 400, 100, 4 and 1 years. *)

Module time.

Definition Location := Z -> Z.
Definition UTC : Location := fun _ => 0.

Record Time : Type := mkTime { unix_sec : Z; nsec : Z; loc : Location }.

(** A [Duration] is a 64-bit count of nanoseconds. *)
Definition Duration := Z.
Definition Second : Duration := 1000000000.
Definition Minute : Duration := 60 * Second.
Definition Hour : Duration := 60 * Minute.

(** [-time.Duration(n) * unit], with the wrap-around of both operations. *)
Definition ago (n : Z) (unit : Duration) : Duration :=
  wrap64 (wrap64 (- n) * unit).

(** [t.Add(d)]; Go's [/] and [%] truncate toward zero. *)
Definition Add (t : Time) (d : Duration) : Time :=
  let dsec := Z.quot d 1000000000 in
  let ns := nsec t + Z.rem d 1000000000 in
  if 1000000000 <=? ns
  then mkTime (unix_sec t + (dsec + 1)) (ns - 1000000000) (loc t)
  else if ns <? 0
  then mkTime (unix_sec t + (dsec - 1)) (ns + 1000000000) (loc t)
  else mkTime (unix_sec t + dsec) ns (loc t).

Definition isLeap (year : Z) : bool :=
  (year mod 4 =? 0) && (negb (year mod 100 =? 0) || (year mod 400 =? 0)).

Definition daysBefore : list Z :=
  [0; 31; 59; 90; 120; 151; 181; 212; 243; 273; 304; 334; 365].

Definition days_before (m : Z) : Z := nth (Z.to_nat m) daysBefore 0.

Definition daysIn (m : Z) (year : Z) : Z :=
  if (m =? 2) && isLeap year then 29
  else days_before m - days_before (m - 1).

(** Seconds from 1 January of year 1 to the Unix epoch. *)
Definition unixToInternal : Z := 719162 * 86400.

(** Days from 1 January of year 1 to 1 January of [year]. *)
Definition daysSinceEpoch (year : Z) : Z :=
  let y := year - 1 in
  let n := y / 400 in
  let y := y - 400 * n in
  let d := 146097 * n in
  let n := y / 100 in
  let y := y - 100 * n in
  let d := d + 36524 * n in
  let n := y / 4 in
  let y := y - 4 * n in
  let d := d + 1461 * n in
  d + 365 * y.

(** The day number, counted from 1 January of year 1, of a date. *)
Definition civil_days (year month day : Z) : Z :=
  let d := daysSinceEpoch year + days_before (month - 1) in
  let d := if isLeap year && (3 <=? month) then d + 1 else d in
  d + (day - 1).

(** [time.Date(year, month, day, hour, min, 0, 0, time.UTC)] for fields
    that are in range already, which is how [Parse] calls it. *)
Definition Date (year month day hour min : Z) : Time :=
  let d := civil_days year month day in
  let abs := d * 86400 + hour * 3600 + min * 60 in
  mkTime (abs - unixToInternal) 0 UTC.

(** [absDate], first half: the year of a day number counted from
    1 January of year 1, and the day within that year. *)
Definition yearDay (days : Z) : Z * Z :=
  let d := days in
  let n := d / 146097 in
  let y := 400 * n in
  let d := d - 146097 * n in
  let n := d / 36524 in
  let n := n - Z.shiftr n 2 in
  let y := y + 100 * n in
  let d := d - 36524 * n in
  let n := d / 1461 in
  let y := y + 4 * n in
  let d := d - 1461 * n in
  let n := d / 365 in
  let n := n - Z.shiftr n 2 in
  let y := y + n in
  let d := d - 365 * n in
  (y + 1, d).

(** [absDate], second half: month and day of the month of a day of the
    year. *)
Definition monthDay (leap : bool) (yday : Z) : Z * Z :=
  let day := yday in
  if leap && (day =? 31 + 29 - 1) then (2, 29)
  else
    let day := if leap && (31 + 29 - 1 <? day) then day - 1 else day in
    let month := day / 31 in
    let end_ := days_before (month + 1) in
    if end_ <=? day
    then (month + 1 + 1, day - end_ + 1)
    else (month + 1, day - days_before month + 1).

Definition absDate (days : Z) : Z * Z * Z :=
  let (year, yday) := yearDay days in
  let (month, day) := monthDay (isLeap year) yday in
  (year, month, day).

(** Seconds since 1 January of year 1 on the wall clock of [t]'s location. *)
Definition abs (t : Time) : Z :=
  unix_sec t + loc t (unix_sec t) + unixToInternal.

Definition date (t : Time) : Z * Z * Z := absDate (abs t / 86400).
Definition hour (t : Time) : Z := (abs t mod 86400) / 3600.
Definition minute (t : Time) : Z := (abs t mod 3600) / 60.

(** *** Layouts *)

Inductive chunk : Type :=
| Text (s : string)
| stdLongYear      (* 2006 *)
| stdNumMonth      (* 1 *)
| stdZeroMonth     (* 01 *)
| stdDay           (* 2 *)
| stdZeroDay       (* 02 *)
| stdHour          (* 15 *)
| stdZeroMinute.   (* 04 *)

(** The reference-time element at the head of a layout and its width: the
    cases of [nextStdChunk] for the bytes 0, 1 and 2.  The layouts of the
    source contain no other trigger byte. *)
Definition std_at (layout : string) : option (chunk * nat) :=
  match layout with
  | String "2" (String "0" (String "0" (String "6" _))) => Some (stdLongYear, 4%nat)
  | String "2" _ => Some (stdDay, 1%nat)
  | String "1" (String "5" _) => Some (stdHour, 2%nat)
  | String "1" _ => Some (stdNumMonth, 1%nat)
  | String "0" (String "1" _) => Some (stdZeroMonth, 2%nat)
  | String "0" (String "2" _) => Some (stdZeroDay, 2%nat)
  | String "0" (String "4" _) => Some (stdZeroMinute, 2%nat)
  | _ => None
  end.

Definition flush (text : string) (l : list chunk) : list chunk :=
  match text with
  | EmptyString => l
  | _ => Text text :: l
  end.

(** The chunks of a layout, in order: the iteration of [nextStdChunk].
    [skip] counts the bytes of the element found last that are still to
    be passed over; [text] is the literal text read since. *)
Fixpoint chunks (skip : nat) (text : string) (layout : string) : list chunk :=
  match layout with
  | EmptyString => flush text []
  | String c rest =>
      match skip with
      | S k => chunks k text rest
      | O =>
          match std_at layout with
          | Some (std, width) => flush text (std :: chunks (pred width) EmptyString rest)
          | None => chunks 0 (text ++ String c EmptyString)%string rest
          end
      end
  end.

Definition Layout (layout : string) : list chunk := chunks 0 EmptyString layout.

(** *** Format *)

(** [appendInt]: the decimal form of [x], zero-padded to [width]. *)
Definition appendInt (x : Z) (width : nat) : string :=
  let ds := strconv.Itoa (Z.abs x) in
  let padded :=
    (string_of_list_ascii (repeat "0"%char (width - String.length ds)) ++ ds)%string in
  if x <? 0 then String "-" padded else padded.

Definition format_chunk (t : Time) (c : chunk) : string :=
  let '(year, month, day) := date t in
  match c with
  | Text s => s
  | stdLongYear => appendInt year 4
  | stdNumMonth => appendInt month 0
  | stdZeroMonth => appendInt month 2
  | stdDay => appendInt day 0
  | stdZeroDay => appendInt day 2
  | stdHour => appendInt (hour t) 2
  | stdZeroMinute => appendInt (minute t) 2
  end.

Definition Format (t : Time) (layout : string) : string :=
  String.concat "" (map (format_chunk t) (Layout layout)).

(** *** Parse *)

Fixpoint cutspace (s : string) : string :=
  match s with
  | String " " s' => cutspace s'
  | _ => s
  end.

(** [skip(value, prefix)]: pass over the literal text [prefix] in [value];
    a run of spaces in the layout stands for a run of spaces in the value.
    [spaced] records that the spaces of the prefix are being cut, which the
    source does with [cutspace(prefix)]. *)
Fixpoint skip (spaced : bool) (value prefix : string) : option string :=
  match prefix with
  | EmptyString => Some value
  | String p prefix' =>
      if Ascii.eqb p " " then
        if spaced then skip true value prefix'
        else
          match value with
          | EmptyString => skip true value prefix'
          | String v _ =>
              if Ascii.eqb v " " then skip true (cutspace value) prefix' else None
          end
      else
        match value with
        | EmptyString => None
        | String v value' => if Ascii.eqb v p then skip false value' prefix' else None
        end
  end.

(** [getnum(s, fixed)]: one or two digits, two when [fixed]. *)
Definition getnum (s : string) (fixed : bool) : option (Z * string) :=
  match s with
  | EmptyString => None
  | String a s1 =>
      if is_digit a then
        match s1 with
        | String b s2 =>
            if is_digit b then Some (digit_val a * 10 + digit_val b, s2)
            else if fixed then None else Some (digit_val a, s1)
        | EmptyString => if fixed then None else Some (digit_val a, s1)
        end
      else None
  end.

Record fields : Type :=
  mkFields { f_year : Z; f_month : Z; f_day : Z; f_hour : Z; f_min : Z }.

(** The loop of [parse]: one element of the layout per iteration; [None]
    is any of its errors. *)
Fixpoint parse_chunks (l : list chunk) (f : fields) (value : string) : option fields :=
  match l with
  | [] => match value with EmptyString => Some f | _ => None end
  | Text prefix :: l' =>
      match skip false value prefix with
      | Some value' => parse_chunks l' f value'
      | None => None
      end
  | stdLongYear :: l' =>
      match value with
      | String a (String b (String c (String d value'))) =>
          let p := String a (String b (String c (String d EmptyString))) in
          if all_digits p then
            match strconv.digits_value 0 p with
            | Some year =>
                parse_chunks l' (mkFields year (f_month f) (f_day f) (f_hour f) (f_min f)) value'
            | None => None
            end
          else None
      | _ => None
      end
  | stdNumMonth :: l' | stdZeroMonth :: l' =>
      let fixed := match l with stdZeroMonth :: _ => true | _ => false end in
      match getnum value fixed with
      | Some (month, value') =>
          if (month <=? 0) || (12 <? month) then None
          else parse_chunks l' (mkFields (f_year f) month (f_day f) (f_hour f) (f_min f)) value'
      | None => None
      end
  | stdDay :: l' | stdZeroDay :: l' =>
      let fixed := match l with stdZeroDay :: _ => true | _ => false end in
      match getnum value fixed with
      | Some (day, value') =>
          parse_chunks l' (mkFields (f_year f) (f_month f) day (f_hour f) (f_min f)) value'
      | None => None
      end
  | stdHour :: l' =>
      match getnum value false with
      | Some (hour, value') =>
          if (hour <? 0) || (24 <=? hour) then None
          else parse_chunks l' (mkFields (f_year f) (f_month f) (f_day f) hour (f_min f)) value'
      | None => None
      end
  | stdZeroMinute :: l' =>
      match getnum value true with
      | Some (min, value') =>
          if (min <? 0) || (60 <=? min) then None
          else parse_chunks l' (mkFields (f_year f) (f_month f) (f_day f) (f_hour f) min) value'
      | None => None
      end
  end.

(** [time.Parse(layout, value)] for a layout without a zone: the time is
    in UTC. *)
Definition Parse (layout value : string) : result Time :=
  match parse_chunks (Layout layout) (mkFields 0 (-1) (-1) 0 0) value with
  | None => Err "parsing time: cannot parse"
  | Some f =>
      let month := if f_month f <? 0 then 1 else f_month f in
      let day := if f_day f <? 0 then 1 else f_day f in
      if (day <? 1) || (daysIn month (f_year f) <? day)
      then Err "parsing time: day out of range"
      else Ok (Date (f_year f) month day (f_hour f) (f_min f))
  end.

End time.

(** ** The Date Normalizer

    [now] is what [time.Now()] returns when the function calls it; every path
    calls it at most once. *)

Definition reHours : regexp.Regexp := [regexp.Digits; regexp.Lit "時間前"].
Definition reMinutes : regexp.Regexp := [regexp.Digits; regexp.Lit "分前"].

Definition parseReleaseDate (now : time.Time) (dateStr : string) : string :=
  let hours :=
    match regexp.FindStringSubmatch reHours dateStr with
    | [_; m1] =>
        match strconv.Atoi m1 with
        | Ok hoursAgo =>
            let parsedTime := time.Add now (time.ago hoursAgo time.Hour) in
            Some (time.Format parsedTime "2006年01月02日 15:04")
        | Err _ => None
        end
    | _ => None
    end in
  match hours with
  | Some formatted => formatted
  | None =>
      let minutes :=
        match regexp.FindStringSubmatch reMinutes dateStr with
        | [_; m1] =>
            match strconv.Atoi m1 with
            | Ok minutesAgo =>
                let parsedTime := time.Add now (time.ago minutesAgo time.Minute) in
                Some (time.Format parsedTime "2006年01月02日 15:04")
            | Err _ => None
            end
        | _ => None
        end in
      match minutes with
      | Some formatted => formatted
      | None =>
          let absoluteFormat := "2006年1月2日 15時04分" in
          match time.Parse absoluteFormat dateStr with
          | Ok parsedTime => time.Format parsedTime "2006年01月02日 15:04"
          | Err _ => time.Format now "2006年01月02日 15:04"
          end
      end
  end.

(** ** Package net/url *)

Module url.

Definition unreserved (c : ascii) : bool :=
  let n := nat_of_ascii c in
  ((97 <=? n) && (n <=? 122))%nat || ((65 <=? n) && (n <=? 90))%nat
  || is_digit c
  || Ascii.eqb c "-" || Ascii.eqb c "_" || Ascii.eqb c "." || Ascii.eqb c "~".

Definition upperhex (n : nat) : ascii :=
  nth n (list_ascii_of_string "0123456789ABCDEF") "0"%char.

(** [url.QueryEscape]: a space becomes [+], every byte that is not
    unreserved becomes [%XX]. *)
Fixpoint QueryEscape (s : string) : string :=
  match s with
  | EmptyString => EmptyString
  | String c s' =>
      if Ascii.eqb c " " then String "+" (QueryEscape s')
      else if unreserved c then String c (QueryEscape s')
      else
        let n := nat_of_ascii c in
        String "%" (String (upperhex (n / 16)) (String (upperhex (n mod 16)) (QueryEscape s')))
  end.

End url.

(** ** The data model *)

Module PRTimesResponse.

Record Release : Type := mkRelease {
  CompanyName : string;
  Title : string;
  ThumbnailURL : string;
  ReleaseURL : string;
  ReleasedAt : string
}.

Record data : Type := mkData {
  CurrentPage : Z;
  LastPage : Z;
  ReleaseList : list Release
}.

Record t : Type := mk {
  Data : data;
  Status : Z;
  Message : string
}.

End PRTimesResponse.

Module LikeCountResponse.

Record data : Type := mkData { LikeCount : Z }.
Record t : Type := mk { Data : data }.

End LikeCountResponse.

Module ResponseItem.

Record t : Type := mk {
  CorporationName : string;
  PublishedDate : string;
  ThumbnailURL : string;
  PostURL : string;
  Title : string;
  LikeCount : Z
}.

End ResponseItem.

(** ** [sort.Slice]

    The library promises a permutation of the slice that is in order for
    [less]; it does not promise where equal elements go.  The handler is
    therefore embedded over any sorter with that contract. *)

Definition strict_weak_order {A : Type} (less : A -> A -> bool) : Prop :=
  (forall a, less a a = false)
  /\ (forall a b c, less a b = true -> less b c = true -> less a c = true)
  /\ (forall a b c, less a b = true -> less a c = true \/ less c b = true).

Class SliceSorter : Type := {
  sort_slice : forall {A : Type}, (A -> A -> bool) -> list A -> list A;
  sort_slice_permutation :
    forall (A : Type) (less : A -> A -> bool) (x : list A),
      Permutation x (sort_slice less x);
  sort_slice_sorted :
    forall (A : Type) (less : A -> A -> bool) (x : list A),
      strict_weak_order less ->
      Sorted (fun a b => less b a = false) (sort_slice less x)
}.

(** One sorter with that contract: insertion sort. *)
Fixpoint insert_by {A : Type} (less : A -> A -> bool) (a : A) (x : list A) : list A :=
  match x with
  | [] => [a]
  | b :: x' => if less a b then a :: b :: x' else b :: insert_by less a x'
  end.

Definition insertion_sort {A : Type} (less : A -> A -> bool) (x : list A) : list A :=
  fold_right (insert_by less) [] x.

(** ** The upstream

    [get_listing] and [get_like_count] stand for [http.Get] on a URL followed
    by the JSON decoding of the body into the respective struct; an error of
    either is an [Err].  The world may answer the same URL differently each
    time.  [clock] is [time.Now()]; [elapse] is what the world does by itself
    between two steps of the handler. *)

Record Upstream : Type := {
  world : Type;
  get_listing : world -> string -> world * result PRTimesResponse.t;
  get_like_count : world -> string -> world * result LikeCountResponse.t;
  clock : world -> time.Time;
  elapse : world -> world
}.

(** A call of one of the two fetchers, with what it returned.  A call of
    [fetchLikeCount] is marked with its caller: the goroutine of [page], at
    the listing number [index] of its range loop, counted from 0.  The mark
    is there to tell the calls apart in the proofs; the upstream does not
    see it. *)
Inductive Event : Type :=
| CallListing (keyword : string) (page : Z) (res : result PRTimesResponse.t)
| CallLikeCount (page : Z) (index : nat) (releaseID : string) (res : result Z).

Record Request : Type := mkRequest {
  query_keyword : string;   (* r.URL.Query().Get("keyword") *)
  query_limit : string      (* r.URL.Query().Get("limit") *)
}.

Inductive Response : Type :=
| StatusBadRequest (msg : string)
| StatusInternalServerError (msg : string)
| StatusOK (body : list ResponseItem.t).

(** The state of one goroutine of the fan-out.  [data] is its local
    [prTimesData], [rest] the releases the range loop has still to visit,
    and [out] the items it has appended so far (kept for the proofs). *)
Inductive goroutine : Type :=
| GFetch (page : Z)
| GRange (page : Z) (data : PRTimesResponse.t)
         (out : list ResponseItem.t) (rest : list PRTimesResponse.Release)
| GDate (page : Z) (data : PRTimesResponse.t) (out : list ResponseItem.t)
        (release : PRTimesResponse.Release) (likeCount : Z)
        (rest : list PRTimesResponse.Release)
| GAppend (page : Z) (data : PRTimesResponse.t) (out : list ResponseItem.t)
          (item : ResponseItem.t) (rest : list PRTimesResponse.Release)
| GDone (page : Z) (res : result PRTimesResponse.t) (out : list ResponseItem.t).

Definition finished (g : goroutine) : bool :=
  match g with
  | GDone _ _ _ => true
  | _ => false
  end.

Definition page_of (g : goroutine) : Z :=
  match g with
  | GFetch p | GRange p _ _ _ | GDate p _ _ _ _ _ | GAppend p _ _ _ _ | GDone p _ _ => p
  end.

Definition out_of (g : goroutine) : list ResponseItem.t :=
  match g with
  | GFetch _ => []
  | GRange _ _ out _ | GDate _ _ out _ _ _ | GAppend _ _ out _ _ | GDone _ _ out => out
  end.

Definition buildItem (release : PRTimesResponse.Release) (now : time.Time) (likeCount : Z)
  : ResponseItem.t :=
  ResponseItem.mk
    (PRTimesResponse.CompanyName release)
    (parseReleaseDate now (PRTimesResponse.ReleasedAt release))
    (PRTimesResponse.ThumbnailURL release)
    ("https://prtimes.jp" ++ PRTimesResponse.ReleaseURL release)
    (PRTimesResponse.Title release)
    likeCount.

Definition byLikeCount (a b : ResponseItem.t) : bool :=
  ResponseItem.LikeCount a >? ResponseItem.LikeCount b.

(** The pages the fan-out loop spawns a goroutine for: 1 to [totalPages]. *)
Definition pages (totalPages : Z) : list Z :=
  map Z.of_nat (seq 1 (Z.to_nat totalPages)).

Section Handler.

Context (U : Upstream) {sorter : SliceSorter}.

Record shared : Type := mkShared {
  sh_world : world U;
  sh_trace : list Event;
  sh_results : list ResponseItem.t
}.

Definition fetchPRTimesData (w : world U) (keyword : string) (page : Z)
  : world U * result PRTimesResponse.t :=
  let escapedKeyword := url.QueryEscape keyword in
  let url := "https://prtimes.jp/api/keyword_search.php/search?keyword="
             ++ escapedKeyword ++ "&page=" ++ strconv.Itoa page ++ "&limit=40" in
  get_listing U w url.

Definition fetchLikeCount (w : world U) (releaseID : string) : world U * result Z :=
  let url := "https://prtimes.jp/api/press_release.php/press_release/"
             ++ releaseID ++ "/like_count" in
  match get_like_count U w url with
  | (w', Ok likeResp) => (w', Ok (LikeCountResponse.LikeCount (LikeCountResponse.Data likeResp)))
  | (w', Err e) => (w', Err e)
  end.

(** One step of the goroutine of a page: the page fetch; for a release
    the like-count fetch, then the construction of the item, then the
    append under the lock; and the return. *)
Definition step (keyword : string) (g : goroutine) (sh : shared) : goroutine * shared :=
  match g with
  | GFetch page =>
      let (w', res) := fetchPRTimesData (sh_world sh) keyword page in
      let sh' := mkShared w' (sh_trace sh ++ [CallListing keyword page res]) (sh_results sh) in
      match res with
      | Err _ => (GDone page res [], sh')
      | Ok prTimesData =>
          (GRange page prTimesData []
             (PRTimesResponse.ReleaseList (PRTimesResponse.Data prTimesData)), sh')
      end
  | GRange page data out [] => (GDone page (Ok data) out, sh)
  | GRange page data out (release :: rest) =>
      let releaseID := extractReleaseID (PRTimesResponse.ReleaseURL release) in
      let (w', res) := fetchLikeCount (sh_world sh) releaseID in
      let likeCount := match res with Ok n => n | Err _ => 0 end in
      (GDate page data out release likeCount rest,
       mkShared w' (sh_trace sh ++ [CallLikeCount page (List.length out) releaseID res])
         (sh_results sh))
  | GDate page data out release likeCount rest =>
      let item := buildItem release (clock U (sh_world sh)) likeCount in
      (GAppend page data out item rest, sh)
  | GAppend page data out item rest =>
      (GRange page data (out ++ [item]) rest,
       mkShared (sh_world sh) (sh_trace sh) (sh_results sh ++ [item]))
  | GDone _ _ _ => (g, sh)
  end.

(** Step the [k]-th goroutine that has not returned. *)
Fixpoint step_nth (keyword : string) (k : nat) (gs : list goroutine) (sh : shared)
  : list goroutine * shared :=
  match gs with
  | [] => ([], sh)
  | g :: gs' =>
      if finished g
      then let (gs'', sh') := step_nth keyword k gs' sh in (g :: gs'', sh')
      else
        match k with
        | O => let (g', sh') := step keyword g sh in (g' :: gs', sh')
        | S k' => let (gs'', sh') := step_nth keyword k' gs' sh in (g :: gs'', sh')
        end
  end.

Definition live (gs : list goroutine) : nat :=
  List.length (filter (fun g => negb (finished g)) gs).

(** One scheduling decision: the world moves on, then the goroutine the
    scheduler picks among the live ones takes a step. *)
Definition sched_step (keyword : string) (pick : nat) (st : list goroutine * shared)
  : list goroutine * shared :=
  let (gs, sh) := st in
  match live gs with
  | O => st
  | S _ =>
      step_nth keyword (pick mod live gs) gs
        (mkShared (elapse U (sh_world sh)) (sh_trace sh) (sh_results sh))
  end.

Fixpoint run (keyword : string) (sched : list nat) (st : list goroutine * shared)
  : list goroutine * shared :=
  match sched with
  | [] => st
  | pick :: sched' => run keyword sched' (sched_step keyword pick st)
  end.

(** The fan-out loop up to [wg.Wait()]: every goroutine is spawned, then
    they run as the schedule says.  A goroutine that is spawned early and
    runs before the later ones exist behaves as it does here when it is
    scheduled first. *)
Definition fan_out (keyword : string) (totalPages : Z) (sched : list nat) (w : world U)
  : list goroutine * shared :=
  run keyword sched (map GFetch (pages totalPages), mkShared w [] []).

(** The sort and the cut to [limit]. *)
Definition finalize (limit : Z) (results : list ResponseItem.t) : list ResponseItem.t :=
  let results := sort_slice byLikeCount results in
  if (limit >? 0) && (Z.of_nat (List.length results) >? limit)
  then firstn (Z.to_nat limit) results
  else results.

Record Outcome : Type := mkOutcome {
  response : Response;
  calls : list Event;
  world_after : world U
}.

(** The handler after the first page has been fetched.  [None]: the
    schedule ends before every goroutine has returned, [wg.Wait()] still
    blocks. *)
Definition afterFirstPage (keyword : string) (limit : Z) (first : Event)
    (firstPageData : PRTimesResponse.t) (sched : list nat) (w : world U)
  : option Outcome :=
  let totalPages := PRTimesResponse.LastPage (PRTimesResponse.Data firstPageData) in
  let (gs, sh) := fan_out keyword totalPages sched w in
  if forallb finished gs
  then Some (mkOutcome (StatusOK (finalize limit (sh_results sh)))
               (first :: sh_trace sh) (sh_world sh))
  else None.

(** The limit parameter: 0 when it is absent, an error when it is not a
    positive integer. *)
Definition parseLimit (limitStr : string) : result Z :=
  if String.eqb limitStr "" then Ok 0
  else
    match strconv.Atoi limitStr with
    | Err e => Err e
    | Ok limit => if limit <=? 0 then Err "not positive" else Ok limit
    end.

Definition handlePRTimesPosts (sched : list nat) (w : world U) (r : Request)
  : option Outcome :=
  let keyword := query_keyword r in
  if String.eqb keyword ""
  then Some (mkOutcome (StatusBadRequest "keyword query parameter is required") [] w)
  else
    match parseLimit (query_limit r) with
    | Err _ =>
        Some (mkOutcome
                (StatusBadRequest "limit query parameter must be a positive integer") [] w)
    | Ok limit =>
        let (w1, res) := fetchPRTimesData w keyword 1 in
        let first := CallListing keyword 1 res in
        match res with
        | Err _ =>
            Some (mkOutcome
                    (StatusInternalServerError "Failed to fetch data from PR TIMES API")
                    [first] w1)
        | Ok firstPageData => afterFirstPage keyword limit first firstPageData sched w1
        end
    end.

End Handler.

(** ** A small upstream to run the handler on *)

Module Demo.

Import PRTimesResponse.

Definition jst : time.Location := fun _ => 9 * 3600.

(** 14 December 2024, 12:34:56 in Tokyo. *)
Definition noon : time.Time := time.mkTime 1734147296 123456789 jst.

Definition relA : Release :=
  mkRelease "Alpha Inc." "Alpha ships" "https://img.example/a.png"
    "/main/html/rd/p/123.456.html" "3時間前".
Definition relB : Release :=
  mkRelease "Beta KK" "Beta story" "https://img.example/b.png"
    "/story/789" "2024年12月3日 09時00分".
Definition relC : Release :=
  mkRelease "Gamma" "Gamma news" "https://img.example/c.png"
    "/main/html/rd/p/000000001.000000002.html?ref=top" "unknown".
Definition relOld : Release :=
  mkRelease "Stale" "seen by the first fetch only" ""
    "/main/html/rd/p/9.9.html" "45分前".

Definition listing_url (page : string) : string :=
  "https://prtimes.jp/api/keyword_search.php/search?keyword=rocq+9&page=" ++ page ++ "&limit=40".

Definition like_url (id : string) : string :=
  "https://prtimes.jp/api/press_release.php/press_release/" ++ id ++ "/like_count".

(** The world counts the calls it has answered.  The first call gets a
    first page that differs from what page 1 shows later; page 2 always
    fails; the like-count endpoint knows two identifiers and also answers
    the empty one. *)
Definition demo_listing (w : nat) (url : string) : nat * result PRTimesResponse.t :=
  (S w,
   if String.eqb url (listing_url "1") then
     match w with
     | O => Ok (mk (mkData 1 3 [relOld]) 200 "ok")
     | _ => Ok (mk (mkData 1 3 [relA; relB]) 200 "ok")
     end
   else if String.eqb url (listing_url "3") then Ok (mk (mkData 3 3 [relC]) 200 "ok")
   else Err "upstream: 502").

Definition demo_like (w : nat) (url : string) : nat * result LikeCountResponse.t :=
  (S w,
   if String.eqb url (like_url "123.456") then Ok (LikeCountResponse.mk (LikeCountResponse.mkData 5))
   else if String.eqb url (like_url "000000001.000000002")
   then Ok (LikeCountResponse.mk (LikeCountResponse.mkData 12))
   else if String.eqb url (like_url "") then Ok (LikeCountResponse.mk (LikeCountResponse.mkData 7))
   else Err "upstream: 404").

Definition upstream : Upstream :=
  Build_Upstream nat demo_listing demo_like
    (fun w => time.mkTime (time.unix_sec noon + Z.of_nat w) (time.nsec noon) jst)
    (fun w => w).

(** An upstream that is down, and one whose search has no page at all. *)
Definition down : Upstream :=
  Build_Upstream nat (fun w _ => (S w, Err "dial tcp: timeout"))
    (fun w _ => (S w, Err "dial tcp: timeout")) (fun _ => noon) (fun w => w).

Definition empty : Upstream :=
  Build_Upstream nat (fun w _ => (S w, Ok (mk (mkData 1 0 []) 200 "ok")))
    (fun w _ => (S w, Err "dial tcp: timeout")) (fun _ => noon) (fun w => w).

(** A scheduler that always lets the first live goroutine run, for twenty
    decisions; and one that moves between the goroutines. *)
Definition fifo : list nat := repeat 0%nat 20.
Definition mixed : list nat :=
  [2; 1; 0; 1; 0; 1; 0; 0; 1; 1; 1; 1; 1; 1; 1; 1; 1; 1; 1]%nat.

(** What the first fetch of page 1 returns, and the state at the barrier
    of the run that follows it under [fifo]. *)
Definition first_page : PRTimesResponse.t := mk (mkData 1 3 [relOld]) 200 "ok".

Definition barrier : list goroutine * shared upstream :=
  Eval vm_compute in fan_out upstream "rocq 9" 3 fifo 1%nat.

End Demo.

(** ** Words of the specification *)

(** One or more ASCII digits. *)
Definition digit_run (s : string) : Prop := s <> "" /\ all_digits s = true.

Definition release_path (a b : string) : string :=
  "/main/html/rd/p/" ++ a ++ "." ++ b ++ ".html".

(** [s] holds the release path with the digit groups [a] and [b], after
    [pre] and before [post]. *)
Definition occurs (s pre a b post : string) : Prop :=
  digit_run a /\ digit_run b /\ s = pre ++ release_path a b ++ post.

Definition first_occurrence (s pre a b post : string) : Prop :=
  occurs s pre a b post
  /\ forall pre' a' b' post',
      occurs s pre' a' b' post' -> (String.length pre <= String.length pre')%nat.

(** The shape as the specification words it: anything, then
    [/p/<numeric>.<numeric>.html], and nothing after it. *)
Definition exact_shape (s a b : string) : Prop :=
  digit_run a /\ digit_run b /\ exists pre, s = pre ++ "/p/" ++ a ++ "." ++ b ++ ".html".

(** The relative form: a run of digits [n] directly before [marker], found
    after [pre]. *)
Definition relative_at (marker s pre n post : string) : Prop :=
  digit_run n /\ s = pre ++ n ++ marker ++ post.

Definition first_relative (marker s pre n post : string) : Prop :=
  relative_at marker s pre n post
  /\ forall pre' n' post',
      relative_at marker s pre' n' post' -> (String.length pre <= String.length pre')%nat.

Definition no_relative (marker s : string) : Prop :=
  forall pre n post, ~ relative_at marker s pre n post.

(** The canonical shape [YYYY年MM月DD日 HH:MM], recognised byte by byte. *)
Fixpoint eat_digits (n : nat) (s : string) : option string :=
  match n with
  | O => Some s
  | S n' =>
      match s with
      | EmptyString => None
      | String c s' => if is_digit c then eat_digits n' s' else None
      end
  end.

Definition and_then {A B : Type} (o : option A) (f : A -> option B) : option B :=
  match o with
  | Some a => f a
  | None => None
  end.

Definition is_canonical (s : string) : bool :=
  match
    and_then (eat_digits 4 s) (fun s =>
    and_then (cut_prefix "年" s) (fun s =>
    and_then (eat_digits 2 s) (fun s =>
    and_then (cut_prefix "月" s) (fun s =>
    and_then (eat_digits 2 s) (fun s =>
    and_then (cut_prefix "日 " s) (fun s =>
    and_then (eat_digits 2 s) (fun s =>
    and_then (cut_prefix ":" s) (fun s =>
    eat_digits 2 s))))))))
  with
  | Some EmptyString => true
  | _ => false
  end.

(** The clock shows a time between the years 1000 and 9000, and the offset
    of its location stays within a day. *)
Definition clock_in_range (now : time.Time) : Prop :=
  time.unix_sec (time.Date 1000 1 1 0 0) <= time.unix_sec now
  /\ time.unix_sec now < time.unix_sec (time.Date 9000 1 1 0 0)
  /\ forall sec, - 86400 <= time.loc now sec <= 86400.

(** *** The civil calendar, as the specification reads a time

    The date and the time of day that an instant has on the wall clock of
    its location, counted with the rules of the Gregorian calendar, and the
    text [YYYY年MM月DD日 HH:MM] of such a date and time.  Nothing here is
    taken from package [time]. *)

Definition leap_year (y : Z) : bool :=
  ((y mod 4 =? 0) && negb (y mod 100 =? 0)) || (y mod 400 =? 0).

Definition month_length (y m : Z) : Z :=
  if m =? 2 then (if leap_year y then 29 else 28)
  else if (m =? 4) || (m =? 6) || (m =? 9) || (m =? 11) then 30
  else 31.

(** The days of the years before [y], from the year 1 on. *)
Definition days_before_year (y : Z) : Z :=
  365 * (y - 1) + (y - 1) / 4 - (y - 1) / 100 + (y - 1) / 400.

(** The days of the months of [y] before the month [m]. *)
Definition days_before_month (y m : Z) : Z :=
  fold_right Z.add 0 (map (fun k => month_length y (Z.of_nat k)) (seq 1 (Z.to_nat (m - 1)))).

(** The number of the day [d] of the month [m] of the year [y], counted
    from 1 January of the year 1. *)
Definition day_number (y m d : Z) : Z :=
  days_before_year y + days_before_month y m + (d - 1).

(** The seconds since 1 January 1970, 00:00, on the wall clock of the
    location of [t]. *)
Definition wall_seconds (t : time.Time) : Z :=
  time.unix_sec t + time.loc t (time.unix_sec t).

(** The wall clock of [t] shows the day [d] of the month [m] of the year
    [y], and the time [h]:[mi]. *)
Definition shows (t : time.Time) (y m d h mi : Z) : Prop :=
  1 <= m <= 12
  /\ 1 <= d <= month_length y m
  /\ day_number y m d - day_number 1970 1 1 = wall_seconds t / 86400
  /\ h = wall_seconds t mod 86400 / 3600
  /\ mi = wall_seconds t mod 3600 / 60.

Definition digit (k : Z) : ascii := ascii_of_nat (48 + Z.to_nat k).

Definition two (v : Z) : string :=
  String (digit (v / 10)) (String (digit (v mod 10)) "").

Definition four (v : Z) : string :=
  String (digit (v / 1000))
    (String (digit (v / 100 mod 10))
       (String (digit (v / 10 mod 10)) (String (digit (v mod 10)) ""))).

Definition canonical_form (y m d h mi : Z) : string :=
  four y ++ "年" ++ two m ++ "月" ++ two d ++ "日 " ++ two h ++ ":" ++ two mi.

(** [text] is the canonical form of what the wall clock of [t] shows. *)
Definition renders (text : string) (t : time.Time) : Prop :=
  (exists y m d h mi, shows t y m d h mi)
  /\ forall y m d h mi, shows t y m d h mi -> text = canonical_form y m d h mi.

(** ** Exhaustive checks over one 400-year cycle *)

Fixpoint all_from (n : nat) (lo : Z) (f : Z -> bool) : bool :=
  match n with
  | O => true
  | S n' => f lo && all_from n' (lo + 1) f
  end.

Definition date_eqb (x y : Z * Z * Z) : bool :=
  let '(a, b, c) := x in
  let '(a', b', c') := y in
  (a =? a') && (b =? b') && (c =? c').

Definition check_day (year month day : Z) : bool :=
  if (1 <=? day) && (day <=? time.daysIn month year) then
    let n := time.civil_days year month day in
    (0 <=? n) && (n <? 146097) && date_eqb (time.absDate n) (year, month, day)
  else true.

Definition check_year (year : Z) : bool :=
  all_from 12 1 (fun m => all_from 31 1 (check_day year m)).

Definition check_cycle_day (r : Z) : bool :=
  let '(y, m, d) := time.absDate r in
  (1 <=? y) && (y <=? 400) && (1 <=? m) && (m <=? 12) && (1 <=? d) && (d <=? 31).

Definition check_back (r : Z) : bool :=
  let '(y, m, d) := time.absDate r in
  (1 <=? d) && (d <=? time.daysIn m y) && (time.civil_days y m d =? r).

Definition two_digits (s : string) : bool :=
  match s with
  | String a (String b EmptyString) => is_digit a && is_digit b
  | _ => false
  end.

Definition four_digits (s : string) : bool :=
  match s with
  | String a (String b (String c (String d EmptyString))) =>
      is_digit a && is_digit b && is_digit c && is_digit d
  | _ => false
  end.

(** A date of the calendar. *)
Definition valid_date (y m d : Z) : Prop :=
  1 <= m <= 12 /\ 1 <= d <= time.daysIn m y.

(** The relative form that the normalizer reads: the first run of digits
    before the marker, when it is the decimal form of an [int] [k]. *)
Definition relative_form (marker s : string) (k : Z) : Prop :=
  exists pre n post, first_relative marker s pre n post /\ strconv.Atoi n = Ok k.

(** [now] moved back by [k] seconds. *)
Definition seconds_before (now : time.Time) (k : Z) : time.Time :=
  time.mkTime (time.unix_sec now - k) (time.nsec now) (time.loc now).

(** What the source does with a relative pattern: the integer of the first
    match, when it is an [int]. *)
Definition attempt (marker s : string) : option Z :=
  match regexp.FindStringSubmatch [regexp.Digits; regexp.Lit marker] s with
  | [_; m1] =>
      match strconv.Atoi m1 with
      | Ok k => Some k
      | Err _ => None
      end
  | _ => None
  end.

(** The text a time is formatted to, field by field. *)
Definition canonical_text (y m d h mi : Z) : string :=
  time.appendInt y 4 ++ "年" ++ time.appendInt m 2 ++ "月" ++ time.appendInt d 2
  ++ "日 " ++ time.appendInt h 2 ++ ":" ++ time.appendInt mi 2.

(** A time whose wall clock lies in the first 9600 years. *)
Definition abs_in_range (t : time.Time) : Prop :=
  0 <= time.abs t < 146097 * 24 * 86400.

(** What follows a digit group: the end of the string or a byte that is not
    a digit. *)
Definition ends_run (r : string) : Prop :=
  match r with
  | EmptyString => True
  | String c _ => is_digit c = false
  end.

(** The last byte of a string. *)
Fixpoint last_byte (s : string) : option ascii :=
  match s with
  | EmptyString => None
  | String c EmptyString => Some c
  | String _ s' => last_byte s'
  end.

(** No neighbour has more likes than the item before it. *)
Definition descending (l : list ResponseItem.t) : Prop :=
  forall i a b,
    nth_error l i = Some a -> nth_error l (S i) = Some b ->
    ResponseItem.LikeCount a >= ResponseItem.LikeCount b.

(** ** What the fan-out keeps true *)

Definition like_or_zero (res : result Z) : Z :=
  match res with
  | Ok n => n
  | Err _ => 0
  end.

(** [item] is the item of [release], the listing number [index] of the
    goroutine of [page]: built from its fields, with the like count that
    the call of the Popularity Fetcher made for this very listing, with its
    identifier, returned, or 0 when that call failed. *)
Definition item_for (trace : list Event) (page : Z) (index : nat)
    (release : PRTimesResponse.Release) (item : ResponseItem.t) : Prop :=
  exists now res,
    In (CallLikeCount page index (extractReleaseID (PRTimesResponse.ReleaseURL release)) res)
       trace
    /\ item = buildItem release now (like_or_zero res).

(** [items] are the items of the listings [rs], which are numbered from
    [index] on: one item per listing, in the order of the listings. *)
Fixpoint items_from (trace : list Event) (page : Z) (index : nat)
    (rs : list PRTimesResponse.Release) (items : list ResponseItem.t) : Prop :=
  match rs, items with
  | [], [] => True
  | release :: rs', item :: items' =>
      item_for trace page index release item /\ items_from trace page (S index) rs' items'
  | _, _ => False
  end.

(** The items of a page: one per listing when the fetch succeeded, none
    when it failed. *)
Definition page_items (trace : list Event) (page : Z) (res : result PRTimesResponse.t)
    (items : list ResponseItem.t) : Prop :=
  match res with
  | Ok data =>
      items_from trace page 0 (PRTimesResponse.ReleaseList (PRTimesResponse.Data data)) items
  | Err _ => items = []
  end.

(** The callers of the calls of [fetchLikeCount] in a trace. *)
Definition like_owners (trace : list Event) : list (Z * nat) :=
  flat_map (fun ev => match ev with
                      | CallLikeCount p i _ _ => [(p, i)]
                      | CallListing _ _ _ => []
                      end) trace.

Definition started (g : goroutine) : bool :=
  match g with
  | GFetch _ => false
  | _ => true
  end.

(** The pages of the calls of the Listing Fetcher, in the order of the
    calls. *)
Definition listing_pages (trace : list Event) : list Z :=
  flat_map (fun ev => match ev with CallListing _ p _ => [p] | CallLikeCount _ _ _ _ => [] end)
    trace.

Definition goroutine_ok (keyword : string) (trace : list Event) (g : goroutine) : Prop :=
  match g with
  | GFetch _ => True
  | GRange page data out rest =>
      In (CallListing keyword page (Ok data)) trace
      /\ exists done,
          PRTimesResponse.ReleaseList (PRTimesResponse.Data data) = (done ++ rest)%list
          /\ items_from trace page 0 done out
  | GDate page data out release likeCount rest =>
      In (CallListing keyword page (Ok data)) trace
      /\ (exists res,
             In (CallLikeCount page (List.length out)
                   (extractReleaseID (PRTimesResponse.ReleaseURL release)) res) trace
             /\ likeCount = like_or_zero res)
      /\ exists done,
          PRTimesResponse.ReleaseList (PRTimesResponse.Data data) = (done ++ release :: rest)%list
          /\ items_from trace page 0 done out
  | GAppend page data out item rest =>
      In (CallListing keyword page (Ok data)) trace
      /\ exists done release,
          PRTimesResponse.ReleaseList (PRTimesResponse.Data data) = (done ++ release :: rest)%list
          /\ item_for trace page (List.length out) release item
          /\ items_from trace page 0 done out
  | GDone page res out =>
      In (CallListing keyword page res) trace /\ page_items trace page res out
  end.

(** A goroutine that has its like count and has not yet appended the item. *)
Definition pending (g : goroutine) : nat :=
  match g with
  | GDate _ _ _ _ _ _ | GAppend _ _ _ _ _ => 1
  | _ => 0
  end.

(** The calls of [fetchLikeCount] a goroutine has made. *)
Definition made (g : goroutine) : nat := List.length (out_of g) + pending g.

(** The steps a goroutine has still to take once it has fetched its page. *)
Definition weight (g : goroutine) : nat :=
  match g with
  | GFetch _ => 0
  | GRange _ _ _ rest => 3 * List.length rest + 1
  | GDate _ _ _ _ _ rest => 3 * List.length rest + 3
  | GAppend _ _ _ _ rest => 3 * List.length rest + 2
  | GDone _ _ _ => 0
  end.

Definition unstarted (gs : list goroutine) : nat :=
  List.length (filter (fun g => negb (started g)) gs).

Definition total_weight (gs : list goroutine) : nat :=
  list_sum (map weight gs).

Section Invariant.

Context (U : Upstream).

Definition pool_inv (keyword : string) (st : list goroutine * shared U) : Prop :=
  Permutation (sh_results U (snd st)) (flat_map out_of (fst st))
  /\ Forall (goroutine_ok keyword (sh_trace U (snd st))) (fst st)
  /\ Permutation (listing_pages (sh_trace U (snd st)))
                 (map page_of (filter started (fst st))).

End Invariant.

(** Every call of [fetchLikeCount] in the trace has a mark of its own, and
    the marks of a page are the numbers below the number of calls that the
    goroutine of the page has made. *)
Definition owner_inv (gs : list goroutine) (trace : list Event) : Prop :=
  NoDup (map page_of gs)
  /\ NoDup (like_owners trace)
  /\ forall p i, In (p, i) (like_owners trace) ->
                 exists g, In g gs /\ page_of g = p /\ (i < made g)%nat.

(** A numeric parameter: an optional sign and one or more digits. *)
Definition is_numeral (s : string) : bool :=
  match s with
  | EmptyString => false
  | String c rest =>
      let body := if Ascii.eqb c "-" || Ascii.eqb c "+" then rest else s in
      negb (String.eqb body "") && all_digits body
  end.

(** The integer that a numeral denotes, however large it is. *)
Fixpoint decimal (acc : Z) (s : string) : Z :=
  match s with
  | EmptyString => acc
  | String c s' => decimal (10 * acc + (Z.of_nat (nat_of_ascii c) - 48)) s'
  end.

Definition numeral_value (s : string) : Z :=
  match s with
  | EmptyString => 0
  | String c rest =>
      if Ascii.eqb c "-" then - decimal 0 rest
      else if Ascii.eqb c "+" then decimal 0 rest
      else decimal 0 s
  end.

(** The first [n] decisions of a scheduler. *)
Definition decisions (f : nat -> nat) (n : nat) : list nat := map f (seq 0 n).

Section Raw.

Context (U : Upstream) {sorter : SliceSorter}.

(** The sorted collection before the cut: the raw result of a request. *)
Definition raw_results (sched : list nat) (w : world U) (keyword : string)
  : list ResponseItem.t :=
  match fetchPRTimesData U w keyword 1 with
  | (w1, Ok firstPageData) =>
      let totalPages := PRTimesResponse.LastPage (PRTimesResponse.Data firstPageData) in
      sort_slice byLikeCount (sh_results U (snd (fan_out U keyword totalPages sched w1)))
  | (_, Err _) => []
  end.

End Raw.

(** ** Words for further properties of the code *)

(** Every byte of [s] satisfies [p]. *)
Fixpoint all_bytes (p : ascii -> bool) (s : string) : bool :=
  match s with
  | EmptyString => true
  | String c s' => p c && all_bytes p s'
  end.

(** The bytes an escaped query is made of: the unreserved ones, [+] for a
    space and [%] with two hexadecimal digits. *)
Definition query_safe (c : ascii) : bool :=
  url.unreserved c || Ascii.eqb c "+" || Ascii.eqb c "%".

(** The value of a hexadecimal digit, as the unescaping of the library
    reads it. *)
Definition unhex (c : ascii) : nat :=
  let n := nat_of_ascii c in
  if ((48 <=? n) && (n <=? 57))%nat then (n - 48)%nat
  else if ((97 <=? n) && (n <=? 102))%nat then (n - 97 + 10)%nat
  else if ((65 <=? n) && (n <=? 70))%nat then (n - 65 + 10)%nat
  else 0%nat.

(** Reading an escaped query back: [%XX] is the byte of value [XX], [+] is
    a space, every other byte is itself. *)
Fixpoint unescape (s : string) : string :=
  match s with
  | EmptyString => EmptyString
  | String c s1 =>
      if Ascii.eqb c "%" then
        match s1 with
        | String a (String b s3) =>
            String (ascii_of_nat (16 * unhex a + unhex b)) (unescape s3)
        | _ => String c (unescape s1)
        end
      else if Ascii.eqb c "+" then String " " (unescape s1)
      else String c (unescape s1)
  end.

(** The URL that [fetchPRTimesData] asks for, and the one of
    [fetchLikeCount]. *)
Definition listing_request (keyword : string) (page : Z) : string :=
  "https://prtimes.jp/api/keyword_search.php/search?keyword="
  ++ url.QueryEscape keyword ++ "&page=" ++ strconv.Itoa page ++ "&limit=40".

Definition like_request (releaseID : string) : string :=
  "https://prtimes.jp/api/press_release.php/press_release/" ++ releaseID ++ "/like_count".

(** [l1] is [l2] with some elements left out, the order kept. *)
Inductive subseq {A : Type} : list A -> list A -> Prop :=
| subseq_nil : subseq [] []
| subseq_skip (x : A) (l1 l2 : list A) : subseq l1 l2 -> subseq l1 (x :: l2)
| subseq_take (x : A) (l1 l2 : list A) : subseq l1 l2 -> subseq (x :: l1) (x :: l2).

(** The calls of the Popularity Fetcher in a trace. *)
Definition like_calls (trace : list Event) : list string :=
  flat_map (fun ev => match ev with
                      | CallLikeCount _ _ id _ => [id]
                      | CallListing _ _ _ => []
                      end)
    trace.

(** The listings a goroutine has come to the end of. *)
Definition listings_of (g : goroutine) : list PRTimesResponse.Release :=
  match g with
  | GDone _ (Ok data) _ => PRTimesResponse.ReleaseList (PRTimesResponse.Data data)
  | _ => []
  end.

(** [s] is a run of digits that is the decimal form of [v], possibly with
    zeros before it. *)
Definition spells (s : string) (v : Z) : bool :=
  negb (String.eqb s "") && all_digits s
  && match strconv.digits_value 0 s with
     | Some u => u =? v
     | None => false
     end.

(** A byte that is not the last byte of the sign that ends both relative
    markers. *)
Definition plain_byte (c : ascii) : bool := negb (Ascii.eqb c (ascii_of_nat 141)).

(** The absolute form of a date and a time of day, from the texts of its
    five numbers. *)
Definition absolute_text (Y M D H MI : string) : string :=
  Y ++ "年" ++ M ++ "月" ++ D ++ "日 " ++ H ++ "時" ++ MI ++ "分".

(** ** An upstream that stands still

    The answer to a URL does not depend on when it is asked, and the clock
    shows one time. *)

Definition steady (U : Upstream) (L : string -> result PRTimesResponse.t)
    (K : string -> result LikeCountResponse.t) (c : time.Time) : Prop :=
  (forall w url, snd (get_listing U w url) = L url)
  /\ (forall w url, snd (get_like_count U w url) = K url)
  /\ (forall w, clock U w = c).

(** What [fetchLikeCount] makes of the answer of the endpoint. *)
Definition like_result (r : result LikeCountResponse.t) : result Z :=
  match r with
  | Ok likeResp => Ok (LikeCountResponse.LikeCount (LikeCountResponse.Data likeResp))
  | Err e => Err e
  end.

(** The item of a listing, and the items of a page, when the upstream
    stands still. *)
Definition steady_item (K : string -> result LikeCountResponse.t) (c : time.Time)
    (release : PRTimesResponse.Release) : ResponseItem.t :=
  buildItem release c
    (like_or_zero
       (like_result (K (like_request (extractReleaseID (PRTimesResponse.ReleaseURL release)))))).

Definition steady_items (K : string -> result LikeCountResponse.t) (c : time.Time)
    (res : result PRTimesResponse.t) : list ResponseItem.t :=
  match res with
  | Ok data => map (steady_item K c) (PRTimesResponse.ReleaseList (PRTimesResponse.Data data))
  | Err _ => []
  end.

Definition steady_page (L : string -> result PRTimesResponse.t)
    (K : string -> result LikeCountResponse.t) (c : time.Time)
    (keyword : string) (page : Z) : list ResponseItem.t :=
  steady_items K c (L (listing_request keyword page)).

(** What a goroutine holds when the upstream stands still. *)
Definition steady_ok (L : string -> result PRTimesResponse.t)
    (K : string -> result LikeCountResponse.t) (c : time.Time)
    (keyword : string) (g : goroutine) : Prop :=
  match g with
  | GFetch _ => True
  | GRange page data out rest =>
      L (listing_request keyword page) = Ok data
      /\ exists done,
          PRTimesResponse.ReleaseList (PRTimesResponse.Data data) = (done ++ rest)%list
          /\ out = map (steady_item K c) done
  | GDate page data out release likeCount rest =>
      L (listing_request keyword page) = Ok data
      /\ buildItem release c likeCount = steady_item K c release
      /\ exists done,
          PRTimesResponse.ReleaseList (PRTimesResponse.Data data) = (done ++ release :: rest)%list
          /\ out = map (steady_item K c) done
  | GAppend page data out item rest =>
      L (listing_request keyword page) = Ok data
      /\ exists done release,
          PRTimesResponse.ReleaseList (PRTimesResponse.Data data) = (done ++ release :: rest)%list
          /\ item = steady_item K c release
          /\ out = map (steady_item K c) done
  | GDone page res out =>
      res = L (listing_request keyword page) /\ out = steady_items K c res
  end.

(** A search of two pages on an upstream that stands still. *)
Module Still.

Import PRTimesResponse.

Definition listing (url : string) : result PRTimesResponse.t :=
  if String.eqb url (listing_request "rocq 9" 1)
  then Ok (mk (mkData 1 2 [Demo.relA; Demo.relB]) 200 "ok")
  else if String.eqb url (listing_request "rocq 9" 2)
  then Ok (mk (mkData 2 2 [Demo.relC]) 200 "ok")
  else Err "upstream: 502".

Definition like (url : string) : result LikeCountResponse.t :=
  if String.eqb url (like_request "123.456")
  then Ok (LikeCountResponse.mk (LikeCountResponse.mkData 5))
  else if String.eqb url (like_request "000000001.000000002")
  then Ok (LikeCountResponse.mk (LikeCountResponse.mkData 12))
  else Err "upstream: 404".

Definition upstream : Upstream :=
  Build_Upstream nat (fun w url => (S w, listing url)) (fun w url => (S w, like url))
    (fun _ => Demo.noon) (fun w => S w).

(** The state at the barrier under two schedulers. *)
Definition barrier_fifo : list goroutine * shared upstream :=
  Eval vm_compute in fan_out upstream "rocq 9" 2 Demo.fifo 1%nat.

Definition barrier_mixed : list goroutine * shared upstream :=
  Eval vm_compute in fan_out upstream "rocq 9" 2 Demo.mixed 1%nat.

End Still.

(** * Facts *)

(** ** Strings *)

Lemma append_nil_r (s : string) : s ++ "" = s.
Proof. induction s as [|c s IH]; simpl; [reflexivity | now rewrite IH]. Qed.

Lemma append_assoc (a b c : string) : (a ++ b) ++ c = a ++ (b ++ c).
Proof. induction a as [|x a IH]; simpl; [reflexivity | now rewrite IH]. Qed.

Lemma length_append (a b : string) :
  String.length (a ++ b) = (String.length a + String.length b)%nat.
Proof. induction a as [|x a IH]; simpl; [reflexivity | now rewrite IH]. Qed.

Lemma substring_append_l (a b : string) :
  substring 0 (String.length a) (a ++ b) = a.
Proof. induction a as [|x a IH]; simpl; [now destruct b | now rewrite IH]. Qed.

(** Two ways to cut the same string: the shorter prefix is a prefix of the
    longer one. *)
Lemma append_split (a b c d : string) :
  a ++ b = c ++ d -> (String.length a <= String.length c)%nat ->
  exists m, c = a ++ m /\ b = m ++ d.
Proof.
  revert c. induction a as [|x a IH]; intros c H Hlen.
  - exists c. simpl in *. now split.
  - destruct c as [|y c]; simpl in Hlen; [lia|].
    simpl in H. injection H as -> H.
    destruct (IH c H) as [m [-> ->]]; [lia|].
    exists m. now split.
Qed.

Lemma cut_prefix_append (p s : string) : cut_prefix p (p ++ s) = Some s.
Proof.
  induction p as [|a p IH]; simpl; [reflexivity|].
  now rewrite Ascii.eqb_refl.
Qed.

Lemma cut_prefix_inv (p s r : string) : cut_prefix p s = Some r -> s = p ++ r.
Proof.
  revert s. induction p as [|a p IH]; intros s H; simpl in *.
  - now injection H as ->.
  - destruct s as [|b s]; [discriminate|].
    destruct (Ascii.eqb_spec a b) as [->|]; [|discriminate].
    now rewrite (IH _ H).
Qed.

Lemma span_digits_append (a r : string) :
  all_digits a = true -> ends_run r -> span_digits (a ++ r) = (a, r).
Proof.
  intros Ha Hr. induction a as [|c a IH]; cbn [append span_digits all_digits] in *.
  - destruct r as [|c r]; [reflexivity|]. cbn [ends_run span_digits] in *. now rewrite Hr.
  - apply andb_true_iff in Ha as [Hc Ha]. now rewrite Hc, (IH Ha).
Qed.

Lemma span_digits_inv (s d r : string) :
  span_digits s = (d, r) -> s = d ++ r /\ all_digits d = true /\ ends_run r.
Proof.
  revert d r. induction s as [|c s IH]; intros d r H; cbn [span_digits] in H.
  - injection H as <- <-. now repeat split.
  - destruct (is_digit c) eqn:Hc.
    + destruct (span_digits s) as [d' r'] eqn:Hs. injection H as <- <-.
      destruct (IH _ _ eq_refl) as (-> & Hd & Hr).
      cbn [append all_digits]. rewrite Hc. now repeat split.
    + injection H as <- <-. cbn [append all_digits ends_run]. now repeat split.
Qed.

(** ** The leftmost match *)

Section Find.

Variable re : regexp.Regexp.

Lemma FindStringSubmatch_unfold (s : string) :
  regexp.FindStringSubmatch re s =
  match regexp.match_here re s with
  | Some (caps, rest) => substring 0 (String.length s - String.length rest) s :: caps
  | None =>
      match s with
      | EmptyString => []
      | String _ s' => regexp.FindStringSubmatch re s'
      end
  end.
Proof. destruct s; reflexivity. Qed.

(** Either no suffix of [s] matches and the result is [nil], or the
    result is the match at the first suffix that matches. *)
Lemma FindStringSubmatch_cases (s : string) :
  (regexp.FindStringSubmatch re s = []
   /\ forall pre t, s = pre ++ t -> regexp.match_here re t = None)
  \/ (exists pre t caps rest,
        s = pre ++ t
        /\ regexp.match_here re t = Some (caps, rest)
        /\ (forall p1 p2, pre = p1 ++ p2 -> p2 <> "" ->
                          regexp.match_here re (p2 ++ t) = None)
        /\ exists whole, regexp.FindStringSubmatch re s = whole :: caps).
Proof.
  induction s as [|c s IH].
  - rewrite FindStringSubmatch_unfold.
    destruct (regexp.match_here re "") as [[caps rest]|] eqn:Hm.
    + right. exists "", "", caps, rest. repeat split; trivial.
      * intros p1 p2 H. destruct p1; destruct p2; try discriminate. congruence.
      * eexists; reflexivity.
    + left. split; [reflexivity|].
      intros pre t H. destruct pre; [|discriminate]. simpl in H. now subst t.
  - rewrite FindStringSubmatch_unfold.
    destruct (regexp.match_here re (String c s)) as [[caps rest]|] eqn:Hm.
    + right. exists "", (String c s), caps, rest. repeat split; trivial.
      * intros p1 p2 H. destruct p1; destruct p2; try discriminate. congruence.
      * eexists; reflexivity.
    + destruct IH as [[Hnil Hnone] | (pre & t & caps & rest & -> & Ht & Hfirst & whole & Hres)].
      * left. split; [exact Hnil|].
        intros pre t H. destruct pre as [|c' pre]; simpl in H.
        -- now subst t.
        -- injection H as _ H. now apply (Hnone pre).
      * right. exists (String c pre), t, caps, rest. repeat split; trivial.
        -- intros p1 p2 H Hp2. destruct p1 as [|c' p1]; simpl in H.
           ++ subst p2. exact Hm.
           ++ injection H as _ H. now apply (Hfirst p1).
        -- exists whole. exact Hres.
Qed.

End Find.

(** ** The release path pattern *)

Lemma match_release_path (a b post : string) :
  digit_run a -> digit_run b ->
  regexp.match_here reReleasePath (release_path a b ++ post) = Some ([a; b], post).
Proof.
  intros [Ha0 Ha] [Hb0 Hb]. unfold release_path, reReleasePath.
  rewrite !append_assoc.
  cbn [regexp.match_here]. rewrite cut_prefix_append.
  rewrite (span_digits_append a ("." ++ b ++ ".html" ++ post) Ha eq_refl).
  destruct a as [|ca a]; [contradiction|].
  rewrite cut_prefix_append.
  rewrite (span_digits_append b (".html" ++ post) Hb eq_refl).
  destruct b as [|cb b]; [contradiction|].
  now rewrite cut_prefix_append.
Qed.

Lemma match_release_path_inv (s rest : string) (caps : list string) :
  regexp.match_here reReleasePath s = Some (caps, rest) ->
  exists a b, caps = [a; b] /\ digit_run a /\ digit_run b
              /\ s = release_path a b ++ rest.
Proof.
  unfold reReleasePath. cbn [regexp.match_here]. intros H.
  destruct (cut_prefix "/main/html/rd/p/" s) as [s1|] eqn:H1; [|discriminate].
  destruct (span_digits s1) as [a r1] eqn:H2.
  destruct a as [|ca a]; [discriminate|].
  destruct (cut_prefix "." r1) as [s2|] eqn:H3; [|discriminate].
  destruct (span_digits s2) as [b r2] eqn:H4.
  destruct b as [|cb b]; [discriminate|].
  destruct (cut_prefix ".html" r2) as [s3|] eqn:H5; [|discriminate].
  injection H as <- <-.
  apply cut_prefix_inv in H1, H3, H5.
  apply span_digits_inv in H2 as (-> & Ha & _), H4 as (-> & Hb & _).
  exists (String ca a), (String cb b). repeat split; try discriminate; trivial.
  subst. unfold release_path. now rewrite !append_assoc.
Qed.

(** What the extractor returns, for every input. *)
Lemma extractReleaseID_cases (s : string) :
  (extractReleaseID s = "" /\ forall pre a b post, ~ occurs s pre a b post)
  \/ (exists pre a b post,
        first_occurrence s pre a b post /\ extractReleaseID s = a ++ "." ++ b).
Proof.
  unfold extractReleaseID.
  destruct (FindStringSubmatch_cases reReleasePath s)
    as [[Hnil Hnone] | (pre & t & caps & rest & Hs & Ht & Hfirst & whole & Hres)].
  - left. rewrite Hnil. split; [reflexivity|].
    intros pre a b post (Ha & Hb & Hs).
    specialize (Hnone pre _ Hs). rewrite match_release_path in Hnone by assumption.
    discriminate.
  - right. destruct (match_release_path_inv _ _ _ Ht) as (a & b & -> & Ha & Hb & ->).
    exists pre, a, b, rest. rewrite Hres. split; [|reflexivity].
    split; [repeat split; try apply Ha; try apply Hb; exact Hs|].
    intros pre' a' b' post' (Ha' & Hb' & Hs').
    destruct (Nat.le_gt_cases (String.length pre) (String.length pre')) as [|Hlt]; [assumption|].
    exfalso. rewrite Hs in Hs'. symmetry in Hs'.
    destruct (append_split _ _ _ _ Hs') as (m & Hpre & Hm); [lia|].
    assert (Hm0 : m <> "").
    { intros ->. rewrite Hpre, append_nil_r in Hlt. lia. }
    specialize (Hfirst pre' m Hpre Hm0). rewrite <- Hm in Hfirst.
    rewrite match_release_path in Hfirst by assumption. discriminate.
Qed.

Lemma joined_not_empty (a b : string) : a ++ "." ++ b <> "".
Proof. destruct a; discriminate. Qed.

(** C10.  The pattern is not anchored: whenever the input holds
    [/main/html/rd/p/<digits>.<digits>.html] anywhere, with any text before
    and after it, the extractor returns the two digit groups of the first
    such occurrence joined by a dot, and so never the empty string. *)
Theorem extractReleaseID_unanchored (s pre a b post : string) :
  occurs s pre a b post ->
  exists pre0 a0 b0 post0,
    first_occurrence s pre0 a0 b0 post0
    /\ extractReleaseID s = a0 ++ "." ++ b0
    /\ extractReleaseID s <> "".
Proof.
  intros Hocc.
  destruct (extractReleaseID_cases s) as [[_ Hno] | (pre0 & a0 & b0 & post0 & Hfirst & Hres)].
  - now destruct (Hno _ _ _ _ Hocc).
  - exists pre0, a0, b0, post0. repeat split; try apply Hfirst; trivial.
    rewrite Hres. apply joined_not_empty.
Qed.

Lemma digit_run_123 : digit_run "123".
Proof. split; [discriminate | reflexivity]. Qed.

Lemma digit_run_456 : digit_run "456".
Proof. split; [discriminate | reflexivity]. Qed.

Lemma extractReleaseID_unanchored_witness :
  exists pre0 a0 b0 post0,
    first_occurrence "https://prtimes.jp/main/html/rd/p/123.456.html?utm=x" pre0 a0 b0 post0
    /\ extractReleaseID "https://prtimes.jp/main/html/rd/p/123.456.html?utm=x" = a0 ++ "." ++ b0
    /\ extractReleaseID "https://prtimes.jp/main/html/rd/p/123.456.html?utm=x" <> "".
Proof.
  apply (extractReleaseID_unanchored _ "https://prtimes.jp" "123" "456" "?utm=x").
  split; [split; [discriminate | reflexivity]|].
  split; [split; [discriminate | reflexivity]|].
  reflexivity.
Defined.

Lemma first_occurrence_unique (s pre a b post pre0 a0 b0 post0 : string) :
  first_occurrence s pre a b post -> first_occurrence s pre0 a0 b0 post0 ->
  a = a0 /\ b = b0.
Proof.
  intros [Hocc Hmin] [Hocc0 Hmin0].
  pose proof (Hmin _ _ _ _ Hocc0) as Hle.
  pose proof (Hmin0 _ _ _ _ Hocc) as Hge.
  destruct Hocc as (Ha & Hb & Hs), Hocc0 as (Ha0 & Hb0 & Hs0).
  rewrite Hs in Hs0.
  destruct (append_split _ _ _ _ Hs0 Hle) as (m & Hpre & Hm).
  assert (m = "") as ->.
  { destruct m; [reflexivity|]. rewrite Hpre, length_append in Hge. simpl in Hge. lia. }
  pose proof (match_release_path a b post Ha Hb) as H1.
  rewrite Hm in H1.
  change ("" ++ release_path a0 b0 ++ post0) with (release_path a0 b0 ++ post0) in H1.
  rewrite (match_release_path a0 b0 post0 Ha0 Hb0) in H1.
  injection H1 as -> -> _. now split.
Qed.

(** C5, as the code has it.  A string that holds
    [/main/html/rd/p/<digits>.<digits>.html] is mapped to the two digit
    groups of its first occurrence joined by a dot; a string that holds no
    such path is mapped to the empty string; the documented example yields
    ["123.456"]. *)
Theorem extractReleaseID_spec (s : string) :
  (forall pre a b post,
      first_occurrence s pre a b post -> extractReleaseID s = a ++ "." ++ b)
  /\ ((forall pre a b post, ~ occurs s pre a b post) -> extractReleaseID s = "")
  /\ extractReleaseID "/main/html/rd/p/123.456.html" = "123.456".
Proof.
  split; [|split; [|reflexivity]].
  - intros pre a b post Hfirst.
    destruct (extractReleaseID_cases s) as [[_ Hno] | (pre0 & a0 & b0 & post0 & Hfirst0 & Hres)].
    + now destruct (Hno _ _ _ _ (proj1 Hfirst)).
    + destruct (first_occurrence_unique _ _ _ _ _ _ _ _ _ Hfirst Hfirst0) as [-> ->].
      exact Hres.
  - intros Hno.
    destruct (extractReleaseID_cases s) as [[Hres _] | (pre0 & a0 & b0 & post0 & Hfirst0 & _)].
    + exact Hres.
    + now destruct (Hno _ _ _ _ (proj1 Hfirst0)).
Qed.

Lemma no_occurrence_of_empty (s : string) :
  extractReleaseID s = "" -> forall pre a b post, ~ occurs s pre a b post.
Proof.
  intros Hres.
  destruct (extractReleaseID_cases s) as [[_ Hno] | (pre0 & a0 & b0 & post0 & _ & Hres0)].
  - exact Hno.
  - rewrite Hres in Hres0. symmetry in Hres0. now apply joined_not_empty in Hres0.
Qed.

Lemma extractReleaseID_spec_witness :
  extractReleaseID "/main/html/rd/p/123.456.html?page=2" = "123" ++ "." ++ "456"
  /\ extractReleaseID "/news/p/123.456.html" = "".
Proof.
  split.
  - apply (proj1 (extractReleaseID_spec _) "" "123" "456" "?page=2").
    split.
    + split; [split; [discriminate | reflexivity]|].
      split; [split; [discriminate | reflexivity]|]. reflexivity.
    + intros. simpl. lia.
  - apply (proj1 (proj2 (extractReleaseID_spec _))).
    apply no_occurrence_of_empty. reflexivity.
Defined.

Lemma last_byte_append (a b : string) : b <> "" -> last_byte (a ++ b) = last_byte b.
Proof.
  intros Hb. induction a as [|c a IH]; [reflexivity|].
  simpl. rewrite IH. destruct (a ++ b) eqn:E; [|reflexivity].
  destruct a; simpl in E; [contradiction | discriminate].
Qed.

Lemma append_not_empty (a b : string) : b <> "" -> a ++ b <> "".
Proof. intros Hb. destruct a; [exact Hb | discriminate]. Qed.

(** C5 as the specification words it fails both ways.  A path of the shape
    [.../p/<numeric>.<numeric>.html] under another directory yields the
    empty string, and a path that is not of that shape, because a query
    string follows [.html], yields an identifier. *)
Lemma extractReleaseID_exact_shape_counterexample :
  (exact_shape "/news/p/123.456.html" "123" "456"
   /\ extractReleaseID "/news/p/123.456.html" <> "123" ++ "." ++ "456")
  /\ ((forall a b, ~ exact_shape "/main/html/rd/p/123.456.html?page=2" a b)
      /\ extractReleaseID "/main/html/rd/p/123.456.html?page=2" <> "").
Proof.
  split; [split|split].
  - split; [exact digit_run_123|]. split; [exact digit_run_456|].
    exists "/news". reflexivity.
  - discriminate.
  - intros a b (_ & _ & pre & H).
    apply (f_equal last_byte) in H.
    rewrite !last_byte_append in H
      by (repeat (apply append_not_empty); discriminate).
    discriminate.
  - discriminate.
Qed.

(** ** The calendar *)

Lemma all_from_spec (f : Z -> bool) (n : nat) (lo z : Z) :
  all_from n lo f = true -> lo <= z < lo + Z.of_nat n -> f z = true.
Proof.
  revert lo. induction n as [|n IH]; intros lo H Hz; [lia|].
  cbn [all_from] in H. apply andb_true_iff in H as [H0 H1].
  destruct (Z.eq_dec z lo) as [->|Hne]; [exact H0|].
  apply (IH (lo + 1)); [exact H1 | lia].
Qed.

Lemma cycle_years_ok : all_from 400 1 check_year = true.
Proof. vm_compute. reflexivity. Qed.

Lemma cycle_days_ok : all_from (Z.to_nat 146097) 0 check_cycle_day = true.
Proof. vm_compute. reflexivity. Qed.

Lemma isLeap_period (y q : Z) : time.isLeap (y + 400 * q) = time.isLeap y.
Proof.
  unfold time.isLeap.
  replace (y + 400 * q) with (y + (100 * q) * 4) at 1 by lia.
  replace (y + 400 * q) with (y + (4 * q) * 100) at 1 by lia.
  replace (y + 400 * q) with (y + q * 400) by lia.
  now rewrite !Z_mod_plus_full.
Qed.

Lemma daysSinceEpoch_period (y q : Z) :
  time.daysSinceEpoch (y + 400 * q) = time.daysSinceEpoch y + 146097 * q.
Proof.
  unfold time.daysSinceEpoch. cbv zeta.
  replace (y + 400 * q - 1) with (y - 1 + q * 400) by lia.
  rewrite Z_div_plus_full by lia.
  replace (y - 1 + q * 400 - 400 * ((y - 1) / 400 + q))
    with (y - 1 - 400 * ((y - 1) / 400)) by lia.
  lia.
Qed.

Lemma civil_days_period (y q m d : Z) :
  time.civil_days (y + 400 * q) m d = time.civil_days y m d + 146097 * q.
Proof.
  unfold time.civil_days. rewrite isLeap_period, daysSinceEpoch_period.
  destruct (time.isLeap y && (3 <=? m)); lia.
Qed.

Lemma yearDay_period (r q : Z) :
  time.yearDay (r + 146097 * q)
  = (fst (time.yearDay r) + 400 * q, snd (time.yearDay r)).
Proof.
  unfold time.yearDay. cbv zeta. cbn [fst snd].
  replace (r + 146097 * q) with (r + q * 146097) by lia.
  rewrite Z_div_plus_full by lia.
  replace (r + q * 146097 - 146097 * (r / 146097 + q))
    with (r - 146097 * (r / 146097)) by lia.
  f_equal. lia.
Qed.

Lemma absDate_period (r q : Z) :
  time.absDate (r + 146097 * q)
  = (fst (fst (time.absDate r)) + 400 * q, snd (fst (time.absDate r)), snd (time.absDate r)).
Proof.
  unfold time.absDate. rewrite yearDay_period.
  destruct (time.yearDay r) as [y yd]. cbn [fst snd].
  rewrite isLeap_period.
  now destruct (time.monthDay (time.isLeap y) yd).
Qed.

Lemma date_eqb_eq (x y : Z * Z * Z) : date_eqb x y = true -> x = y.
Proof.
  destruct x as [[a b] c], y as [[a' b'] c']. unfold date_eqb.
  rewrite !andb_true_iff, !Z.eqb_eq. now intros [[-> ->] ->].
Qed.

Lemma daysIn_le_31 (m y : Z) : 1 <= m <= 12 -> time.daysIn m y <= 31.
Proof.
  intros Hm. unfold time.daysIn.
  destruct ((m =? 2) && time.isLeap y); [lia|].
  assert (m = 1 \/ m = 2 \/ m = 3 \/ m = 4 \/ m = 5 \/ m = 6 \/ m = 7 \/ m = 8
          \/ m = 9 \/ m = 10 \/ m = 11 \/ m = 12) as H by lia.
  repeat (destruct H as [->|H]; [vm_compute; discriminate|]).
  subst. vm_compute. discriminate.
Qed.

Lemma daysIn_period (m y q : Z) : time.daysIn m (y + 400 * q) = time.daysIn m y.
Proof. unfold time.daysIn. now rewrite isLeap_period. Qed.

(** The day number of a date is the day number [absDate] maps back to it. *)
Lemma absDate_civil_days (y m d : Z) :
  valid_date y m d -> time.absDate (time.civil_days y m d) = (y, m, d).
Proof.
  intros [Hm Hd].
  set (q := (y - 1) / 400). set (y0 := (y - 1) mod 400 + 1).
  assert (Hy : y = y0 + 400 * q).
  { unfold y0, q. pose proof (Z.div_mod (y - 1) 400). lia. }
  assert (Hy0 : 1 <= y0 < 1 + Z.of_nat 400).
  { unfold y0. pose proof (Z.mod_pos_bound (y - 1) 400). lia. }
  rewrite Hy in Hd |- *. rewrite daysIn_period in Hd.
  pose proof (daysIn_le_31 m y0 Hm) as H31.
  pose proof (all_from_spec _ _ _ _ cycle_years_ok Hy0) as Hc.
  unfold check_year in Hc.
  apply (all_from_spec _ _ _ m) in Hc; [|simpl; lia].
  apply (all_from_spec _ _ _ d) in Hc; [|simpl; lia].
  unfold check_day in Hc.
  replace ((1 <=? d) && (d <=? time.daysIn m y0)) with true in Hc
    by (symmetry; apply andb_true_iff; split; apply Z.leb_le; lia).
  apply andb_true_iff in Hc as [_ Hc]. apply date_eqb_eq in Hc.
  rewrite civil_days_period, absDate_period, Hc. reflexivity.
Qed.

Lemma absDate_bounds (days : Z) :
  let '(y, m, d) := time.absDate days in
  400 * (days / 146097) + 1 <= y <= 400 * (days / 146097) + 400
  /\ 1 <= m <= 12 /\ 1 <= d <= 31.
Proof.
  set (q := days / 146097). set (r := days mod 146097).
  assert (Hd : days = r + 146097 * q).
  { unfold r, q. pose proof (Z.div_mod days 146097). lia. }
  assert (Hr : 0 <= r < 0 + Z.of_nat (Z.to_nat 146097)).
  { unfold r. pose proof (Z.mod_pos_bound days 146097). lia. }
  pose proof (all_from_spec _ _ _ _ cycle_days_ok Hr) as Hc.
  unfold check_cycle_day in Hc.
  assert (E : time.absDate days
              = (fst (fst (time.absDate r)) + 400 * q, snd (fst (time.absDate r)),
                 snd (time.absDate r))).
  { rewrite Hd at 1. apply absDate_period. }
  rewrite E. clear E.
  destruct (time.absDate r) as [[y m] d]. cbn [fst snd].
  rewrite !andb_true_iff, !Z.leb_le in Hc. lia.
Qed.

(** Every day number is the day number of the date [absDate] gives it. *)
Lemma cycle_back_ok : all_from (Z.to_nat 146097) 0 check_back = true.
Proof. vm_compute. reflexivity. Qed.

Lemma civil_days_absDate (days : Z) :
  let '(y, m, d) := time.absDate days in
  valid_date y m d /\ time.civil_days y m d = days.
Proof.
  set (q := days / 146097). set (r := days mod 146097).
  assert (Hd : days = r + 146097 * q).
  { unfold r, q. pose proof (Z.div_mod days 146097). lia. }
  assert (Hr : 0 <= r < 0 + Z.of_nat (Z.to_nat 146097)).
  { unfold r. pose proof (Z.mod_pos_bound days 146097). lia. }
  pose proof (all_from_spec _ _ _ _ cycle_back_ok Hr) as Hc.
  pose proof (all_from_spec _ _ _ _ cycle_days_ok Hr) as Hb.
  unfold check_back in Hc. unfold check_cycle_day in Hb.
  assert (E : time.absDate days
              = (fst (fst (time.absDate r)) + 400 * q, snd (fst (time.absDate r)),
                 snd (time.absDate r))).
  { rewrite Hd at 1. apply absDate_period. }
  rewrite E. clear E.
  destruct (time.absDate r) as [[y m] d]. cbn [fst snd].
  rewrite !andb_true_iff, !Z.leb_le in Hb.
  rewrite !andb_true_iff, !Z.leb_le, Z.eqb_eq in Hc.
  unfold valid_date. rewrite daysIn_period, civil_days_period. lia.
Qed.

(** ** The calendar of the specification and the calendar of package time *)

Lemma leap_year_isLeap (y : Z) : leap_year y = time.isLeap y.
Proof.
  unfold leap_year, time.isLeap.
  destruct (y mod 4 =? 0) eqn:E4, (y mod 100 =? 0) eqn:E100, (y mod 400 =? 0) eqn:E400;
    try reflexivity; exfalso;
    rewrite ?Z.eqb_eq, ?Z.eqb_neq in *; Z.div_mod_to_equations; lia.
Qed.

Lemma month_length_daysIn (y m : Z) :
  1 <= m <= 12 -> month_length y m = time.daysIn m y.
Proof.
  intros Hm. unfold month_length, time.daysIn. rewrite leap_year_isLeap.
  assert (m = 1 \/ m = 2 \/ m = 3 \/ m = 4 \/ m = 5 \/ m = 6 \/ m = 7 \/ m = 8
          \/ m = 9 \/ m = 10 \/ m = 11 \/ m = 12) as H by lia.
  repeat (destruct H as [->|H]; [destruct (time.isLeap y); reflexivity|]).
  subst. destruct (time.isLeap y); reflexivity.
Qed.

Lemma days_before_year_daysSinceEpoch (y : Z) :
  days_before_year y = time.daysSinceEpoch y.
Proof.
  unfold days_before_year, time.daysSinceEpoch. cbv zeta.
  Z.div_mod_to_equations. lia.
Qed.

Lemma days_before_month_days_before (y m : Z) :
  1 <= m <= 12 ->
  days_before_month y m
  = time.days_before (m - 1) + (if time.isLeap y && (3 <=? m) then 1 else 0).
Proof.
  intros Hm. unfold days_before_month, month_length. rewrite leap_year_isLeap.
  assert (m = 1 \/ m = 2 \/ m = 3 \/ m = 4 \/ m = 5 \/ m = 6 \/ m = 7 \/ m = 8
          \/ m = 9 \/ m = 10 \/ m = 11 \/ m = 12) as H by lia.
  repeat (destruct H as [->|H]; [destruct (time.isLeap y); reflexivity|]).
  subst. destruct (time.isLeap y); reflexivity.
Qed.

Lemma day_number_civil_days (y m d : Z) :
  1 <= m <= 12 -> day_number y m d = time.civil_days y m d.
Proof.
  intros Hm. unfold day_number, time.civil_days. cbv zeta.
  rewrite days_before_year_daysSinceEpoch, (days_before_month_days_before y m Hm).
  destruct (time.isLeap y && (3 <=? m)); lia.
Qed.

(** ** The canonical layout *)

Lemma appendInt_two_ok : all_from 100 0 (fun x => two_digits (time.appendInt x 2)) = true.
Proof. vm_compute. reflexivity. Qed.

Lemma appendInt_four_ok :
  all_from (Z.to_nat 10000) 0 (fun x => four_digits (time.appendInt x 4)) = true.
Proof. vm_compute. reflexivity. Qed.

Lemma appendInt_two (x : Z) : 0 <= x < 100 -> two_digits (time.appendInt x 2) = true.
Proof.
  intros H. apply (all_from_spec _ _ _ x appendInt_two_ok). simpl. lia.
Qed.

Lemma appendInt_four (x : Z) : 0 <= x < 10000 -> four_digits (time.appendInt x 4) = true.
Proof.
  intros H. apply (all_from_spec _ _ _ x appendInt_four_ok).
  rewrite Z2Nat.id; lia.
Qed.

Lemma canonical_layout :
  time.Layout "2006年01月02日 15:04"
  = [time.stdLongYear; time.Text "年"; time.stdZeroMonth; time.Text "月";
     time.stdZeroDay; time.Text "日 "; time.stdHour; time.Text ":";
     time.stdZeroMinute].
Proof. reflexivity. Qed.

Lemma absolute_layout :
  time.Layout "2006年1月2日 15時04分"
  = [time.stdLongYear; time.Text "年"; time.stdNumMonth; time.Text "月";
     time.stdDay; time.Text "日 "; time.stdHour; time.Text "時";
     time.stdZeroMinute; time.Text "分"].
Proof. reflexivity. Qed.

Lemma Format_canonical (t : time.Time) (y m d : Z) :
  time.date t = (y, m, d) ->
  time.Format t "2006年01月02日 15:04"
  = canonical_text y m d (time.hour t) (time.minute t).
Proof.
  intros Hd. unfold time.Format. rewrite canonical_layout.
  unfold canonical_text, time.format_chunk. rewrite Hd.
  reflexivity.
Qed.

Lemma eat_four (a r : string) : four_digits a = true -> eat_digits 4 (a ++ r) = Some r.
Proof.
  destruct a as [|c1 [|c2 [|c3 [|c4 [|c5 a]]]]]; try discriminate.
  cbn [four_digits append eat_digits]. rewrite !andb_true_iff.
  now intros [[[-> ->] ->] ->].
Qed.

Lemma eat_two (a r : string) : two_digits a = true -> eat_digits 2 (a ++ r) = Some r.
Proof.
  destruct a as [|c1 [|c2 [|c3 a]]]; try discriminate.
  cbn [two_digits append eat_digits]. rewrite !andb_true_iff.
  now intros [-> ->].
Qed.

Lemma canonical_text_shape (y m d h mi : Z) :
  0 <= y < 10000 -> 0 <= m < 100 -> 0 <= d < 100 -> 0 <= h < 100 -> 0 <= mi < 100 ->
  is_canonical (canonical_text y m d h mi) = true.
Proof.
  intros Hy Hm Hd Hh Hmi. unfold is_canonical, canonical_text.
  rewrite (eat_four _ _ (appendInt_four y Hy)). cbn [and_then].
  rewrite cut_prefix_append. cbn [and_then].
  rewrite (eat_two _ _ (appendInt_two m Hm)). cbn [and_then].
  rewrite cut_prefix_append. cbn [and_then].
  rewrite (eat_two _ _ (appendInt_two d Hd)). cbn [and_then].
  rewrite cut_prefix_append. cbn [and_then].
  rewrite (eat_two _ _ (appendInt_two h Hh)). cbn [and_then].
  rewrite cut_prefix_append. cbn [and_then].
  rewrite <- (append_nil_r (time.appendInt mi 2)).
  now rewrite (eat_two _ _ (appendInt_two mi Hmi)).
Qed.

Lemma hour_bounds (t : time.Time) : 0 <= time.hour t < 24.
Proof.
  unfold time.hour. pose proof (Z.mod_pos_bound (time.abs t) 86400 ltac:(lia)).
  split; [apply Z.div_pos; lia | apply Z.div_lt_upper_bound; lia].
Qed.

Lemma minute_bounds (t : time.Time) : 0 <= time.minute t < 60.
Proof.
  unfold time.minute. pose proof (Z.mod_pos_bound (time.abs t) 3600 ltac:(lia)).
  split; [apply Z.div_pos; lia | apply Z.div_lt_upper_bound; lia].
Qed.

Lemma Format_shape (t : time.Time) :
  abs_in_range t -> is_canonical (time.Format t "2006年01月02日 15:04") = true.
Proof.
  intros [Hlo Hhi].
  destruct (time.date t) as [[y m] d] eqn:Hd.
  rewrite (Format_canonical t y m d Hd).
  pose proof (absDate_bounds (time.abs t / 86400)) as Hb.
  unfold time.date in Hd. rewrite Hd in Hb.
  assert (0 <= time.abs t / 86400 < 146097 * 24) as Hdays.
  { split; [apply Z.div_pos; lia | apply Z.div_lt_upper_bound; lia]. }
  assert (0 <= time.abs t / 86400 / 146097 < 24) as Hq.
  { split; [apply Z.div_pos; lia | apply Z.div_lt_upper_bound; lia]. }
  pose proof (hour_bounds t). pose proof (minute_bounds t).
  apply canonical_text_shape; lia.
Qed.

(** ** Times near the clock *)

Lemma wrap64_range (z : Z) : - 2 ^ 63 <= wrap64 z < 2 ^ 63.
Proof.
  unfold wrap64. pose proof (Z.mod_pos_bound (z + 2 ^ 63) (2 ^ 64) ltac:(lia)). lia.
Qed.

Lemma wrap64_small (z : Z) : - 2 ^ 63 <= z < 2 ^ 63 -> wrap64 z = z.
Proof.
  intros H. unfold wrap64. rewrite Z.mod_small; lia.
Qed.

Lemma Add_loc (t : time.Time) (d : Z) : time.loc (time.Add t d) = time.loc t.
Proof.
  unfold time.Add.
  destruct (1000000000 <=? time.nsec t + Z.rem d 1000000000); [reflexivity|].
  destruct (time.nsec t + Z.rem d 1000000000 <? 0); reflexivity.
Qed.

Lemma Add_unix_sec (t : time.Time) (d : Z) :
  - 2 ^ 63 <= d < 2 ^ 63 ->
  time.unix_sec t - 9223372038 <= time.unix_sec (time.Add t d)
  <= time.unix_sec t + 9223372038.
Proof.
  intros Hd.
  pose proof (Z.quot_rem' d 1000000000) as Hq.
  pose proof (Z.rem_bound_abs d 1000000000 ltac:(lia)) as Hr.
  unfold time.Add.
  destruct (1000000000 <=? time.nsec t + Z.rem d 1000000000);
    [|destruct (time.nsec t + Z.rem d 1000000000 <? 0)];
    cbn [time.unix_sec]; lia.
Qed.

(** In whole seconds: adding a duration of whole seconds to a time whose
    nanoseconds are in range moves the seconds and nothing else. *)
Lemma Add_seconds (t : time.Time) (k : Z) :
  0 <= time.nsec t < 1000000000 ->
  time.Add t (k * time.Second)
  = time.mkTime (time.unix_sec t + k) (time.nsec t) (time.loc t).
Proof.
  intros Hn. unfold time.Add, time.Second.
  rewrite Z.rem_mul by lia. rewrite Z.quot_mul by lia. rewrite Z.add_0_r.
  destruct (1000000000 <=? time.nsec t) eqn:E1; [apply Z.leb_le in E1; lia|].
  destruct (time.nsec t <? 0) eqn:E2; [apply Z.ltb_lt in E2; lia|].
  reflexivity.
Qed.

Lemma clock_bounds :
  time.unix_sec (time.Date 1000 1 1 0 0) = -30610224000
  /\ time.unix_sec (time.Date 9000 1 1 0 0) = 221845392000.
Proof. split; reflexivity. Qed.

Lemma now_in_range (now : time.Time) : clock_in_range now -> abs_in_range now.
Proof.
  intros (Hlo & Hhi & Hz). destruct clock_bounds as [E1 E2]. rewrite E1 in Hlo. rewrite E2 in Hhi.
  unfold abs_in_range, time.abs, time.unixToInternal.
  specialize (Hz (time.unix_sec now)). lia.
Qed.

Lemma Add_in_range (now : time.Time) (d : Z) :
  clock_in_range now -> - 2 ^ 63 <= d < 2 ^ 63 -> abs_in_range (time.Add now d).
Proof.
  intros (Hlo & Hhi & Hz) Hd. destruct clock_bounds as [E1 E2]. rewrite E1 in Hlo. rewrite E2 in Hhi.
  pose proof (Add_unix_sec now d Hd) as Hs.
  unfold abs_in_range, time.abs, time.unixToInternal. rewrite Add_loc.
  specialize (Hz (time.unix_sec (time.Add now d))). lia.
Qed.

Lemma ago_range (n unit : Z) : - 2 ^ 63 <= time.ago n unit < 2 ^ 63.
Proof. apply wrap64_range. Qed.

(** ** Parsed times *)

Lemma digit_val_bounds (c : ascii) : is_digit c = true -> 0 <= digit_val c <= 9.
Proof.
  unfold is_digit, digit_val. rewrite andb_true_iff, !Nat.leb_le. lia.
Qed.

Lemma getnum_bounds (s : string) (fixed : bool) (v : Z) (r : string) :
  time.getnum s fixed = Some (v, r) -> 0 <= v <= 99.
Proof.
  unfold time.getnum. destruct s as [|a s]; [discriminate|].
  destruct (is_digit a) eqn:Ha; [|discriminate].
  pose proof (digit_val_bounds a Ha).
  destruct s as [|b s].
  - destruct fixed; [discriminate|]. intros E. injection E as <- _. lia.
  - destruct (is_digit b) eqn:Hb.
    + pose proof (digit_val_bounds b Hb). intros E. injection E as <- _. lia.
    + destruct fixed; [discriminate|]. intros E. injection E as <- _. lia.
Qed.

Lemma date_of_Date (y m d h mi : Z) :
  valid_date y m d -> 0 <= h < 24 -> 0 <= mi < 60 ->
  time.date (time.Date y m d h mi) = (y, m, d)
  /\ time.hour (time.Date y m d h mi) = h
  /\ time.minute (time.Date y m d h mi) = mi.
Proof.
  intros Hv Hh Hmi.
  assert (Habs : time.abs (time.Date y m d h mi)
                 = time.civil_days y m d * 86400 + (h * 3600 + mi * 60)).
  { unfold time.abs, time.Date, time.UTC. cbn [time.unix_sec time.loc]. lia. }
  unfold time.date, time.hour, time.minute. rewrite Habs.
  assert (Hdiv : (time.civil_days y m d * 86400 + (h * 3600 + mi * 60)) / 86400
                 = time.civil_days y m d).
  { rewrite Z.add_comm, Z_div_plus_full by lia. rewrite Z.div_small; lia. }
  assert (Hmod : (time.civil_days y m d * 86400 + (h * 3600 + mi * 60)) mod 86400
                 = h * 3600 + mi * 60).
  { rewrite Z.add_comm, Z_mod_plus_full. apply Z.mod_small. lia. }
  rewrite Hdiv, Hmod. split; [now apply absDate_civil_days|]. split.
  - rewrite Z.add_comm, Z_div_plus_full by lia. rewrite Z.div_small; lia.
  - replace (time.civil_days y m d * 86400 + (h * 3600 + mi * 60))
      with (mi * 60 + (time.civil_days y m d * 24 + h) * 3600) by lia.
    rewrite Z_mod_plus_full, Z.mod_small by lia.
    rewrite Z.div_mul; lia.
Qed.

(** What [Parse] accepts for the absolute layout is a date of the calendar
    with a four-digit year and a time of the day. *)
Lemma Parse_absolute_valid (s : string) (t : time.Time) :
  time.Parse "2006年1月2日 15時04分" s = Ok t ->
  exists y m d h mi,
    t = time.Date y m d h mi
    /\ 0 <= y < 10000 /\ valid_date y m d /\ 0 <= h < 24 /\ 0 <= mi < 60.
Proof.
  unfold time.Parse. rewrite absolute_layout.
  destruct (time.parse_chunks _ _ s) as [f|] eqn:Hp; [|discriminate].
  cbn [time.parse_chunks] in Hp.
  destruct s as [|c1 [|c2 [|c3 [|c4 s]]]]; try discriminate.
  destruct (all_digits (String c1 (String c2 (String c3 (String c4 ""))))) eqn:Hall;
    [|discriminate].
  cbn [all_digits] in Hall. rewrite !andb_true_iff in Hall.
  destruct Hall as (H1 & H2 & H3 & H4 & _).
  cbn [strconv.digits_value] in Hp. rewrite H1, H2, H3, H4 in Hp.
  apply digit_val_bounds in H1, H2, H3, H4.
  set (year := 10 * (10 * (10 * (10 * 0 + digit_val c1) + digit_val c2) + digit_val c3)
               + digit_val c4) in Hp.
  assert (Hyear : 0 <= year < 10000) by (unfold year; lia).
  clearbody year.
  destruct (time.skip false s "年") as [s1|]; [|discriminate].
  destruct (time.getnum s1 false) as [[month s2]|] eqn:Hmonth; [|discriminate].
  destruct ((month <=? 0) || (12 <? month)) eqn:Hmr; [discriminate|].
  apply orb_false_iff in Hmr as [Hm1 Hm2]. apply Z.leb_gt in Hm1. apply Z.ltb_ge in Hm2.
  destruct (time.skip false s2 "月") as [s3|]; [|discriminate].
  destruct (time.getnum s3 false) as [[day s4]|] eqn:Hday; [|discriminate].
  destruct (time.skip false s4 "日 ") as [s5|]; [|discriminate].
  destruct (time.getnum s5 false) as [[hour s6]|] eqn:Hhour; [|discriminate].
  destruct ((hour <? 0) || (24 <=? hour)) eqn:Hhr; [discriminate|].
  apply orb_false_iff in Hhr as [Hh1 Hh2]. apply Z.ltb_ge in Hh1. apply Z.leb_gt in Hh2.
  destruct (time.skip false s6 "時") as [s7|]; [|discriminate].
  destruct (time.getnum s7 true) as [[min s8]|] eqn:Hmin; [|discriminate].
  destruct ((min <? 0) || (60 <=? min)) eqn:Hminr; [discriminate|].
  apply orb_false_iff in Hminr as [Hn1 Hn2]. apply Z.ltb_ge in Hn1. apply Z.leb_gt in Hn2.
  destruct (time.skip false s8 "分") as [s9|]; [|discriminate].
  destruct s9; [|discriminate].
  injection Hp as <-. cbn [time.f_year time.f_month time.f_day time.f_hour time.f_min].
  destruct (month <? 0) eqn:Hm0; [apply Z.ltb_lt in Hm0; lia|].
  destruct (day <? 0) eqn:Hd0.
  { apply getnum_bounds in Hday. apply Z.ltb_lt in Hd0. lia. }
  destruct ((day <? 1) || (time.daysIn month year <? day)) eqn:Hdr; [discriminate|].
  apply orb_false_iff in Hdr as [Hd1 Hd2]. apply Z.ltb_ge in Hd1, Hd2.
  intros H. injection H as <-.
  exists year, month, day, hour, min. repeat split; lia.
Qed.

Lemma Format_parsed (s : string) (t : time.Time) :
  time.Parse "2006年1月2日 15時04分" s = Ok t ->
  is_canonical (time.Format t "2006年01月02日 15:04") = true.
Proof.
  intros H. destruct (Parse_absolute_valid s t H) as (y & m & d & h & mi & -> & Hy & Hv & Hh & Hmi).
  destruct (date_of_Date y m d h mi Hv Hh Hmi) as (Hd & Hh' & Hm').
  rewrite (Format_canonical _ y m d Hd), Hh', Hm'.
  pose proof (daysIn_le_31 m y (proj1 Hv)). destruct Hv as [Hm1 Hd1].
  apply canonical_text_shape; lia.
Qed.

(** ** The canonical form of the specification *)

Lemma two_form_ok :
  all_from 100 0 (fun v => String.eqb (time.appendInt v 2) (two v)) = true.
Proof. vm_compute. reflexivity. Qed.

Lemma four_form_ok :
  all_from (Z.to_nat 10000) 0 (fun v => String.eqb (time.appendInt v 4) (four v)) = true.
Proof. vm_compute. reflexivity. Qed.

Lemma canonical_text_form (y m d h mi : Z) :
  0 <= y < 10000 -> 0 <= m < 100 -> 0 <= d < 100 -> 0 <= h < 100 -> 0 <= mi < 100 ->
  canonical_text y m d h mi = canonical_form y m d h mi.
Proof.
  intros Hy Hm Hd Hh Hmi. unfold canonical_text, canonical_form.
  assert (H2 : forall v, 0 <= v < 100 -> time.appendInt v 2 = two v).
  { intros v Hv. apply String.eqb_eq.
    apply (all_from_spec _ _ _ v two_form_ok). simpl. lia. }
  assert (H4 : time.appendInt y 4 = four y).
  { apply String.eqb_eq. apply (all_from_spec _ _ _ y four_form_ok).
    rewrite Z2Nat.id; lia. }
  now rewrite H4, !H2.
Qed.

Lemma abs_wall (t : time.Time) :
  time.abs t = wall_seconds t + day_number 1970 1 1 * 86400.
Proof. reflexivity. Qed.

Lemma abs_parts (t : time.Time) :
  time.abs t / 86400 = wall_seconds t / 86400 + day_number 1970 1 1
  /\ time.abs t mod 86400 = wall_seconds t mod 86400
  /\ time.abs t mod 3600 = wall_seconds t mod 3600.
Proof.
  rewrite abs_wall. split; [apply Z.div_add; lia|]. split; [apply Z.mod_add; lia|].
  replace (day_number 1970 1 1 * 86400) with (day_number 1970 1 1 * 24 * 3600) by lia.
  apply Z.mod_add. lia.
Qed.

(** What the wall clock shows is what package time reads off the time. *)
Lemma shows_date (t : time.Time) (y m d h mi : Z) :
  shows t y m d h mi ->
  time.date t = (y, m, d) /\ time.hour t = h /\ time.minute t = mi.
Proof.
  intros (Hm & Hd & Hday & -> & ->).
  destruct (abs_parts t) as (E1 & E2 & E3).
  assert (Hv : valid_date y m d).
  { split; [exact Hm|]. now rewrite <- month_length_daysIn. }
  assert (E : time.abs t / 86400 = time.civil_days y m d).
  { rewrite E1, <- Hday, (day_number_civil_days y m d Hm). lia. }
  unfold time.date, time.hour, time.minute.
  rewrite E, E2, E3, (absDate_civil_days y m d Hv). now repeat split.
Qed.

Lemma date_shows (t : time.Time) :
  exists y m d, time.date t = (y, m, d) /\ shows t y m d (time.hour t) (time.minute t).
Proof.
  pose proof (civil_days_absDate (time.abs t / 86400)) as H.
  destruct (abs_parts t) as (E1 & E2 & E3).
  unfold time.date, time.hour, time.minute. rewrite E2, E3.
  destruct (time.absDate (time.abs t / 86400)) as [[y m] d].
  destruct H as [[Hm Hd] Hc]. exists y, m, d. split; [reflexivity|].
  unfold shows. split; [exact Hm|]. split; [now rewrite month_length_daysIn|].
  split; [|now split].
  rewrite (day_number_civil_days y m d Hm), Hc, E1. lia.
Qed.

(** The text that [Format] writes for the canonical layout is the
    canonical form of what the wall clock of the time shows. *)
Lemma renders_Format (t : time.Time) :
  0 <= fst (fst (time.date t)) < 10000 ->
  renders (time.Format t "2006年01月02日 15:04") t.
Proof.
  intros Hy. split.
  - destruct (date_shows t) as (y & m & d & _ & Hs). now exists y, m, d, (time.hour t), (time.minute t).
  - intros y m d h mi Hs.
    destruct (shows_date t y m d h mi Hs) as (Hdate & Hh & Hmi).
    rewrite Hdate in Hy. cbn [fst] in Hy.
    rewrite (Format_canonical t y m d Hdate), Hh, Hmi.
    pose proof (hour_bounds t). pose proof (minute_bounds t).
    destruct Hs as (Hm & Hd & _).
    assert (month_length y m <= 31).
    { unfold month_length. destruct (m =? 2); [destruct (leap_year y); lia|].
      destruct ((m =? 4) || (m =? 6) || (m =? 9) || (m =? 11)); lia. }
    apply canonical_text_form; lia.
Qed.

Lemma renders_in_range (t : time.Time) :
  abs_in_range t -> renders (time.Format t "2006年01月02日 15:04") t.
Proof.
  intros [Hlo Hhi]. apply renders_Format.
  pose proof (absDate_bounds (time.abs t / 86400)) as Hb.
  unfold time.date. destruct (time.absDate (time.abs t / 86400)) as [[y m] d].
  cbn [fst].
  assert (0 <= time.abs t / 86400 < 146097 * 24) as Hdays.
  { split; [apply Z.div_pos; lia | apply Z.div_lt_upper_bound; lia]. }
  assert (0 <= time.abs t / 86400 / 146097 < 24) as Hq.
  { split; [apply Z.div_pos; lia | apply Z.div_lt_upper_bound; lia]. }
  lia.
Qed.

Lemma renders_parsed (s : string) (t : time.Time) :
  time.Parse "2006年1月2日 15時04分" s = Ok t ->
  renders (time.Format t "2006年01月02日 15:04") t.
Proof.
  intros H. destruct (Parse_absolute_valid s t H) as (y & m & d & h & mi & -> & Hy & Hv & Hh & Hmi).
  apply renders_Format.
  destruct (date_of_Date y m d h mi Hv Hh Hmi) as (Hd & _). rewrite Hd. exact Hy.
Qed.

(** ** The relative patterns *)

Section Relative.

Variable marker : string.
Hypothesis marker_not_empty : marker <> "".
Hypothesis marker_ends_run : ends_run marker.

Let re : regexp.Regexp := [regexp.Digits; regexp.Lit marker].

Lemma marker_append_ends_run (post : string) : ends_run (marker ++ post).
Proof using marker_not_empty marker_ends_run.
  destruct marker; [contradiction | exact marker_ends_run].
Qed.

Lemma match_relative (n post : string) :
  digit_run n -> regexp.match_here re (n ++ marker ++ post) = Some ([n], post).
Proof using marker_not_empty marker_ends_run.
  intros [Hn0 Hn]. unfold re. cbn [regexp.match_here].
  rewrite (span_digits_append n _ Hn (marker_append_ends_run post)).
  destruct n; [contradiction|]. now rewrite cut_prefix_append.
Qed.

Lemma match_relative_inv (s rest : string) (caps : list string) :
  regexp.match_here re s = Some (caps, rest) ->
  exists n, caps = [n] /\ digit_run n /\ s = n ++ marker ++ rest.
Proof.
  unfold re. cbn [regexp.match_here]. intros H.
  destruct (span_digits s) as [n r] eqn:Hs.
  destruct n as [|c n]; [discriminate|].
  destruct (cut_prefix marker r) as [r'|] eqn:Hc; [|discriminate].
  injection H as <- <-.
  apply span_digits_inv in Hs as (-> & Hn & _). apply cut_prefix_inv in Hc as ->.
  exists (String c n). repeat split; try discriminate; trivial.
Qed.

Lemma relative_cases (s : string) :
  (regexp.FindStringSubmatch re s = [] /\ no_relative marker s)
  \/ (exists pre n post whole,
        first_relative marker s pre n post
        /\ regexp.FindStringSubmatch re s = [whole; n]).
Proof using marker_not_empty marker_ends_run.
  destruct (FindStringSubmatch_cases re s)
    as [[Hnil Hnone] | (pre & t & caps & rest & Hs & Ht & Hfirst & whole & Hres)].
  - left. split; [exact Hnil|].
    intros pre n post [Hn Hs]. specialize (Hnone pre _ Hs).
    rewrite match_relative in Hnone by assumption. discriminate.
  - right. destruct (match_relative_inv _ _ _ Ht) as (n & -> & Hn & ->).
    exists pre, n, rest, whole. split; [|exact Hres].
    split; [split; assumption|].
    intros pre' n' post' [Hn' Hs'].
    destruct (Nat.le_gt_cases (String.length pre) (String.length pre')) as [|Hlt];
      [assumption|].
    exfalso. rewrite Hs in Hs'. symmetry in Hs'.
    destruct (append_split _ _ _ _ Hs') as (m & Hpre & Hm); [lia|].
    assert (Hm0 : m <> "").
    { intros ->. rewrite Hpre, append_nil_r in Hlt. lia. }
    specialize (Hfirst pre' m Hpre Hm0). rewrite <- Hm in Hfirst.
    rewrite match_relative in Hfirst by assumption. discriminate.
Qed.

Lemma first_relative_unique (s pre n post pre0 n0 post0 : string) :
  first_relative marker s pre n post -> first_relative marker s pre0 n0 post0 -> n = n0.
Proof using marker_not_empty marker_ends_run.
  intros [Hocc Hmin] [Hocc0 Hmin0].
  pose proof (Hmin _ _ _ Hocc0) as Hle.
  pose proof (Hmin0 _ _ _ Hocc) as Hge.
  destruct Hocc as (Hn & Hs), Hocc0 as (Hn0 & Hs0).
  rewrite Hs in Hs0.
  destruct (append_split _ _ _ _ Hs0 Hle) as (m & Hpre & Hm).
  assert (m = "") as ->.
  { destruct m; [reflexivity|]. rewrite Hpre, length_append in Hge. simpl in Hge. lia. }
  pose proof (match_relative n post Hn) as H1.
  rewrite Hm in H1.
  change ("" ++ n0 ++ marker ++ post0) with (n0 ++ marker ++ post0) in H1.
  rewrite (match_relative n0 post0 Hn0) in H1.
  now injection H1 as ->.
Qed.

Lemma attempt_spec (s : string) :
  match attempt marker s with
  | Some k => relative_form marker s k
  | None => forall k, ~ relative_form marker s k
  end.
Proof using marker_not_empty marker_ends_run.
  unfold attempt. fold re.
  destruct (relative_cases s) as [[-> Hno] | (pre & n & post & whole & Hfirst & ->)].
  - intros k (pre & n & post & [Hocc _] & _). exact (Hno _ _ _ Hocc).
  - destruct (strconv.Atoi n) as [k|e] eqn:Hk.
    + exists pre, n, post. now split.
    + intros k (pre' & n' & post' & Hfirst' & Hk').
      rewrite (first_relative_unique _ _ _ _ _ _ _ Hfirst Hfirst') in Hk. congruence.
Qed.

End Relative.

Lemma hours_marker : "時間前" <> "" /\ ends_run "時間前".
Proof. split; [discriminate | reflexivity]. Qed.

Lemma minutes_marker : "分前" <> "" /\ ends_run "分前".
Proof. split; [discriminate | reflexivity]. Qed.

(** The normalizer as a chain of the four forms. *)
Lemma parseReleaseDate_chain (now : time.Time) (s : string) :
  parseReleaseDate now s =
  match attempt "時間前" s with
  | Some h => time.Format (time.Add now (time.ago h time.Hour)) "2006年01月02日 15:04"
  | None =>
      match attempt "分前" s with
      | Some m => time.Format (time.Add now (time.ago m time.Minute)) "2006年01月02日 15:04"
      | None =>
          match time.Parse "2006年1月2日 15時04分" s with
          | Ok t => time.Format t "2006年01月02日 15:04"
          | Err _ => time.Format now "2006年01月02日 15:04"
          end
      end
  end.
Proof.
  unfold parseReleaseDate, attempt, reHours, reMinutes.
  destruct (regexp.FindStringSubmatch [regexp.Digits; regexp.Lit "時間前"] s)
    as [|w [|h [|x l]]];
    destruct (regexp.FindStringSubmatch [regexp.Digits; regexp.Lit "分前"] s)
    as [|w' [|m [|x' l']]];
    try destruct (strconv.Atoi h); try destruct (strconv.Atoi m); reflexivity.
Qed.

Lemma parseReleaseDate_shape (now : time.Time) (s : string) :
  clock_in_range now -> is_canonical (parseReleaseDate now s) = true.
Proof.
  intros Hclock. rewrite parseReleaseDate_chain.
  destruct (attempt "時間前" s) as [h|].
  { apply Format_shape, Add_in_range; [assumption | apply ago_range]. }
  destruct (attempt "分前" s) as [m|].
  { apply Format_shape, Add_in_range; [assumption | apply ago_range]. }
  destruct (time.Parse "2006年1月2日 15時04分" s) as [t|e] eqn:Hp.
  - exact (Format_parsed s t Hp).
  - apply Format_shape, now_in_range, Hclock.
Qed.

Lemma attempt_some (marker s : string) (k : Z) :
  marker <> "" -> ends_run marker -> relative_form marker s k -> attempt marker s = Some k.
Proof.
  intros H1 H2 (pre & n & post & Hfirst & Hk).
  pose proof (attempt_spec marker H1 H2 s) as Hs.
  destruct (attempt marker s) as [k'|].
  - destruct Hs as (pre' & n' & post' & Hfirst' & Hk').
    rewrite (first_relative_unique marker H1 H2 _ _ _ _ _ _ _ Hfirst Hfirst') in Hk.
    congruence.
  - destruct (Hs k). exists pre, n, post. now split.
Qed.

Lemma attempt_none (marker s : string) :
  marker <> "" -> ends_run marker ->
  (forall k, ~ relative_form marker s k) -> attempt marker s = None.
Proof.
  intros H1 H2 Hno. pose proof (attempt_spec marker H1 H2 s) as Hs.
  destruct (attempt marker s) as [k|]; [now destruct (Hno k) | reflexivity].
Qed.

Lemma digit_not_sign (c : ascii) :
  is_digit c = true -> Ascii.eqb c "-" = false /\ Ascii.eqb c "+" = false.
Proof.
  intros H. split.
  - destruct (Ascii.eqb_spec c "-") as [->|]; [discriminate H | reflexivity].
  - destruct (Ascii.eqb_spec c "+") as [->|]; [discriminate H | reflexivity].
Qed.

Lemma digits_value_nonneg (s : string) (acc v : Z) :
  0 <= acc -> strconv.digits_value acc s = Some v -> 0 <= v.
Proof.
  revert acc. induction s as [|c s IH]; intros acc Hacc H; cbn [strconv.digits_value] in H.
  - injection H as <-. exact Hacc.
  - destruct (is_digit c) eqn:Hc; [|discriminate].
    pose proof (digit_val_bounds c Hc). apply (IH (10 * acc + digit_val c)); [lia | exact H].
Qed.

Lemma Atoi_digit_run (n : string) (k : Z) :
  digit_run n -> strconv.Atoi n = Ok k -> 0 <= k.
Proof.
  intros [Hne Hall]. destruct n as [|c n]; [congruence|].
  pose proof Hall as Hc. cbn [all_digits] in Hc. apply andb_true_iff in Hc as [Hc _].
  destruct (digit_not_sign c Hc) as [Hm Hp].
  unfold strconv.Atoi. rewrite Hm, Hp. cbn [orb].
  destruct (strconv.digits_value 0 (String c n)) as [un|] eqn:Hv; [|discriminate].
  destruct ((min_int64 <=? un) && (un <=? max_int64)); [|discriminate].
  intros E. injection E as <-. apply (digits_value_nonneg _ 0 _ ltac:(lia) Hv).
Qed.

Lemma Add_ago (now : time.Time) (k unit : Z) :
  0 <= time.nsec now < 1000000000 ->
  0 <= k -> 0 < unit -> k * (unit * time.Second) < 2 ^ 63 ->
  time.Add now (time.ago k (unit * time.Second)) = seconds_before now (k * unit).
Proof.
  intros Hns Hk Hu Hb. unfold time.ago, time.Second in *.
  assert (Hk' : k < 2 ^ 63) by nia.
  rewrite (wrap64_small (- k)) by lia.
  rewrite wrap64_small by nia.
  replace (- k * (unit * 1000000000)) with (- (k * unit) * time.Second)
    by (unfold time.Second; ring).
  rewrite Add_seconds by assumption. reflexivity.
Qed.

(** C3.  With the clock between the years 1000 and 9000, the Date
    Normalizer returns a string of the shape [YYYY年MM月DD日 HH:MM] for
    every input: zero-padded, the canonical form of what the wall clock
    of the location shows at some instant.  It reads the input as the
    relative-hours form first, then as the relative-minutes form, then as
    the absolute form, and falls back to the current time.  The instant
    of a relative form is the clock moved back by the duration, which is
    that many hours or minutes when the duration does not overflow.
    ["3時間前"] gives the canonical form of the clock moved back by three
    hours, ["45分前"] by 45 minutes, ["2024年12月3日 09時00分"] gives
    ["2024年12月03日 09:00"], and ["unknown"] gives the canonical form of
    the clock itself. *)
Theorem parseReleaseDate_canonical (now : time.Time) :
  clock_in_range now ->
  0 <= time.nsec now < 1000000000 ->
  (forall s, is_canonical (parseReleaseDate now s) = true)
  /\ (forall s, exists t, renders (parseReleaseDate now s) t)
  /\ (forall s h,
        relative_form "時間前" s h ->
        renders (parseReleaseDate now s) (time.Add now (time.ago h time.Hour))
        /\ 0 <= h
        /\ (h <= 2562047 ->
            renders (parseReleaseDate now s) (seconds_before now (h * 3600))))
  /\ (forall s m,
        (forall h, ~ relative_form "時間前" s h) ->
        relative_form "分前" s m ->
        renders (parseReleaseDate now s) (time.Add now (time.ago m time.Minute))
        /\ 0 <= m
        /\ (m <= 153722867 ->
            renders (parseReleaseDate now s) (seconds_before now (m * 60))))
  /\ (forall s t,
        (forall h, ~ relative_form "時間前" s h) ->
        (forall m, ~ relative_form "分前" s m) ->
        time.Parse "2006年1月2日 15時04分" s = Ok t ->
        renders (parseReleaseDate now s) t)
  /\ (forall s e,
        (forall h, ~ relative_form "時間前" s h) ->
        (forall m, ~ relative_form "分前" s m) ->
        time.Parse "2006年1月2日 15時04分" s = Err e ->
        renders (parseReleaseDate now s) now)
  /\ renders (parseReleaseDate now "3時間前") (seconds_before now (3 * 3600))
  /\ renders (parseReleaseDate now "45分前") (seconds_before now (45 * 60))
  /\ parseReleaseDate now "2024年12月3日 09時00分" = "2024年12月03日 09:00"
  /\ renders (parseReleaseDate now "unknown") now.
Proof.
  intros Hclock Hns.
  destruct hours_marker as [Hh1 Hh2]. destruct minutes_marker as [Hm1 Hm2].
  assert (Hago : forall k unit,
             renders (time.Format (time.Add now (time.ago k unit)) "2006年01月02日 15:04")
               (time.Add now (time.ago k unit))).
  { intros k unit. apply renders_in_range, Add_in_range; [assumption | apply ago_range]. }
  assert (Hnow : renders (time.Format now "2006年01月02日 15:04") now).
  { apply renders_in_range, now_in_range, Hclock. }
  assert (Hback : forall k unit,
             0 <= k -> 0 < unit -> k * (unit * time.Second) < 2 ^ 63 ->
             renders (time.Format (time.Add now (time.ago k (unit * time.Second)))
                        "2006年01月02日 15:04")
               (seconds_before now (k * unit))).
  { intros k unit Hk Hu Hb. rewrite <- (Add_ago now k unit Hns Hk Hu Hb). apply Hago. }
  assert (Hnonneg : forall marker s k, relative_form marker s k -> 0 <= k).
  { intros marker s k (pre & n & post & ((Hn & _) & _) & Hatoi).
    exact (Atoi_digit_run n k Hn Hatoi). }
  split; [intros s; now apply parseReleaseDate_shape|].
  split.
  { intros s. rewrite parseReleaseDate_chain.
    destruct (attempt "時間前" s) as [h|]; [eexists; apply Hago|].
    destruct (attempt "分前" s) as [m|]; [eexists; apply Hago|].
    destruct (time.Parse "2006年1月2日 15時04分" s) as [t|e] eqn:Hp.
    - exists t. exact (renders_parsed s t Hp).
    - exists now. exact Hnow. }
  split.
  { intros s h Hf. pose proof (Hnonneg _ _ _ Hf) as H0.
    rewrite parseReleaseDate_chain, (attempt_some _ _ _ Hh1 Hh2 Hf).
    split; [apply Hago|]. split; [exact H0|]. intros Hmax.
    change time.Hour with (3600 * time.Second).
    apply Hback; [assumption | lia | unfold time.Second; lia]. }
  split.
  { intros s m Hno Hf. pose proof (Hnonneg _ _ _ Hf) as H0.
    rewrite parseReleaseDate_chain, (attempt_none _ _ Hh1 Hh2 Hno),
      (attempt_some _ _ _ Hm1 Hm2 Hf).
    split; [apply Hago|]. split; [exact H0|]. intros Hmax.
    change time.Minute with (60 * time.Second).
    apply Hback; [assumption | lia | unfold time.Second; lia]. }
  split.
  { intros s t Hno1 Hno2 Hp. rewrite parseReleaseDate_chain.
    rewrite (attempt_none _ _ Hh1 Hh2 Hno1), (attempt_none _ _ Hm1 Hm2 Hno2), Hp.
    exact (renders_parsed s t Hp). }
  split.
  { intros s e Hno1 Hno2 Hp. rewrite parseReleaseDate_chain.
    rewrite (attempt_none _ _ Hh1 Hh2 Hno1), (attempt_none _ _ Hm1 Hm2 Hno2), Hp.
    exact Hnow. }
  split.
  { rewrite parseReleaseDate_chain.
    replace (attempt "時間前" "3時間前") with (Some 3) by reflexivity.
    change time.Hour with (3600 * time.Second).
    apply Hback; [lia | lia | unfold time.Second; lia]. }
  split.
  { rewrite parseReleaseDate_chain.
    replace (attempt "時間前" "45分前") with (@None Z) by reflexivity.
    replace (attempt "分前" "45分前") with (Some 45) by reflexivity.
    change time.Minute with (60 * time.Second).
    apply Hback; [lia | lia | unfold time.Second; lia]. }
  split.
  { rewrite parseReleaseDate_chain.
    replace (attempt "時間前" "2024年12月3日 09時00分") with (@None Z) by reflexivity.
    replace (attempt "分前" "2024年12月3日 09時00分") with (@None Z) by reflexivity.
    reflexivity. }
  rewrite parseReleaseDate_chain.
  replace (attempt "時間前" "unknown") with (@None Z) by reflexivity.
  replace (attempt "分前" "unknown") with (@None Z) by reflexivity.
  exact Hnow.
Qed.

Lemma parseReleaseDate_canonical_witness :
  parseReleaseDate Demo.noon "3時間前" = "2024年12月14日 09:34"
  /\ parseReleaseDate Demo.noon "45分前" = "2024年12月14日 11:49"
  /\ parseReleaseDate Demo.noon "2024年12月3日 09時00分" = "2024年12月03日 09:00"
  /\ parseReleaseDate Demo.noon "unknown" = "2024年12月14日 12:34"
  /\ is_canonical (parseReleaseDate Demo.noon "13時間前") = true.
Proof.
  assert (Hc : clock_in_range Demo.noon).
  { split; [vm_compute; discriminate|].
    split; [vm_compute; reflexivity|].
    intros sec. unfold Demo.noon, Demo.jst. cbn [time.loc]. lia. }
  assert (Hn : 0 <= time.nsec Demo.noon < 1000000000).
  { cbn [time.nsec Demo.noon]. lia. }
  destruct (parseReleaseDate_canonical Demo.noon Hc Hn)
    as (Hshape & _ & _ & _ & _ & _ & H3 & H45 & Habs & Hun).
  assert (Hshows : forall t y m d h mi,
             (1 <=? m) && (m <=? 12) && (1 <=? d) && (d <=? month_length y m)
             && (day_number y m d - day_number 1970 1 1 =? wall_seconds t / 86400)
             && (h =? wall_seconds t mod 86400 / 3600)
             && (mi =? wall_seconds t mod 3600 / 60) = true ->
             shows t y m d h mi).
  { intros t y m d h mi E.
    rewrite !andb_true_iff, !Z.leb_le, !Z.eqb_eq in E. unfold shows. tauto. }
  split; [|split; [|split; [|split]]].
  - apply (proj2 H3 2024 12 14 9 34). apply Hshows. vm_compute. reflexivity.
  - apply (proj2 H45 2024 12 14 11 49). apply Hshows. vm_compute. reflexivity.
  - exact Habs.
  - apply (proj2 Hun 2024 12 14 12 34). apply Hshows. vm_compute. reflexivity.
  - apply Hshape.
Defined.

(** The integer of the relative form is multiplied as a 64-bit duration:
    beyond 2562047 hours the product wraps around, and the largest [int]
    gives the clock moved forward by one hour. *)
Remark hours_wrap_around :
  parseReleaseDate Demo.noon "9223372036854775807時間前" = "2024年12月14日 13:34"
  /\ time.Format Demo.noon "2006年01月02日 15:04" = "2024年12月14日 12:34".
Proof. split; vm_compute; reflexivity. Qed.

(** ** Sorting *)

Section InsertionSort.

Context {A : Type} (less : A -> A -> bool).

Lemma insert_by_permutation (a : A) (x : list A) :
  Permutation (a :: x) (insert_by less a x).
Proof.
  induction x as [|b x IH]; cbn [insert_by]; [reflexivity|].
  destruct (less a b); [reflexivity|].
  rewrite perm_swap. now apply perm_skip.
Qed.

Lemma insertion_sort_permutation (x : list A) :
  Permutation x (insertion_sort less x).
Proof.
  induction x as [|a x IH]; [reflexivity|].
  cbn [insertion_sort fold_right].
  rewrite <- insert_by_permutation. now apply perm_skip.
Qed.

Hypothesis less_swo : strict_weak_order less.

Lemma less_asymmetric (a b : A) : less a b = true -> less b a = false.
Proof using less_swo.
  destruct less_swo as (Hirr & Htrans & _). intros Hab.
  destruct (less b a) eqn:Hba; [|reflexivity].
  rewrite <- (Hirr a). symmetry. now apply (Htrans a b a).
Qed.

Lemma insert_by_HdRel (a b : A) (x : list A) :
  less a b = false -> HdRel (fun u v => less v u = false) b x ->
  HdRel (fun u v => less v u = false) b (insert_by less a x).
Proof.
  intros Hab Hx. destruct x as [|c x]; cbn [insert_by].
  - now constructor.
  - destruct (less a c); constructor; [assumption|].
    now inversion Hx.
Qed.

Lemma insert_by_sorted (a : A) (x : list A) :
  Sorted (fun u v => less v u = false) x ->
  Sorted (fun u v => less v u = false) (insert_by less a x).
Proof using less_swo.
  induction x as [|b x IH]; intros Hs; cbn [insert_by].
  - repeat constructor.
  - destruct (less a b) eqn:Hab.
    + constructor; [assumption|]. constructor. now apply less_asymmetric.
    + inversion Hs as [|? ? Hs' Hhd]; subst.
      constructor; [now apply IH | now apply insert_by_HdRel].
Qed.

Lemma insertion_sort_sorted (x : list A) :
  Sorted (fun u v => less v u = false) (insertion_sort less x).
Proof using less_swo.
  induction x as [|a x IH]; [constructor|].
  cbn [insertion_sort fold_right]. now apply insert_by_sorted.
Qed.

End InsertionSort.

#[export] Instance insertion_sorter : SliceSorter :=
  {| sort_slice := @insertion_sort;
     sort_slice_permutation := @insertion_sort_permutation;
     sort_slice_sorted := fun A less x H => @insertion_sort_sorted A less H x |}.

Lemma byLikeCount_swo : strict_weak_order byLikeCount.
Proof.
  unfold byLikeCount. repeat split.
  - intros a. rewrite Z.gtb_ltb. apply Z.ltb_irrefl.
  - intros a b c. rewrite !Z.gtb_ltb, !Z.ltb_lt. lia.
  - intros a b c. rewrite !Z.gtb_ltb, !Z.ltb_lt. lia.
Qed.

Lemma Sorted_firstn {A : Type} (R : A -> A -> Prop) (n : nat) (l : list A) :
  Sorted R l -> Sorted R (firstn n l).
Proof.
  revert l. induction n as [|n IH]; intros l Hs; [constructor|].
  destruct l as [|a l]; [constructor|]. cbn [firstn].
  inversion Hs as [|? ? Hs' Hhd]; subst.
  constructor; [now apply IH|].
  destruct n; [constructor|]. destruct l; [constructor|].
  cbn [firstn]. constructor. now inversion Hhd.
Qed.

Lemma Sorted_descending (l : list ResponseItem.t) :
  Sorted (fun u v => byLikeCount v u = false) l -> descending l.
Proof.
  intros Hs. induction Hs as [|a l Hs IH Hhd]; intros i x y Hx Hy.
  - destruct i; discriminate.
  - destruct i as [|i].
    + cbn in Hx, Hy. injection Hx as <-.
      destruct l as [|b l]; [discriminate|]. cbn in Hy. injection Hy as <-.
      inversion Hhd as [|? ? Hab]; subst. unfold byLikeCount in Hab.
      rewrite Z.gtb_ltb in Hab. apply Z.ltb_ge in Hab. lia.
    + now apply (IH i).
Qed.

Section Finalize.

Context {sorter : SliceSorter}.

Lemma finalize_cases (limit : Z) (results : list ResponseItem.t) :
  finalize limit results
  = if limit >? 0
    then firstn (Z.to_nat limit) (sort_slice byLikeCount results)
    else sort_slice byLikeCount results.
Proof.
  unfold finalize.
  destruct (limit >? 0) eqn:Hl; [|reflexivity].
  destruct (Z.of_nat (List.length (sort_slice byLikeCount results)) >? limit) eqn:Hn;
    [reflexivity|].
  cbn [andb]. rewrite firstn_all2; [reflexivity|].
  rewrite Z.gtb_ltb in Hn. apply Z.ltb_ge in Hn. lia.
Qed.

Lemma sort_slice_length (results : list ResponseItem.t) :
  List.length (sort_slice byLikeCount results) = List.length results.
Proof. symmetry. apply Permutation_length, sort_slice_permutation. Qed.

Lemma finalize_length (limit : Z) (results : list ResponseItem.t) :
  List.length (finalize limit results)
  = if limit >? 0
    then Nat.min (Z.to_nat limit) (List.length results)
    else List.length results.
Proof.
  rewrite finalize_cases. destruct (limit >? 0).
  - now rewrite length_firstn, sort_slice_length.
  - apply sort_slice_length.
Qed.

Lemma finalize_descending (limit : Z) (results : list ResponseItem.t) :
  descending (finalize limit results).
Proof.
  apply Sorted_descending. rewrite finalize_cases.
  pose proof (sort_slice_sorted _ byLikeCount results byLikeCount_swo) as Hs.
  destruct (limit >? 0); [now apply Sorted_firstn | exact Hs].
Qed.

End Finalize.

(** ** The fan-out *)

Section Orchestrator.

#[local] Open Scope list_scope.

Lemma item_for_mono (trace evs : list Event) (page : Z) (index : nat)
    (r : PRTimesResponse.Release) (i : ResponseItem.t) :
  item_for trace page index r i -> item_for (trace ++ evs) page index r i.
Proof.
  intros (now & res & Hin & ->). exists now, res. split; [|reflexivity].
  apply in_or_app. now left.
Qed.

Lemma items_for_mono (trace evs : list Event) (page : Z) (index : nat)
    (rs : list PRTimesResponse.Release) (is_ : list ResponseItem.t) :
  items_from trace page index rs is_ -> items_from (trace ++ evs) page index rs is_.
Proof.
  revert index is_. induction rs as [|r rs IH]; intros index [|i is_]; cbn [items_from];
    try tauto.
  intros [H1 H2]. split; [now apply item_for_mono | now apply IH].
Qed.

Lemma items_from_length (trace : list Event) (page : Z) (index : nat)
    (rs : list PRTimesResponse.Release) (is_ : list ResponseItem.t) :
  items_from trace page index rs is_ -> List.length rs = List.length is_.
Proof.
  revert index is_. induction rs as [|r rs IH]; intros index [|i is_]; cbn [items_from];
    try tauto.
  intros [_ H]. cbn [List.length]. f_equal. exact (IH _ _ H).
Qed.

(** One more listing and its item at the end. *)
Lemma items_from_snoc (trace : list Event) (page : Z) (index : nat)
    (rs : list PRTimesResponse.Release) (is_ : list ResponseItem.t)
    (r : PRTimesResponse.Release) (i : ResponseItem.t) :
  items_from trace page index rs is_ ->
  item_for trace page (index + List.length is_) r i ->
  items_from trace page index (rs ++ [r]) (is_ ++ [i]).
Proof.
  revert index is_. induction rs as [|r0 rs IH]; intros index [|i0 is_]; cbn [items_from];
    try tauto.
  - intros _ H. cbn [List.length] in H. rewrite Nat.add_0_r in H. now split.
  - intros [H1 H2] H. cbn [List.app items_from]. split; [exact H1|].
    apply IH; [exact H2|]. cbn [List.length] in H.
    now replace (S index + List.length is_)%nat with (index + S (List.length is_))%nat by lia.
Qed.

(** The listing number [k] and its item. *)
Lemma items_from_nth (trace : list Event) (page : Z) (index : nat)
    (rs : list PRTimesResponse.Release) (is_ : list ResponseItem.t) (k : nat)
    (r : PRTimesResponse.Release) :
  items_from trace page index rs is_ -> nth_error rs k = Some r ->
  exists i, nth_error is_ k = Some i /\ item_for trace page (index + k) r i.
Proof.
  revert index is_ k. induction rs as [|r0 rs IH]; intros index [|i0 is_] k;
    cbn [items_from]; try tauto.
  - intros _ H. destruct k; discriminate H.
  - intros [H1 H2] H. destruct k as [|k]; cbn [nth_error] in *.
    + injection H as <-. exists i0. rewrite Nat.add_0_r. now split.
    + destruct (IH _ _ _ H2 H) as (i & Hi & Hf). exists i. split; [exact Hi|].
      now replace (index + S k)%nat with (S index + k)%nat by lia.
Qed.

(** The item number [k] and its listing. *)
Lemma items_from_nth_item (trace : list Event) (page : Z) (index : nat)
    (rs : list PRTimesResponse.Release) (is_ : list ResponseItem.t) (k : nat)
    (i : ResponseItem.t) :
  items_from trace page index rs is_ -> nth_error is_ k = Some i ->
  exists r, nth_error rs k = Some r /\ item_for trace page (index + k) r i.
Proof.
  revert index is_ k. induction rs as [|r0 rs IH]; intros index [|i0 is_] k;
    cbn [items_from]; try tauto.
  - intros _ H. destruct k; discriminate H.
  - intros [H1 H2] H. destruct k as [|k]; cbn [nth_error] in *.
    + injection H as <-. exists r0. rewrite Nat.add_0_r. now split.
    + destruct (IH _ _ _ H2 H) as (r & Hr & Hf). exists r. split; [exact Hr|].
      now replace (index + S k)%nat with (S index + k)%nat by lia.
Qed.

Lemma goroutine_ok_mono (keyword : string) (trace evs : list Event) (g : goroutine) :
  goroutine_ok keyword trace g -> goroutine_ok keyword (trace ++ evs) g.
Proof.
  destruct g as [p | p data out rest | p data out r lc rest | p data out item rest | p res out];
    cbn [goroutine_ok].
  - trivial.
  - intros (Hin & done & Hl & Hf). split; [apply in_or_app; now left|].
    exists done. split; [assumption | now apply items_for_mono].
  - intros (Hin & (res & Hlike & Hlc) & done & Hl & Hf).
    split; [apply in_or_app; now left|]. split.
    + exists res. split; [apply in_or_app; now left | assumption].
    + exists done. split; [assumption | now apply items_for_mono].
  - intros (Hin & done & r & Hl & Hi & Hf). split; [apply in_or_app; now left|].
    exists done, r. repeat split; [assumption | now apply item_for_mono | now apply items_for_mono].
  - intros (Hin & Hp). split; [apply in_or_app; now left|].
    destruct res; cbn [page_items] in *; [now apply items_for_mono | assumption].
Qed.

Lemma listing_pages_app (a b : list Event) :
  listing_pages (a ++ b) = listing_pages a ++ listing_pages b.
Proof. apply flat_map_app. Qed.

Section FanOut.

Context (U : Upstream).
Variable keyword : string.

(** What one step of a goroutine does to the shared state and to the
    goroutine. *)
Lemma step_spec (g g' : goroutine) (sh sh' : shared U) :
  step U keyword g sh = (g', sh') -> finished g = false ->
  page_of g' = page_of g
  /\ started g' = true
  /\ exists evs items,
      sh_trace U sh' = sh_trace U sh ++ evs
      /\ sh_results U sh' = sh_results U sh ++ items
      /\ out_of g' = out_of g ++ items
      /\ listing_pages evs = (if started g then [] else [page_of g])
      /\ (goroutine_ok keyword (sh_trace U sh) g -> goroutine_ok keyword (sh_trace U sh') g').
Proof.
  destruct g as [p | p data out rest | p data out r lc rest | p data out item rest | p res out];
    cbn [step finished]; intros Hstep Hfin; try discriminate.
  - destruct (fetchPRTimesData U (sh_world U sh) keyword p) as [w' res].
    destruct res as [data|e]; injection Hstep as <- <-;
      cbn [page_of started sh_trace sh_results out_of];
      (split; [reflexivity|]; split; [reflexivity|]).
    + exists [CallListing keyword p (Ok data)], []. rewrite app_nil_r.
      do 4 (split; [reflexivity|]). intros _. cbn [goroutine_ok]. split.
      * apply in_or_app. right. now left.
      * exists []. split; [reflexivity | exact I].
    + exists [CallListing keyword p (Err e)], []. rewrite app_nil_r.
      do 4 (split; [reflexivity|]). intros _. cbn [goroutine_ok page_items].
      split; [|reflexivity]. apply in_or_app. right. now left.
  - destruct rest as [|release rest].
    + injection Hstep as <- <-. cbn [page_of started out_of].
      split; [reflexivity|]. split; [reflexivity|].
      exists [], []. rewrite !app_nil_r.
      do 4 (split; [reflexivity|]).
      cbn [goroutine_ok page_items]. intros (Hin & done & Hl & Hf).
      split; [assumption|]. rewrite Hl, app_nil_r. exact Hf.
    + destruct (fetchLikeCount U (sh_world U sh)
                  (extractReleaseID (PRTimesResponse.ReleaseURL release))) as [w' res].
      injection Hstep as <- <-. cbn [page_of started out_of sh_trace sh_results].
      split; [reflexivity|]. split; [reflexivity|].
      exists [CallLikeCount p (List.length out)
                (extractReleaseID (PRTimesResponse.ReleaseURL release)) res], [].
      rewrite !app_nil_r.
      do 4 (split; [reflexivity|]).
      cbn [goroutine_ok]. intros (Hin & done & Hl & Hf).
      split; [apply in_or_app; now left|]. split.
      * exists res. split; [apply in_or_app; right; now left | reflexivity].
      * exists done. split; [assumption | now apply items_for_mono].
  - injection Hstep as <- <-. cbn [page_of started out_of].
    split; [reflexivity|]. split; [reflexivity|].
    exists [], []. rewrite !app_nil_r.
    do 4 (split; [reflexivity|]).
    cbn [goroutine_ok]. intros (Hin & (res & Hlike & ->) & done & Hl & Hf).
    split; [assumption|]. exists done, r.
    split; [assumption|]. split; [|assumption].
    exists (clock U (sh_world U sh)), res. now split.
  - injection Hstep as <- <-. cbn [page_of started out_of sh_trace sh_results].
    split; [reflexivity|]. split; [reflexivity|].
    exists [], [item]. rewrite !app_nil_r.
    do 4 (split; [reflexivity|]).
    cbn [goroutine_ok]. intros (Hin & done & r & Hl & Hi & Hf).
    split; [assumption|]. exists (done ++ [r]). split.
    + now rewrite <- app_assoc.
    + apply items_from_snoc; assumption.
Qed.

Lemma step_measure (g g' : goroutine) (sh sh' : shared U) :
  step U keyword g sh = (g', sh') -> finished g = false ->
  (started g = false /\ started g' = true)
  \/ (started g = true /\ started g' = true /\ (weight g' < weight g)%nat).
Proof.
  destruct g as [p | p data out rest | p data out r lc rest | p data out item rest | p res out];
    cbn [step finished]; intros Hstep Hfin; try discriminate.
  - left. destruct (fetchPRTimesData U (sh_world U sh) keyword p) as [w' res].
    destruct res; injection Hstep as <- <-; now split.
  - right. destruct rest as [|release rest].
    + injection Hstep as <- <-. cbn. repeat split. lia.
    + destruct (fetchLikeCount U (sh_world U sh)
                  (extractReleaseID (PRTimesResponse.ReleaseURL release))) as [w' res].
      injection Hstep as <- <-. cbn [started weight List.length]. repeat split. lia.
  - right. injection Hstep as <- <-. cbn [started weight]. repeat split. lia.
  - right. injection Hstep as <- <-. cbn [started weight]. repeat split. lia.
Qed.

(** A scheduling decision steps one live goroutine in place, or nothing. *)
Lemma step_nth_spec (k : nat) (gs gs' : list goroutine) (sh sh' : shared U) :
  step_nth U keyword k gs sh = (gs', sh') ->
  (gs' = gs /\ sh' = sh)
  \/ (exists l1 g l2 g',
        gs = l1 ++ g :: l2 /\ gs' = l1 ++ g' :: l2
        /\ finished g = false /\ step U keyword g sh = (g', sh')).
Proof.
  revert k gs'. induction gs as [|g gs IH]; intros k gs' H; cbn [step_nth] in H.
  - injection H as <- <-. now left.
  - destruct (finished g) eqn:Hfin.
    + destruct (step_nth U keyword k gs sh) as [gs'' sh''] eqn:Hrec.
      injection H as <- <-.
      destruct (IH _ _ Hrec) as [[-> ->] | (l1 & g0 & l2 & g0' & -> & -> & Hf & Hs)].
      * now left.
      * right. exists (g :: l1), g0, l2, g0'. now repeat split.
    + destruct k as [|k].
      * destruct (step U keyword g sh) as [g' sh''] eqn:Hs. injection H as <- <-.
        right. exists [], g, gs, g'. now repeat split.
      * destruct (step_nth U keyword k gs sh) as [gs'' sh''] eqn:Hrec.
        injection H as <- <-.
        destruct (IH _ _ Hrec) as [[-> ->] | (l1 & g0 & l2 & g0' & -> & -> & Hf & Hs)].
        -- now left.
        -- right. exists (g :: l1), g0, l2, g0'. now repeat split.
Qed.

Lemma step_nth_live (k : nat) (gs gs' : list goroutine) (sh sh' : shared U) :
  step_nth U keyword k gs sh = (gs', sh') -> (k < live gs)%nat ->
  exists l1 g l2 g',
    gs = l1 ++ g :: l2 /\ gs' = l1 ++ g' :: l2
    /\ finished g = false /\ step U keyword g sh = (g', sh').
Proof.
  revert k gs'. induction gs as [|g gs IH]; intros k gs' H Hk; cbn [step_nth] in H.
  - cbn in Hk. lia.
  - unfold live in Hk. cbn [filter] in Hk.
    destruct (finished g) eqn:Hfin; cbn [negb] in Hk.
    + destruct (step_nth U keyword k gs sh) as [gs'' sh''] eqn:Hrec.
      injection H as <- <-.
      destruct (IH _ _ Hrec Hk) as (l1 & g0 & l2 & g0' & -> & -> & Hf & Hs).
      exists (g :: l1), g0, l2, g0'. now repeat split.
    + destruct k as [|k].
      * destruct (step U keyword g sh) as [g' sh''] eqn:Hs. injection H as <- <-.
        exists [], g, gs, g'. now repeat split.
      * destruct (step_nth U keyword k gs sh) as [gs'' sh''] eqn:Hrec.
        injection H as <- <-. cbn [List.length] in Hk.
        destruct (IH _ _ Hrec) as (l1 & g0 & l2 & g0' & -> & -> & Hf & Hs);
          [unfold live; lia|].
        exists (g :: l1), g0, l2, g0'. now repeat split.
Qed.

Lemma pool_inv_step (l1 l2 : list goroutine) (g g' : goroutine) (sh sh' : shared U) :
  pool_inv U keyword (l1 ++ g :: l2, sh) ->
  finished g = false -> step U keyword g sh = (g', sh') ->
  pool_inv U keyword (l1 ++ g' :: l2, sh').
Proof.
  intros (Hres & Hok & Hpages) Hfin Hstep. cbn [fst snd] in *.
  destruct (step_spec _ _ _ _ Hstep Hfin)
    as (Hpage & Hstarted & evs & items & Htr & Hrs & Hout & Hlp & Hg).
  unfold pool_inv. cbn [fst snd]. rewrite Htr, Hrs. split; [|split].
  - rewrite flat_map_app in *. cbn [flat_map] in *. rewrite Hout.
    rewrite Hres, <- !app_assoc.
    apply Permutation_app_head, Permutation_app_head, Permutation_app_comm.
  - apply Forall_app in Hok as [H1 H2]. inversion H2 as [|? ? Hg0 H2']; subst.
    apply Forall_app. split; [|constructor].
    + eapply Forall_impl; [|exact H1]. intros; now apply goroutine_ok_mono.
    + rewrite <- Htr. now apply Hg.
    + eapply Forall_impl; [|exact H2']. intros; now apply goroutine_ok_mono.
  - rewrite listing_pages_app, Hlp.
    rewrite filter_app, map_app in *. cbn [filter map] in *. rewrite Hstarted.
    cbn [map]. rewrite Hpage.
    destruct (started g).
    + now rewrite app_nil_r.
    + rewrite <- Permutation_cons_append. now apply Permutation_cons_app.
Qed.

Lemma pool_inv_world (gs : list goroutine) (sh : shared U) (w : world U) :
  pool_inv U keyword (gs, sh) ->
  pool_inv U keyword (gs, mkShared U w (sh_trace U sh) (sh_results U sh)).
Proof. now intros H. Qed.

Lemma pages_step_nth (k : nat) (gs gs' : list goroutine) (sh sh' : shared U) :
  step_nth U keyword k gs sh = (gs', sh') -> map page_of gs' = map page_of gs.
Proof.
  intros H. destruct (step_nth_spec _ _ _ _ _ H)
    as [[-> ->] | (l1 & g & l2 & g' & -> & -> & Hf & Hs)]; [reflexivity|].
  destruct (step_spec _ _ _ _ Hs Hf) as (Hp & _).
  rewrite !map_app. cbn [map]. now rewrite Hp.
Qed.

Lemma pool_inv_sched_step (pick : nat) (st : list goroutine * shared U) :
  pool_inv U keyword st ->
  pool_inv U keyword (sched_step U keyword pick st)
  /\ map page_of (fst (sched_step U keyword pick st)) = map page_of (fst st).
Proof.
  destruct st as [gs sh]. intros Hinv. unfold sched_step.
  destruct (live gs) eqn:Hlive; [now split|]. rewrite <- Hlive.
  destruct (step_nth U keyword (pick mod live gs) gs _) as [gs' sh'] eqn:Hs.
  split; [|exact (pages_step_nth _ _ _ _ _ Hs)].
  destruct (step_nth_spec _ _ _ _ _ Hs)
    as [[-> ->] | (l1 & g & l2 & g' & -> & -> & Hf & Hstep)].
  - now apply pool_inv_world.
  - eapply pool_inv_step; [|exact Hf | exact Hstep]. now apply pool_inv_world.
Qed.

Lemma pool_inv_run (sched : list nat) (st : list goroutine * shared U) :
  pool_inv U keyword st ->
  pool_inv U keyword (run U keyword sched st)
  /\ map page_of (fst (run U keyword sched st)) = map page_of (fst st).
Proof.
  revert st. induction sched as [|pick sched IH]; intros st Hinv; cbn [run]; [now split|].
  destruct (pool_inv_sched_step pick st Hinv) as [Hinv' Hpages].
  destruct (IH _ Hinv') as [Hinv'' Hpages'']. split; [assumption | congruence].
Qed.

Lemma pool_inv_init (ps : list Z) (w : world U) :
  pool_inv U keyword (map GFetch ps, mkShared U w [] []).
Proof.
  unfold pool_inv. cbn [fst snd sh_results sh_trace listing_pages flat_map].
  assert (H1 : flat_map out_of (map GFetch ps) = []) by (induction ps; auto).
  assert (H2 : filter started (map GFetch ps) = []) by (induction ps; auto).
  rewrite H1, H2. repeat split; try constructor.
  induction ps; constructor; cbn; auto.
Qed.

(** The state at [wg.Wait()] for a schedule that lets every goroutine
    return. *)
Lemma fan_out_spec (totalPages : Z) (sched : list nat) (w : world U)
    (gs : list goroutine) (sh : shared U) :
  fan_out U keyword totalPages sched w = (gs, sh) ->
  forallb finished gs = true ->
  map page_of gs = pages totalPages
  /\ Permutation (sh_results U sh) (flat_map out_of gs)
  /\ Permutation (listing_pages (sh_trace U sh)) (pages totalPages)
  /\ Forall (fun g => exists page res items,
                 g = GDone page res items
                 /\ In (CallListing keyword page res) (sh_trace U sh)
                 /\ page_items (sh_trace U sh) page res items) gs.
Proof.
  unfold fan_out. intros Hrun Hfin.
  destruct (pool_inv_run sched _ (pool_inv_init (pages totalPages) w)) as [Hinv Hpages].
  rewrite Hrun in Hinv, Hpages. cbn [fst] in Hpages.
  rewrite map_map in Hpages. cbn [page_of] in Hpages. rewrite map_id in Hpages.
  destruct Hinv as (Hres & Hok & Hlp). cbn [fst snd] in *.
  assert (Hstarted : filter started gs = gs).
  { clear - Hfin. induction gs as [|g gs IH]; [reflexivity|].
    cbn [forallb] in Hfin. apply andb_true_iff in Hfin as [Hg Hgs].
    destruct g; try discriminate. cbn [filter started]. now rewrite IH. }
  rewrite Hstarted, Hpages in Hlp. repeat split; try assumption.
  rewrite forallb_forall in Hfin. rewrite Forall_forall in Hok |- *.
  intros g Hin. specialize (Hfin g Hin). specialize (Hok g Hin).
  destruct g as [| | | |page res items]; try discriminate.
  exists page, res, items. cbn [goroutine_ok] in Hok. now repeat split.
Qed.

End FanOut.

End Orchestrator.

(** ** The callers of the Popularity Fetcher *)

Lemma pages_NoDup (totalPages : Z) : NoDup (pages totalPages).
Proof.
  unfold pages. generalize (seq_NoDup (Z.to_nat totalPages) 1).
  induction 1 as [|x l Hx _ IH]; cbn [map]; constructor; [|exact IH].
  intros Hin. apply in_map_iff in Hin as (y & Hy & Hin).
  apply Nat2Z.inj in Hy. now subst y.
Qed.

Lemma like_owners_app (a b : list Event) :
  like_owners (a ++ b) = (like_owners a ++ like_owners b)%list.
Proof. apply flat_map_app. Qed.

Lemma like_owner_In (trace : list Event) (p : Z) (i : nat) (id : string) (res : result Z) :
  In (CallLikeCount p i id res) trace -> In (p, i) (like_owners trace).
Proof.
  intros H. unfold like_owners. apply in_flat_map.
  exists (CallLikeCount p i id res). split; [exact H | now left].
Qed.

(** Two calls with the same mark are one call. *)
Lemma like_owner_unique (trace : list Event) (p : Z) (i : nat) (id id' : string)
    (res res' : result Z) :
  NoDup (like_owners trace) ->
  In (CallLikeCount p i id res) trace -> In (CallLikeCount p i id' res') trace ->
  id' = id /\ res' = res.
Proof.
  induction trace as [|ev trace IH]; intros Hnd H1 H2; [contradiction|].
  assert (Hhead : forall id0 res0,
             ev = CallLikeCount p i id0 res0 -> ~ In (p, i) (like_owners trace)).
  { intros id0 res0 ->. unfold like_owners in Hnd. cbn [flat_map List.app] in Hnd.
    now inversion Hnd. }
  assert (Htail : NoDup (like_owners trace)).
  { unfold like_owners in Hnd. destruct ev; cbn [flat_map List.app] in Hnd;
      [exact Hnd | now inversion Hnd]. }
  destruct H1 as [E1 | H1], H2 as [E2 | H2].
  - rewrite E1 in E2. injection E2 as <- <-. now split.
  - destruct (Hhead _ _ E1). exact (like_owner_In _ _ _ _ _ H2).
  - destruct (Hhead _ _ E2). exact (like_owner_In _ _ _ _ _ H1).
  - now apply IH.
Qed.

Lemma NoDup_map_In {A B : Type} (f : A -> B) (l : list A) (x y : A) :
  NoDup (map f l) -> In x l -> In y l -> f x = f y -> x = y.
Proof.
  induction l as [|a l IH]; intros Hnd Hx Hy E; [contradiction|].
  cbn [map] in Hnd. inversion Hnd as [|? ? Hnot Hnd']; subst.
  destruct Hx as [-> | Hx], Hy as [-> | Hy].
  - reflexivity.
  - destruct Hnot. rewrite E. now apply in_map.
  - destruct Hnot. rewrite <- E. now apply in_map.
  - now apply IH.
Qed.

Section Owners.

#[local] Open Scope list_scope.

Context (U : Upstream).
Variable keyword : string.

(** What holds at the start, whatever the world does, and after every step
    of a live goroutine, holds after every run. *)
Lemma run_invariant (P : list goroutine -> shared U -> Prop) :
  (forall gs sh w, P gs sh -> P gs (mkShared U w (sh_trace U sh) (sh_results U sh))) ->
  (forall l1 g l2 g' sh sh',
      P (l1 ++ g :: l2) sh -> finished g = false ->
      step U keyword g sh = (g', sh') -> P (l1 ++ g' :: l2) sh') ->
  forall sched gs sh gs' sh',
    P gs sh -> run U keyword sched (gs, sh) = (gs', sh') -> P gs' sh'.
Proof.
  intros Hw Hs. induction sched as [|pick sched IH]; intros gs sh gs' sh' HP Hrun;
    cbn [run] in Hrun.
  - injection Hrun as <- <-. exact HP.
  - destruct (sched_step U keyword pick (gs, sh)) as [gs1 sh1] eqn:E.
    apply (IH gs1 sh1 gs' sh'); [|exact Hrun].
    unfold sched_step in E. destruct (live gs) eqn:Hl.
    + injection E as <- <-. exact HP.
    + destruct (step_nth_spec U keyword _ _ _ _ _ E)
        as [[-> ->] | (l1 & g & l2 & g' & -> & -> & Hf & Hstep)].
      * apply Hw, HP.
      * eapply Hs; [apply Hw, HP | exact Hf | exact Hstep].
Qed.

(** What one step of a goroutine does to the marks: nothing, or one more
    call, marked with the page and the number of calls made before. *)
Lemma step_owner (g g' : goroutine) (sh sh' : shared U) :
  step U keyword g sh = (g', sh') -> finished g = false ->
  page_of g' = page_of g
  /\ (made g <= made g')%nat
  /\ (like_owners (sh_trace U sh') = like_owners (sh_trace U sh)
      \/ (like_owners (sh_trace U sh')
           = like_owners (sh_trace U sh) ++ [(page_of g, made g)]
          /\ made g' = S (made g))).
Proof.
  destruct g as [p | p data out rest | p data out r lc rest | p data out item rest | p res out];
    cbn [step finished]; intros Hstep Hfin; try discriminate.
  - destruct (fetchPRTimesData U (sh_world U sh) keyword p) as [w' res].
    destruct res; injection Hstep as <- <-; cbn [sh_trace page_of];
      (split; [reflexivity|]); (split; [unfold made; cbn; lia|]);
      left; rewrite like_owners_app; cbn; now rewrite app_nil_r.
  - destruct rest as [|release rest].
    + injection Hstep as <- <-. split; [reflexivity|]. split; [unfold made; cbn; lia|].
      now left.
    + destruct (fetchLikeCount U (sh_world U sh)
                  (extractReleaseID (PRTimesResponse.ReleaseURL release))) as [w' res].
      injection Hstep as <- <-. cbn [sh_trace page_of].
      split; [reflexivity|]. split; [unfold made; cbn; lia|].
      right. rewrite like_owners_app. unfold made. cbn [out_of pending].
      rewrite Nat.add_0_r. split; [reflexivity | lia].
  - injection Hstep as <- <-. split; [reflexivity|]. split; [unfold made; cbn; lia|].
    now left.
  - injection Hstep as <- <-. cbn [sh_trace page_of].
    split; [reflexivity|]. split; [|now left].
    unfold made. cbn [out_of pending]. rewrite length_app. cbn. lia.
Qed.

Lemma owner_inv_step (l1 l2 : list goroutine) (g g' : goroutine) (sh sh' : shared U) :
  owner_inv (l1 ++ g :: l2) (sh_trace U sh) ->
  finished g = false -> step U keyword g sh = (g', sh') ->
  owner_inv (l1 ++ g' :: l2) (sh_trace U sh').
Proof.
  intros (Hpages & Hnd & Hown) Hfin Hstep.
  destruct (step_owner _ _ _ _ Hstep Hfin) as (Hpage & Hmade & Hlog).
  assert (Hpages' : map page_of (l1 ++ g' :: l2) = map page_of (l1 ++ g :: l2)).
  { rewrite !map_app. cbn [map]. now rewrite Hpage. }
  assert (Hkeep : forall p i,
             (exists g0, In g0 (l1 ++ g :: l2) /\ page_of g0 = p /\ (i < made g0)%nat) ->
             exists g0, In g0 (l1 ++ g' :: l2) /\ page_of g0 = p /\ (i < made g0)%nat).
  { intros p i (g0 & Hin & Hp & Hi). apply in_app_or in Hin as [Hin | [<- | Hin]].
    - exists g0. split; [apply in_or_app; now left | now split].
    - exists g'. split; [apply in_or_app; right; now left|]. split; [congruence | lia].
    - exists g0. split; [apply in_or_app; right; now right | now split]. }
  split; [now rewrite Hpages'|].
  destruct Hlog as [E | [E Hnew]]; rewrite E.
  - split; [exact Hnd|]. intros p i Hin. apply Hkeep, Hown, Hin.
  - split.
    + apply (Permutation_NoDup (Permutation_cons_append _ _)). constructor; [|exact Hnd].
      intros Hin. destruct (Hown _ _ Hin) as (g0 & Hin0 & Hp & Hi).
      assert (g0 = g).
      { apply (NoDup_map_In page_of (l1 ++ g :: l2)); try assumption.
        apply in_or_app. right. now left. }
      subst g0. lia.
    + intros p i Hin. apply in_app_or in Hin as [Hin | [E' | []]].
      * apply Hkeep, Hown, Hin.
      * injection E' as <- <-. exists g'.
        split; [apply in_or_app; right; now left|]. split; [exact Hpage | lia].
Qed.

(** At every point of the fan-out every call of [fetchLikeCount] has a
    mark of its own. *)
Lemma fan_out_owners (totalPages : Z) (sched : list nat) (w : world U)
    (gs : list goroutine) (sh : shared U) :
  fan_out U keyword totalPages sched w = (gs, sh) -> owner_inv gs (sh_trace U sh).
Proof.
  unfold fan_out.
  apply (run_invariant (fun gs sh => owner_inv gs (sh_trace U sh))).
  - intros ? ? ? H. exact H.
  - intros l1 g l2 g' s s' H Hf Hstep. exact (owner_inv_step _ _ _ _ _ _ H Hf Hstep).
  - cbn [sh_trace]. split; [|split].
    + rewrite map_map. cbn [page_of]. rewrite map_id. apply pages_NoDup.
    + constructor.
    + intros p i [].
Qed.

(** The listing number [index] of a page that was fetched in the fan-out,
    once every goroutine has returned: the Popularity Fetcher has been
    called for it with its identifier, by one call only, and its item is
    the item number [index] of the page, with the count of that call. *)
Lemma own_call (totalPages : Z) (sched : list nat) (w : world U)
    (gs : list goroutine) (sh : shared U)
    (page : Z) (data : PRTimesResponse.t) (items : list ResponseItem.t)
    (index : nat) (release : PRTimesResponse.Release) :
  fan_out U keyword totalPages sched w = (gs, sh) ->
  forallb finished gs = true ->
  In (GDone page (Ok data) items) gs ->
  nth_error (PRTimesResponse.ReleaseList (PRTimesResponse.Data data)) index = Some release ->
  exists res now item,
    In (CallLikeCount page index (extractReleaseID (PRTimesResponse.ReleaseURL release)) res)
       (sh_trace U sh)
    /\ (forall id' res',
          In (CallLikeCount page index id' res') (sh_trace U sh) ->
          id' = extractReleaseID (PRTimesResponse.ReleaseURL release) /\ res' = res)
    /\ item = buildItem release now (like_or_zero res)
    /\ nth_error items index = Some item
    /\ In item (sh_results U sh).
Proof.
  intros Hfan Hfin Hg Hrel.
  destruct (fan_out_spec U keyword _ _ _ _ _ Hfan Hfin) as (_ & Hperm & _ & Hall).
  destruct (fan_out_owners _ _ _ _ _ Hfan) as (_ & Hnd & _).
  rewrite Forall_forall in Hall.
  destruct (Hall _ Hg) as (page' & res' & items' & Heq & _ & Hitems).
  injection Heq as <- <- <-. cbn [page_items] in Hitems.
  destruct (items_from_nth _ _ _ _ _ _ _ Hitems Hrel) as (item & Hitem & now & res & Hcall & ->).
  rewrite Nat.add_0_l in Hcall.
  exists res, now, (buildItem release now (like_or_zero res)).
  split; [exact Hcall|]. split.
  { intros id' res' H'. exact (like_owner_unique _ _ _ _ _ _ _ Hnd Hcall H'). }
  split; [reflexivity|]. split; [exact Hitem|].
  apply (Permutation_in _ (Permutation_sym Hperm)).
  apply in_flat_map. exists (GDone page (Ok data) items). split; [exact Hg|].
  cbn [out_of]. exact (nth_error_In _ _ Hitem).
Qed.

(** Every call of the Popularity Fetcher is the call for a listing of a
    page that was fetched in the fan-out. *)
Lemma call_owner (totalPages : Z) (sched : list nat) (w : world U)
    (gs : list goroutine) (sh : shared U)
    (page : Z) (index : nat) (id : string) (res : result Z) :
  fan_out U keyword totalPages sched w = (gs, sh) ->
  forallb finished gs = true ->
  In (CallLikeCount page index id res) (sh_trace U sh) ->
  exists data items release,
    In (GDone page (Ok data) items) gs
    /\ In (CallListing keyword page (Ok data)) (sh_trace U sh)
    /\ nth_error (PRTimesResponse.ReleaseList (PRTimesResponse.Data data)) index
       = Some release
    /\ id = extractReleaseID (PRTimesResponse.ReleaseURL release).
Proof.
  intros Hfan Hfin Hcall.
  destruct (fan_out_spec U keyword _ _ _ _ _ Hfan Hfin) as (_ & _ & _ & Hall).
  destruct (fan_out_owners _ _ _ _ _ Hfan) as (_ & _ & Hown).
  destruct (Hown _ _ (like_owner_In _ _ _ _ _ Hcall)) as (g & Hg & Hp & Hi).
  rewrite Forall_forall in Hall.
  destruct (Hall _ Hg) as (page' & res' & items & -> & Hlisting & Hitems).
  cbn [page_of] in Hp. subst page'. unfold made in Hi. cbn [out_of pending] in Hi.
  destruct res' as [data|e]; cbn [page_items] in Hitems;
    [|subst items; cbn in Hi; lia].
  rewrite Nat.add_0_r, <- (items_from_length _ _ _ _ _ Hitems) in Hi.
  destruct (nth_error (PRTimesResponse.ReleaseList (PRTimesResponse.Data data)) index)
    as [release|] eqn:Hrel; [|apply nth_error_None in Hrel; lia].
  exists data, items, release. split; [exact Hg|]. split; [exact Hlisting|].
  split; [exact Hrel|].
  destruct (own_call _ _ _ _ _ _ _ _ _ _ Hfan Hfin Hg Hrel) as (res0 & _ & _ & _ & Huniq & _).
  exact (proj1 (Huniq _ _ Hcall)).
Qed.

End Owners.

(** ** The barrier is reached *)

Section Termination.

#[local] Open Scope list_scope.
#[local] Open Scope nat_scope.

Context (U : Upstream).
Variable keyword : string.

Lemma live_zero (gs : list goroutine) : live gs = 0 -> forallb finished gs = true.
Proof.
  unfold live. induction gs as [|g gs IH]; [reflexivity|].
  cbn [filter forallb]. destruct (finished g); cbn [negb andb]; [exact IH|].
  discriminate.
Qed.

Lemma unstarted_middle (l1 l2 : list goroutine) (g : goroutine) :
  unstarted (l1 ++ g :: l2)
  = unstarted l1 + (if started g then 0 else 1) + unstarted l2.
Proof.
  unfold unstarted. rewrite filter_app, length_app. cbn [filter].
  destruct (started g); cbn [negb List.length]; lia.
Qed.

Lemma total_weight_middle (l1 l2 : list goroutine) (g : goroutine) :
  total_weight (l1 ++ g :: l2) = total_weight l1 + weight g + total_weight l2.
Proof.
  unfold total_weight. rewrite map_app, list_sum_app. simpl. lia.
Qed.

Lemma sched_step_progress (pick : nat) (gs : list goroutine) (sh : shared U) :
  live gs <> 0 ->
  unstarted (fst (sched_step U keyword pick (gs, sh))) < unstarted gs
  \/ (unstarted (fst (sched_step U keyword pick (gs, sh))) = unstarted gs
      /\ total_weight (fst (sched_step U keyword pick (gs, sh))) < total_weight gs).
Proof.
  intros Hlive. unfold sched_step.
  destruct (live gs) eqn:E; [contradiction|]. rewrite <- E.
  destruct (step_nth U keyword (pick mod live gs) gs _) as [gs' sh'] eqn:Hs.
  destruct (step_nth_live U keyword _ _ _ _ _ Hs)
    as (l1 & g & l2 & g' & -> & -> & Hf & Hstep).
  { apply Nat.mod_upper_bound. lia. }
  cbn [fst]. rewrite !unstarted_middle, !total_weight_middle.
  destruct (step_measure U keyword _ _ _ _ Hstep Hf) as [[-> ->] | (-> & -> & Hw)]; lia.
Qed.

Lemma decisions_S (f : nat -> nat) (n : nat) :
  decisions f (S n) = f 0 :: decisions (fun i => f (S i)) n.
Proof.
  unfold decisions. cbn [seq map]. f_equal.
  rewrite <- seq_shift, map_map. reflexivity.
Qed.

(** Whatever the scheduler decides, every goroutine returns after finitely
    many decisions. *)
Lemma run_terminates (u m : nat) :
  forall (gs : list goroutine) (sh : shared U),
    unstarted gs = u -> total_weight gs = m ->
    forall f : nat -> nat,
    exists n, forallb finished (fst (run U keyword (decisions f n) (gs, sh))) = true.
Proof.
  revert m. induction u as [u IHu] using lt_wf_ind.
  induction m as [m IHm] using lt_wf_ind.
  intros gs sh Hu Hm f.
  destruct (Nat.eq_dec (live gs) 0) as [H0|Hlive].
  - exists 0. cbn. now apply live_zero.
  - pose proof (sched_step_progress (f 0) gs sh Hlive) as Hprog.
    destruct (sched_step U keyword (f 0) (gs, sh)) as [gs' sh'] eqn:Hstep.
    cbn [fst] in Hprog.
    assert (Hnext : exists n, forallb finished
              (fst (run U keyword (decisions (fun i => f (S i)) n) (gs', sh'))) = true).
    { destruct Hprog as [Hlt | [Heq Hlt]].
      - apply (IHu (unstarted gs') ltac:(lia) (total_weight gs')); reflexivity.
      - apply (IHm (total_weight gs') ltac:(lia)); [lia | reflexivity]. }
    destruct Hnext as [n Hn]. exists (S n).
    rewrite decisions_S. cbn [run]. now rewrite Hstep.
Qed.

Lemma fan_out_terminates (totalPages : Z) (w : world U) (f : nat -> nat) :
  exists n,
    forallb finished (fst (fan_out U keyword totalPages (decisions f n) w)) = true.
Proof. unfold fan_out. eapply run_terminates; reflexivity. Qed.

End Termination.

(** ** The handler *)

Section HandlerFacts.

#[local] Open Scope list_scope.

Context (U : Upstream) {sorter : SliceSorter}.

Lemma parseLimit_ok (limitStr : string) (limit : Z) :
  parseLimit limitStr = Ok limit ->
  (limitStr = "" /\ limit = 0)
  \/ (limitStr <> "" /\ strconv.Atoi limitStr = Ok limit /\ 0 < limit).
Proof.
  unfold parseLimit. destruct (String.eqb_spec limitStr "") as [->|Hne].
  - intros H. injection H as <-. now left.
  - destruct (strconv.Atoi limitStr) as [n|e]; [|discriminate].
    destruct (n <=? 0) eqn:Hn; [discriminate|].
    intros H. injection H as <-. right. apply Z.leb_gt in Hn. now repeat split.
Qed.

(** A request that is answered with a sequence: it passed the validation,
    the first page was fetched, and every goroutine has returned. *)
Lemma handlePRTimesPosts_ok (sched : list nat) (w : world U) (r : Request)
    (out : Outcome U) (body : list ResponseItem.t) :
  handlePRTimesPosts U sched w r = Some out -> response U out = StatusOK body ->
  exists limit firstPageData w1 gs sh,
    query_keyword r <> ""
    /\ parseLimit (query_limit r) = Ok limit
    /\ fetchPRTimesData U w (query_keyword r) 1 = (w1, Ok firstPageData)
    /\ fan_out U (query_keyword r)
         (PRTimesResponse.LastPage (PRTimesResponse.Data firstPageData)) sched w1 = (gs, sh)
    /\ forallb finished gs = true
    /\ out = mkOutcome U (StatusOK (finalize limit (sh_results U sh)))
               (CallListing (query_keyword r) 1 (Ok firstPageData) :: sh_trace U sh)
               (sh_world U sh).
Proof.
  unfold handlePRTimesPosts. intros H Hresp.
  destruct (String.eqb_spec (query_keyword r) "") as [|Hkw].
  { injection H as <-. discriminate. }
  destruct (parseLimit (query_limit r)) as [limit|e] eqn:Hlimit.
  2:{ injection H as <-. discriminate. }
  destruct (fetchPRTimesData U w (query_keyword r) 1) as [w1 res] eqn:Hfetch.
  destruct res as [fp|e].
  2:{ injection H as <-. discriminate. }
  unfold afterFirstPage in H.
  destruct (fan_out U (query_keyword r) _ sched w1) as [gs sh] eqn:Hfan.
  destruct (forallb finished gs) eqn:Hfin; [|discriminate].
  injection H as <-.
  exists limit, fp, w1, gs, sh. now repeat split.
Qed.

Lemma handlePRTimesPosts_complete (sched : list nat) (w w1 : world U) (r : Request)
    (limit : Z) (firstPageData : PRTimesResponse.t) (gs : list goroutine) (sh : shared U) :
  query_keyword r <> "" ->
  parseLimit (query_limit r) = Ok limit ->
  fetchPRTimesData U w (query_keyword r) 1 = (w1, Ok firstPageData) ->
  fan_out U (query_keyword r)
    (PRTimesResponse.LastPage (PRTimesResponse.Data firstPageData)) sched w1 = (gs, sh) ->
  forallb finished gs = true ->
  handlePRTimesPosts U sched w r
  = Some (mkOutcome U (StatusOK (finalize limit (sh_results U sh)))
            (CallListing (query_keyword r) 1 (Ok firstPageData) :: sh_trace U sh)
            (sh_world U sh)).
Proof.
  intros Hkw Hlimit Hfetch Hfan Hfin. unfold handlePRTimesPosts.
  apply String.eqb_neq in Hkw. rewrite Hkw, Hlimit, Hfetch.
  unfold afterFirstPage. now rewrite Hfan, Hfin.
Qed.

(** Under every scheduler the handler answers. *)
Lemma handlePRTimesPosts_returns (f : nat -> nat) (w : world U) (r : Request) :
  exists n out, handlePRTimesPosts U (decisions f n) w r = Some out.
Proof.
  unfold handlePRTimesPosts.
  destruct (String.eqb (query_keyword r) ""); [exists 0%nat; eexists; reflexivity|].
  destruct (parseLimit (query_limit r)) as [limit|e]; [|exists 0%nat; eexists; reflexivity].
  destruct (fetchPRTimesData U w (query_keyword r) 1) as [w1 [fp|e]];
    [|exists 0%nat; eexists; reflexivity].
  destruct (fan_out_terminates U (query_keyword r)
              (PRTimesResponse.LastPage (PRTimesResponse.Data fp)) w1 f) as [n Hn].
  exists n. unfold afterFirstPage.
  destruct (fan_out U (query_keyword r) _ (decisions f n) w1) as [gs sh].
  cbn [fst] in Hn. rewrite Hn. eexists; reflexivity.
Qed.

End HandlerFacts.

(** ** The claims on the handler *)

Lemma digits_value_not_digits (s : string) (acc : Z) :
  all_digits s = false -> strconv.digits_value acc s = None.
Proof.
  revert acc. induction s as [|c s IH]; intros acc H; [discriminate|].
  cbn [all_digits strconv.digits_value] in *.
  destruct (is_digit c); [now apply IH | reflexivity].
Qed.

Lemma Atoi_not_numeral (s : string) :
  is_numeral s = false -> exists e, strconv.Atoi s = Err e.
Proof.
  unfold is_numeral, strconv.Atoi. destruct s as [|c rest]; [eexists; reflexivity|].
  cbv zeta.
  set (body := if (Ascii.eqb c "-" || Ascii.eqb c "+")%bool then rest else String c rest).
  intros H. apply andb_false_iff in H as [H|H].
  - apply negb_false_iff, String.eqb_eq in H. rewrite H. eexists; reflexivity.
  - rewrite (digits_value_not_digits _ _ H). destruct body; eexists; reflexivity.
Qed.

Lemma digits_value_decimal (s : string) (acc : Z) :
  all_digits s = true -> strconv.digits_value acc s = Some (decimal acc s).
Proof.
  revert acc. induction s as [|c s IH]; intros acc H; [reflexivity|].
  cbn [all_digits] in H. apply andb_true_iff in H as [Hc Hs].
  cbn [strconv.digits_value decimal]. rewrite Hc. apply (IH _ Hs).
Qed.

(** What [strconv.Atoi] makes of a numeral: the number it denotes when
    that is an [int], and an error when it is not. *)
Lemma Atoi_numeral (s : string) :
  is_numeral s = true ->
  strconv.Atoi s
  = if (min_int64 <=? numeral_value s) && (numeral_value s <=? max_int64)
    then Ok (numeral_value s)
    else Err "value out of range".
Proof.
  unfold is_numeral, strconv.Atoi, numeral_value.
  destruct s as [|c rest]; [discriminate|]. cbv zeta.
  destruct (Ascii.eqb c "-") eqn:Hm; cbn [orb].
  - intros H. apply andb_true_iff in H as [Hne Hd].
    destruct rest as [|x rest]; [discriminate|].
    now rewrite (digits_value_decimal _ 0 Hd).
  - destruct (Ascii.eqb c "+") eqn:Hp.
    + intros H. apply andb_true_iff in H as [Hne Hd].
      destruct rest as [|x rest]; [discriminate|].
      now rewrite (digits_value_decimal _ 0 Hd).
    + intros H. apply andb_true_iff in H as [Hne Hd].
      now rewrite (digits_value_decimal _ 0 Hd).
Qed.

Lemma Forall2_In_l {A B : Type} (P : A -> B -> Prop) (l1 : list A) (l2 : list B) (a : A) :
  Forall2 P l1 l2 -> In a l1 -> exists b, In b l2 /\ P a b.
Proof.
  induction 1 as [|x y l1 l2 Hxy _ IH]; intros Hin; [contradiction|].
  destruct Hin as [->|Hin].
  - exists y. split; [now left | assumption].
  - destruct (IH Hin) as (b & Hb & Hp). exists b. split; [now right | assumption].
Qed.

Lemma pages_count_one (totalPages : Z) :
  1 <= totalPages -> count_occ Z.eq_dec (pages totalPages) 1 = 1%nat.
Proof.
  intros H. unfold pages.
  assert (Hnd : NoDup (map Z.of_nat (seq 1 (Z.to_nat totalPages)))).
  { generalize (seq_NoDup (Z.to_nat totalPages) 1).
    induction 1 as [|x l Hx _ IH]; cbn [map]; constructor; [|exact IH].
    intros Hin. apply in_map_iff in Hin as (y & Hy & Hin).
    apply Nat2Z.inj in Hy. now subst y. }
  assert (Hin : In 1 (map Z.of_nat (seq 1 (Z.to_nat totalPages)))).
  { apply in_map_iff. exists 1%nat. split; [reflexivity|]. apply in_seq. lia. }
  pose proof (proj1 (NoDup_count_occ Z.eq_dec _) Hnd 1) as Hle.
  pose proof (proj1 (count_occ_In Z.eq_dec _ 1) Hin) as Hge. lia.
Qed.

Section Claims.

#[local] Open Scope list_scope.

Context (U : Upstream) {sorter : SliceSorter}.

(** C8.  A request without a keyword, or with a limit parameter that is
    not a numeral, or is a numeral that denotes zero or a negative number
    of any size, or a number too large for an [int], is answered with 400
    Bad Request, and no upstream call has been made. *)
Theorem invalid_request_rejected (sched : list nat) (w : world U) (r : Request) :
  query_keyword r = ""
  \/ (query_limit r <> ""
      /\ (is_numeral (query_limit r) = false
          \/ numeral_value (query_limit r) <= 0
          \/ max_int64 < numeral_value (query_limit r))) ->
  exists msg,
    handlePRTimesPosts U sched w r = Some (mkOutcome U (StatusBadRequest msg) [] w).
Proof.
  unfold handlePRTimesPosts. intros [Hkw | (Hne & Hbad)].
  - rewrite Hkw. eexists; reflexivity.
  - destruct (String.eqb (query_keyword r) ""); [eexists; reflexivity|].
    unfold parseLimit. apply String.eqb_neq in Hne. rewrite Hne.
    destruct (is_numeral (query_limit r)) eqn:Hnum.
    + rewrite (Atoi_numeral _ Hnum).
      destruct ((min_int64 <=? numeral_value (query_limit r))
                && (numeral_value (query_limit r) <=? max_int64)) eqn:Hrange;
        [|eexists; reflexivity].
      apply andb_true_iff in Hrange as [_ Hmax]. apply Z.leb_le in Hmax.
      destruct Hbad as [Hfalse | [Hle | Hgt]]; [discriminate | | lia].
      apply Z.leb_le in Hle. rewrite Hle. eexists; reflexivity.
    + destruct (Atoi_not_numeral _ Hnum) as [e ->]. eexists; reflexivity.
Qed.

(** C7.  When the fetch of page 1 fails, the request is answered with
    500 Internal Server Error under every schedule, and the failed fetch
    of page 1 is the only upstream call. *)
Theorem first_page_failure_is_fatal (sched : list nat) (w w1 : world U) (r : Request)
    (limit : Z) (e : error) :
  query_keyword r <> "" ->
  parseLimit (query_limit r) = Ok limit ->
  fetchPRTimesData U w (query_keyword r) 1 = (w1, Err e) ->
  handlePRTimesPosts U sched w r
  = Some (mkOutcome U
            (StatusInternalServerError "Failed to fetch data from PR TIMES API")
            [CallListing (query_keyword r) 1 (Err e)] w1).
Proof.
  intros Hkw Hlimit Hfetch. unfold handlePRTimesPosts.
  apply String.eqb_neq in Hkw. now rewrite Hkw, Hlimit, Hfetch.
Qed.

Lemma raw_results_eq (sched : list nat) (w w1 : world U) (keyword : string)
    (fp : PRTimesResponse.t) (gs : list goroutine) (sh : shared U) :
  fetchPRTimesData U w keyword 1 = (w1, Ok fp) ->
  fan_out U keyword (PRTimesResponse.LastPage (PRTimesResponse.Data fp)) sched w1 = (gs, sh) ->
  raw_results U sched w keyword = sort_slice byLikeCount (sh_results U sh).
Proof. intros Hf Hfan. unfold raw_results. now rewrite Hf, Hfan. Qed.

(** C1, as the code has it.  When the handler answers with a sequence and
    R is the length of the sorted collection: without a limit parameter
    the sequence has length R; with a limit parameter that reads as the
    integer L, L is positive and the sequence has length min(L, R).  A
    limit parameter that reads as 0 is answered with 400 Bad Request.
    Under every scheduler the handler answers. *)
Theorem limit_truncation (sched : list nat) (w : world U) (keyword limitStr : string) :
  (forall out body,
      handlePRTimesPosts U sched w (mkRequest keyword limitStr) = Some out ->
      response U out = StatusOK body ->
      (limitStr = "" ->
       List.length body = List.length (raw_results U sched w keyword))
      /\ (forall L, limitStr <> "" -> strconv.Atoi limitStr = Ok L ->
                    0 < L
                    /\ List.length body
                       = Nat.min (Z.to_nat L) (List.length (raw_results U sched w keyword))))
  /\ (keyword <> "" -> limitStr <> "" -> strconv.Atoi limitStr = Ok 0 ->
      handlePRTimesPosts U sched w (mkRequest keyword limitStr)
      = Some (mkOutcome U
                (StatusBadRequest "limit query parameter must be a positive integer") [] w))
  /\ (forall f : nat -> nat,
        exists n out,
          handlePRTimesPosts U (decisions f n) w (mkRequest keyword limitStr) = Some out).
Proof.
  split; [|split].
  - intros out body H Hresp.
    destruct (handlePRTimesPosts_ok U _ _ _ _ _ H Hresp)
      as (limit & fp & w1 & gs & sh & Hkw & Hlimit & Hfetch & Hfan & Hfin & ->).
    cbn [query_keyword query_limit] in *. cbn [response] in Hresp. injection Hresp as <-.
    rewrite (raw_results_eq _ _ _ _ _ _ _ Hfetch Hfan), sort_slice_length, finalize_length.
    destruct (parseLimit_ok _ _ Hlimit) as [[-> ->] | (Hne & Hatoi & Hpos)].
    + split; [reflexivity|]. intros L HL. now destruct HL.
    + split; [intros ->; now destruct Hne|].
      intros L _ HL. rewrite Hatoi in HL. injection HL as <-.
      split; [assumption|].
      replace (limit >? 0) with true by (symmetry; apply Z.gtb_lt; lia). reflexivity.
  - intros Hkw Hne Hzero. unfold handlePRTimesPosts. cbn [query_keyword query_limit].
    apply String.eqb_neq in Hkw, Hne. unfold parseLimit. now rewrite Hkw, Hne, Hzero.
  - intros f. apply handlePRTimesPosts_returns.
Qed.

(** C4.  In every sequence the handler answers with, no item has fewer
    likes than the item after it; and under every scheduler the handler
    answers. *)
Theorem result_descending (sched : list nat) (w : world U) (r : Request) :
  (forall out body,
      handlePRTimesPosts U sched w r = Some out ->
      response U out = StatusOK body ->
      descending body)
  /\ (forall f : nat -> nat,
        exists n out, handlePRTimesPosts U (decisions f n) w r = Some out).
Proof.
  split; [|intros f; apply handlePRTimesPosts_returns].
  intros out body H Hresp.
  destruct (handlePRTimesPosts_ok U _ _ _ _ _ H Hresp)
    as (limit & fp & w1 & gs & sh & _ & _ & _ & _ & _ & ->).
  cbn [response] in Hresp. injection Hresp as <-. apply finalize_descending.
Qed.

(** C6, as the code has it.  When the first page has been fetched and
    every goroutine has returned, the handler answers with a sequence,
    whatever failed in the fan-out.  There is one goroutine per page from
    1 to the last page; each has made one call of the Listing Fetcher in
    the fan-out.  A goroutine whose fetch failed, that of page 1 as that
    of any other page, has appended nothing; a goroutine whose fetch
    succeeded has appended exactly one item per listing of its page, in
    the order of the listings, with the count that the lookup made for
    this listing returned, and 0 when that lookup failed.  The shared
    collection is a permutation of these items and holds nothing else:
    the listings of the first fetch of page 1, before the fan-out, give
    no item.  The answer is the collection sorted and cut to the limit:
    it is a permutation of exactly these items when there is no limit or
    the limit is not below their number, and it has only as many items as
    the limit says when the limit is below their number.  Under every
    scheduler every goroutine returns. *)
Theorem fetched_listings_yield_items (sched : list nat) (w w1 : world U) (r : Request)
    (limit : Z) (firstPageData : PRTimesResponse.t) (gs : list goroutine) (sh : shared U) :
  let keyword := query_keyword r in
  let totalPages := PRTimesResponse.LastPage (PRTimesResponse.Data firstPageData) in
  keyword <> "" ->
  parseLimit (query_limit r) = Ok limit ->
  fetchPRTimesData U w keyword 1 = (w1, Ok firstPageData) ->
  fan_out U keyword totalPages sched w1 = (gs, sh) ->
  forallb finished gs = true ->
  handlePRTimesPosts U sched w r
  = Some (mkOutcome U (StatusOK (finalize limit (sh_results U sh)))
            (CallListing keyword 1 (Ok firstPageData) :: sh_trace U sh) (sh_world U sh))
  /\ map page_of gs = pages totalPages
  /\ Forall (fun g => exists page res items,
                 g = GDone page res items
                 /\ In (CallListing keyword page res) (sh_trace U sh)
                 /\ page_items (sh_trace U sh) page res items) gs
  /\ (forall page e items, In (GDone page (Err e) items) gs -> items = [])
  /\ (forall page data items,
        In (GDone page (Ok data) items) gs ->
        List.length items
        = List.length (PRTimesResponse.ReleaseList (PRTimesResponse.Data data))
        /\ forall index release,
            nth_error (PRTimesResponse.ReleaseList (PRTimesResponse.Data data)) index
            = Some release ->
            exists res now item,
              In (CallLikeCount page index
                    (extractReleaseID (PRTimesResponse.ReleaseURL release)) res)
                 (sh_trace U sh)
              /\ (forall id' res',
                    In (CallLikeCount page index id' res') (sh_trace U sh) ->
                    id' = extractReleaseID (PRTimesResponse.ReleaseURL release)
                    /\ res' = res)
              /\ item = buildItem release now (like_or_zero res)
              /\ nth_error items index = Some item
              /\ In item (sh_results U sh))
  /\ Permutation (sh_results U sh) (flat_map out_of gs)
  /\ (forall item,
        In item (sh_results U sh) ->
        exists page data items index release,
          In (GDone page (Ok data) items) gs
          /\ In (CallListing keyword page (Ok data)) (sh_trace U sh)
          /\ nth_error (PRTimesResponse.ReleaseList (PRTimesResponse.Data data)) index
             = Some release
          /\ nth_error items index = Some item)
  /\ finalize limit (sh_results U sh)
     = (if limit >? 0
        then firstn (Z.to_nat limit) (sort_slice byLikeCount (sh_results U sh))
        else sort_slice byLikeCount (sh_results U sh))
  /\ (query_limit r = "" \/ Z.of_nat (List.length (sh_results U sh)) <= limit ->
      Permutation (finalize limit (sh_results U sh)) (flat_map out_of gs))
  /\ (query_limit r <> "" -> limit < Z.of_nat (List.length (sh_results U sh)) ->
      0 < limit
      /\ List.length (finalize limit (sh_results U sh)) = Z.to_nat limit
      /\ (List.length (finalize limit (sh_results U sh))
          < List.length (sh_results U sh))%nat)
  /\ (forall f : nat -> nat,
        exists n,
          forallb finished (fst (fan_out U keyword totalPages (decisions f n) w1)) = true).
Proof.
  intros keyword totalPages Hkw Hlimit Hfetch Hfan Hfin.
  destruct (fan_out_spec U keyword totalPages sched w1 gs sh Hfan Hfin)
    as (Hpages & Hperm & _ & Hall).
  pose proof Hall as Hall'. rewrite Forall_forall in Hall'.
  split.
  { apply (handlePRTimesPosts_complete U sched w w1 r limit firstPageData gs sh);
      assumption. }
  split; [assumption|]. split; [assumption|]. split.
  { intros page e items Hg. destruct (Hall' _ Hg) as (p' & res' & items' & E & _ & Hit).
    injection E as <- <- <-. exact Hit. }
  split.
  { intros page data items Hg. split.
    - destruct (Hall' _ Hg) as (p' & res' & items' & E & _ & Hit).
      injection E as <- <- <-. symmetry. exact (items_from_length _ _ _ _ _ Hit).
    - intros index release Hrel.
      exact (own_call U keyword _ _ _ _ _ _ _ _ _ _ Hfan Hfin Hg Hrel). }
  split; [assumption|]. split.
  { intros item Hin. apply (Permutation_in _ Hperm) in Hin.
    apply in_flat_map in Hin as (g & Hg & Hitem).
    destruct (Hall' _ Hg) as (page & res & items & -> & Hcall & Hit).
    cbn [out_of] in Hitem. destruct res as [data|e]; cbn [page_items] in Hit;
      [|subst items; contradiction].
    apply In_nth_error in Hitem as [index Hidx].
    destruct (items_from_nth_item _ _ _ _ _ _ _ Hit Hidx) as (release & Hrel & _).
    exists page, data, items, index, release. now repeat split. }
  split; [apply finalize_cases|]. split.
  { intros Hall_kept. rewrite finalize_cases, <- Hperm.
    destruct (parseLimit_ok _ _ Hlimit) as [[_ ->] | (Hne & _ & Hpos)].
    - cbn. symmetry. apply sort_slice_permutation.
    - destruct Hall_kept as [Hnone | Hlarge]; [contradiction|].
      replace (limit >? 0) with true by (symmetry; apply Z.gtb_lt; lia).
      rewrite firstn_all2 by (rewrite sort_slice_length; lia).
      symmetry. apply sort_slice_permutation. }
  split.
  { intros Hne Hsmall.
    destruct (parseLimit_ok _ _ Hlimit) as [[Hnone _] | (_ & _ & Hpos)]; [contradiction|].
    split; [exact Hpos|]. rewrite finalize_length.
    replace (limit >? 0) with true by (symmetry; apply Z.gtb_lt; lia). lia. }
  intros f. apply fan_out_terminates.
Qed.

(** C9, as the code has it.  When the first page has been fetched, its
    last page is at least 1 and every goroutine has returned: the first
    upstream call is the fetch of page 1 and the fan-out fetches page 1
    exactly once more, so page 1 is fetched twice; the items of page 1
    are those of the second fetch; and what the handler does after the
    first fetch depends on its result only through the last page. *)
Theorem first_page_fetched_twice (sched : list nat) (w w1 : world U) (r : Request)
    (limit : Z) (firstPageData : PRTimesResponse.t) (gs : list goroutine) (sh : shared U) :
  let keyword := query_keyword r in
  let totalPages := PRTimesResponse.LastPage (PRTimesResponse.Data firstPageData) in
  keyword <> "" ->
  parseLimit (query_limit r) = Ok limit ->
  fetchPRTimesData U w keyword 1 = (w1, Ok firstPageData) ->
  1 <= totalPages ->
  fan_out U keyword totalPages sched w1 = (gs, sh) ->
  forallb finished gs = true ->
  (exists out,
      handlePRTimesPosts U sched w r = Some out
      /\ calls U out = CallListing keyword 1 (Ok firstPageData) :: sh_trace U sh
      /\ count_occ Z.eq_dec (listing_pages (calls U out)) 1 = 2%nat)
  /\ count_occ Z.eq_dec (listing_pages (sh_trace U sh)) 1 = 1%nat
  /\ (exists res items,
        In (GDone 1 res items) gs
        /\ In (CallListing keyword 1 res) (sh_trace U sh)
        /\ page_items (sh_trace U sh) 1 res items)
  /\ (forall other first,
        PRTimesResponse.LastPage (PRTimesResponse.Data other) = totalPages ->
        afterFirstPage U keyword limit first other sched w1
        = afterFirstPage U keyword limit first firstPageData sched w1).
Proof.
  intros keyword totalPages Hkw Hlimit Hfetch Hlast Hfan Hfin.
  destruct (fan_out_spec U keyword totalPages sched w1 gs sh Hfan Hfin)
    as (Hpages & Hperm & Hlp & Hall).
  assert (Hcount : count_occ Z.eq_dec (listing_pages (sh_trace U sh)) 1 = 1%nat).
  { rewrite (Permutation_count_occ Z.eq_dec) in Hlp. rewrite Hlp.
    now apply pages_count_one. }
  split; [|split; [exact Hcount|split]].
  - eexists. split.
    { apply (handlePRTimesPosts_complete U sched w w1 r limit firstPageData gs sh);
        assumption. }
    cbn [calls]. split; [reflexivity|].
    cbn [listing_pages flat_map app count_occ].
    fold (listing_pages (sh_trace U sh)).
    destruct (Z.eq_dec 1 1); [|contradiction]. now rewrite Hcount.
  - assert (Hin : In 1 (map page_of gs)).
    { rewrite Hpages. apply (count_occ_In Z.eq_dec).
      rewrite pages_count_one by assumption. lia. }
    apply in_map_iff in Hin as (g & Hpage & Hg).
    rewrite Forall_forall in Hall.
    destruct (Hall g Hg) as (page & res & items & -> & Hcall & Hitems).
    cbn [page_of] in Hpage. subst page. now exists res, items.
  - intros other first Hsame. unfold afterFirstPage. now rewrite Hsame.
Qed.

(** C2, as the code has it.  In a request that the handler answers with
    a sequence: for every listing of a page that was fetched in the
    fan-out, whatever its extracted identifier is, the empty one
    included, the Popularity Fetcher has been called for this listing
    with that identifier, by one call only, and the item of the listing
    in the shared collection carries the count that this call returned,
    or 0 when this call failed.  The handler has made no other call of
    the Popularity Fetcher: none for the listings of the first fetch of
    page 1, before the fan-out.  Under every scheduler every goroutine
    returns. *)
Theorem like_count_always_fetched (sched : list nat) (w w1 : world U) (r : Request)
    (limit : Z) (firstPageData : PRTimesResponse.t) (gs : list goroutine) (sh : shared U) :
  let keyword := query_keyword r in
  let totalPages := PRTimesResponse.LastPage (PRTimesResponse.Data firstPageData) in
  let trace := CallListing keyword 1 (Ok firstPageData) :: sh_trace U sh in
  keyword <> "" ->
  parseLimit (query_limit r) = Ok limit ->
  fetchPRTimesData U w keyword 1 = (w1, Ok firstPageData) ->
  fan_out U keyword totalPages sched w1 = (gs, sh) ->
  forallb finished gs = true ->
  handlePRTimesPosts U sched w r
  = Some (mkOutcome U (StatusOK (finalize limit (sh_results U sh))) trace (sh_world U sh))
  /\ (forall page data items index release,
        In (GDone page (Ok data) items) gs ->
        nth_error (PRTimesResponse.ReleaseList (PRTimesResponse.Data data)) index
        = Some release ->
        exists res now item,
          In (CallLikeCount page index
                (extractReleaseID (PRTimesResponse.ReleaseURL release)) res) trace
          /\ (forall id' res',
                In (CallLikeCount page index id' res') trace ->
                id' = extractReleaseID (PRTimesResponse.ReleaseURL release) /\ res' = res)
          /\ item = buildItem release now (like_or_zero res)
          /\ ResponseItem.LikeCount item = like_or_zero res
          /\ nth_error items index = Some item
          /\ In item (sh_results U sh))
  /\ (forall page index id res,
        In (CallLikeCount page index id res) trace ->
        exists data items release,
          In (GDone page (Ok data) items) gs
          /\ In (CallListing keyword page (Ok data)) (sh_trace U sh)
          /\ nth_error (PRTimesResponse.ReleaseList (PRTimesResponse.Data data)) index
             = Some release
          /\ id = extractReleaseID (PRTimesResponse.ReleaseURL release))
  /\ (forall f : nat -> nat,
        exists n,
          forallb finished (fst (fan_out U keyword totalPages (decisions f n) w1)) = true).
Proof.
  intros keyword totalPages trace Hkw Hlimit Hfetch Hfan Hfin.
  assert (Htl : forall page index id res,
             In (CallLikeCount page index id res) trace ->
             In (CallLikeCount page index id res) (sh_trace U sh)).
  { intros page index id res [H|H]; [discriminate H | exact H]. }
  split.
  { apply (handlePRTimesPosts_complete U sched w w1 r limit firstPageData gs sh);
      assumption. }
  split; [|split].
  - intros page data items index release Hg Hrel.
    destruct (own_call U keyword _ _ _ _ _ _ _ _ _ _ Hfan Hfin Hg Hrel)
      as (res & now & item & Hcall & Huniq & Hitem & Hnth & Hin).
    exists res, now, item. split; [now right|]. split.
    { intros id' res' H. exact (Huniq _ _ (Htl _ _ _ _ H)). }
    split; [exact Hitem|]. split; [now rewrite Hitem|]. now split.
  - intros page index id res Hcall.
    exact (call_owner U keyword _ _ _ _ _ _ _ _ _ Hfan Hfin (Htl _ _ _ _ Hcall)).
  - intros f. apply fan_out_terminates.
Qed.

End Claims.

(** ** The claims at work *)

Section Runs.

#[local] Open Scope list_scope.

(** An outcome is known by its three fields.  The fields are evaluated one
    by one: the type of an outcome mentions the upstream, whose functions
    have no useful normal form. *)
Lemma outcome_eta (U : Upstream) (o : option (Outcome U)) r c w :
  option_map (response U) o = Some r ->
  option_map (calls U) o = Some c ->
  option_map (world_after U) o = Some w ->
  o = Some (mkOutcome U r c w).
Proof.
  destruct o as [[r' c' w']|]; cbn; [|discriminate].
  intros [= ->] [= ->] [= ->]. reflexivity.
Qed.

Ltac run_to_outcome :=
  match goal with
  | |- exists out, ?run = Some out /\ _ =>
      match type of run with
      | option (Outcome ?U) =>
          let r := eval vm_compute in (option_map (response U) run) in
          let c := eval vm_compute in (option_map (calls U) run) in
          let w := eval vm_compute in (option_map (world_after U) run) in
          match constr:((r, c, w)) with
          | (Some ?r', Some ?c', Some ?w') =>
              exists (mkOutcome U r' c' w');
              split; [apply outcome_eta; vm_compute; reflexivity|]
          end
      end
  end.

Lemma invalid_request_rejected_witness :
  exists msg,
    handlePRTimesPosts Demo.upstream Demo.fifo 0%nat
      (mkRequest "rocq 9" "-99999999999999999999")
    = Some (mkOutcome Demo.upstream (StatusBadRequest msg) [] 0%nat).
Proof.
  apply invalid_request_rejected. right. split; [discriminate|].
  right. left. vm_compute. discriminate.
Defined.

Lemma first_page_failure_is_fatal_witness :
  handlePRTimesPosts Demo.down Demo.fifo 0%nat (mkRequest "rocq 9" "5")
  = Some (mkOutcome Demo.down
            (StatusInternalServerError "Failed to fetch data from PR TIMES API")
            [CallListing "rocq 9" 1 (Err "dial tcp: timeout")] 1%nat).
Proof.
  apply (first_page_failure_is_fatal Demo.down Demo.fifo 0%nat 1%nat
           (mkRequest "rocq 9" "5") 5 "dial tcp: timeout");
    [discriminate | reflexivity | reflexivity].
Defined.

Lemma limit_truncation_witness :
  exists out,
    handlePRTimesPosts Demo.upstream Demo.fifo 0%nat (mkRequest "rocq 9" "2") = Some out
    /\ exists body,
        response Demo.upstream out = StatusOK body
        /\ List.length body
           = Nat.min (Z.to_nat 2)
               (List.length (raw_results Demo.upstream Demo.fifo 0%nat "rocq 9")).
Proof.
  run_to_outcome. eexists. split; [reflexivity|].
  refine (proj2 (proj2 (proj1 (limit_truncation Demo.upstream Demo.fifo 0%nat "rocq 9" "2")
                          _ _ _ _) 2 _ _)).
  - apply outcome_eta; vm_compute; reflexivity.
  - reflexivity.
  - discriminate.
  - reflexivity.
Defined.

(** C1 as stated fails for a limit equal to 0: the request is rejected
    and no sequence of the raw length 3 is returned. *)
Lemma limit_zero_counterexample :
  strconv.Atoi "0" = Ok 0
  /\ handlePRTimesPosts Demo.upstream Demo.fifo 0%nat (mkRequest "rocq 9" "0")
     = Some (mkOutcome Demo.upstream
               (StatusBadRequest "limit query parameter must be a positive integer")
               [] 0%nat)
  /\ List.length (raw_results Demo.upstream Demo.fifo 0%nat "rocq 9") = 3%nat.
Proof. repeat split; vm_compute; reflexivity. Qed.

Lemma result_descending_witness :
  exists out,
    handlePRTimesPosts Demo.upstream Demo.mixed 0%nat (mkRequest "rocq 9" "") = Some out
    /\ exists body,
        response Demo.upstream out = StatusOK body
        /\ map ResponseItem.LikeCount body = [12; 7; 5]
        /\ descending body.
Proof.
  run_to_outcome. eexists. split; [reflexivity|]. split; [reflexivity|].
  refine (proj1 (result_descending Demo.upstream Demo.mixed 0%nat (mkRequest "rocq 9" ""))
            _ _ _ _).
  - apply outcome_eta; vm_compute; reflexivity.
  - reflexivity.
Defined.

Lemma fetched_listings_yield_items_witness :
  map page_of (fst Demo.barrier) = [1; 2; 3]
  /\ Permutation (sh_results Demo.upstream (snd Demo.barrier))
                 (flat_map out_of (fst Demo.barrier))
  /\ exists e, In (GDone 2 (Err e) []) (fst Demo.barrier).
Proof.
  destruct (fetched_listings_yield_items Demo.upstream Demo.fifo 0%nat 1%nat
              (mkRequest "rocq 9" "") 0 Demo.first_page
              (fst Demo.barrier) (snd Demo.barrier))
    as (_ & Hpages & _ & _ & _ & Hperm & _).
  - discriminate.
  - reflexivity.
  - reflexivity.
  - reflexivity.
  - reflexivity.
  - split; [exact Hpages|]. split; [exact Hperm|].
    eexists. right. left. reflexivity.
Defined.

(** C6 as stated fails twice.  The first fetch of page 1 succeeds with
    the listing of Stale in it, and no item of the shared collection or of
    the answer is the item of that listing.  And under a limit of 1 the
    fan-out fetches page 1 with the listing of Alpha in it, and the
    answer of one item does not hold the item of that listing. *)
Lemma limit_cuts_items_counterexample :
  (fetchPRTimesData Demo.upstream 0%nat "rocq 9" 1 = (1%nat, Ok Demo.first_page)
   /\ In Demo.relOld (PRTimesResponse.ReleaseList (PRTimesResponse.Data Demo.first_page))
   /\ fan_out Demo.upstream "rocq 9" 3 Demo.fifo 1%nat = Demo.barrier
   /\ forallb finished (fst Demo.barrier) = true
   /\ ~ In (PRTimesResponse.Title Demo.relOld)
           (map ResponseItem.Title (sh_results Demo.upstream (snd Demo.barrier))))
  /\ exists out,
      handlePRTimesPosts Demo.upstream Demo.fifo 0%nat (mkRequest "rocq 9" "1") = Some out
      /\ exists body data,
          response Demo.upstream out = StatusOK body
          /\ In (CallListing "rocq 9" 1 (Ok data)) (tl (calls Demo.upstream out))
          /\ In Demo.relA (PRTimesResponse.ReleaseList (PRTimesResponse.Data data))
          /\ ~ In (PRTimesResponse.Title Demo.relA) (map ResponseItem.Title body)
          /\ List.length body = 1%nat.
Proof.
  split.
  { split; [reflexivity|]. split; [left; reflexivity|]. split; [reflexivity|].
    split; [reflexivity|].
    vm_compute. intros [H|[H|[H|[]]]]; discriminate H. }
  run_to_outcome. eexists. eexists. split; [reflexivity|].
  split; [left; reflexivity|]. split; [left; reflexivity|].
  split; [|reflexivity].
  vm_compute. intros [H|[]]. discriminate H.
Qed.

Lemma first_page_fetched_twice_witness :
  count_occ Z.eq_dec (listing_pages (sh_trace Demo.upstream (snd Demo.barrier))) 1 = 1%nat
  /\ exists out,
      handlePRTimesPosts Demo.upstream Demo.fifo 0%nat (mkRequest "rocq 9" "") = Some out
      /\ count_occ Z.eq_dec (listing_pages (calls Demo.upstream out)) 1 = 2%nat.
Proof.
  destruct (first_page_fetched_twice Demo.upstream Demo.fifo 0%nat 1%nat
              (mkRequest "rocq 9" "") 0 Demo.first_page
              (fst Demo.barrier) (snd Demo.barrier))
    as ((out & Hout & _ & Htwo) & Hone & _).
  - discriminate.
  - reflexivity.
  - reflexivity.
  - cbn. lia.
  - reflexivity.
  - reflexivity.
  - split; [exact Hone|]. exists out. split; [exact Hout | exact Htwo].
Defined.

(** C9 as stated fails when the first page reports no page: the request
    succeeds and page 1 has been fetched once. *)
Lemma single_fetch_counterexample :
  handlePRTimesPosts Demo.empty Demo.fifo 0%nat (mkRequest "rocq 9" "")
  = Some (mkOutcome Demo.empty (StatusOK [])
            [CallListing "rocq 9" 1
               (Ok (PRTimesResponse.mk (PRTimesResponse.mkData 1 0 []) 200 "ok"))]
            1%nat)
  /\ forall out,
      handlePRTimesPosts Demo.empty Demo.fifo 0%nat (mkRequest "rocq 9" "") = Some out ->
      count_occ Z.eq_dec (listing_pages (calls Demo.empty out)) 1 = 1%nat.
Proof.
  assert (H : handlePRTimesPosts Demo.empty Demo.fifo 0%nat (mkRequest "rocq 9" "")
              = Some (mkOutcome Demo.empty (StatusOK [])
                        [CallListing "rocq 9" 1
                           (Ok (PRTimesResponse.mk (PRTimesResponse.mkData 1 0 []) 200 "ok"))]
                        1%nat)) by (vm_compute; reflexivity).
  split; [exact H|]. intros out Hout. rewrite H in Hout. injection Hout as <-.
  reflexivity.
Qed.

Lemma like_count_always_fetched_witness :
  exists res now item,
    In (CallLikeCount 1 1 (extractReleaseID (PRTimesResponse.ReleaseURL Demo.relB)) res)
       (sh_trace Demo.upstream (snd Demo.barrier))
    /\ item = buildItem Demo.relB now (like_or_zero res)
    /\ In item (sh_results Demo.upstream (snd Demo.barrier)).
Proof.
  destruct (like_count_always_fetched Demo.upstream Demo.fifo 0%nat 1%nat
              (mkRequest "rocq 9" "") 0 Demo.first_page
              (fst Demo.barrier) (snd Demo.barrier))
    as (_ & Hown & _).
  - discriminate.
  - reflexivity.
  - reflexivity.
  - reflexivity.
  - reflexivity.
  - destruct (Hown 1
                (PRTimesResponse.mk (PRTimesResponse.mkData 1 3 [Demo.relA; Demo.relB])
                   200 "ok")
                _ 1%nat Demo.relB ltac:(left; reflexivity) eq_refl)
      as (res & now & item & [Hcall|Hcall] & _ & Hitem & _ & _ & Hin);
      [discriminate Hcall|].
    exists res, now, item. repeat split; assumption.
Defined.

(** C2 as stated fails: the listing of Beta has no identifier, and the
    Popularity Fetcher is called for it with the empty identifier all the
    same; the call succeeds and the item carries its 7 likes, not 0. *)
Lemma empty_identifier_counterexample :
  extractReleaseID (PRTimesResponse.ReleaseURL Demo.relB) = ""
  /\ exists out,
      handlePRTimesPosts Demo.upstream Demo.fifo 0%nat (mkRequest "rocq 9" "") = Some out
      /\ exists body item,
          response Demo.upstream out = StatusOK body
          /\ In (CallLikeCount 1 1 "" (Ok 7)) (calls Demo.upstream out)
          /\ In item body
          /\ ResponseItem.Title item = PRTimesResponse.Title Demo.relB
          /\ ResponseItem.LikeCount item = 7.
Proof.
  split; [reflexivity|].
  run_to_outcome. eexists. eexists. split; [reflexivity|].
  split; [do 3 right; left; reflexivity|].
  split; [right; left; reflexivity|].
  split; reflexivity.
Qed.

End Runs.

(** * Further properties of the code *)

(** ** Package strconv: what is printed is read back *)

Lemma digit_char_ok (d : Z) :
  0 <= d < 10 -> is_digit (digit_char d) = true /\ digit_val (digit_char d) = d.
Proof.
  intros H.
  assert (E : d = 0 \/ d = 1 \/ d = 2 \/ d = 3 \/ d = 4 \/ d = 5 \/ d = 6 \/ d = 7
              \/ d = 8 \/ d = 9) by lia.
  repeat (destruct E as [-> | E]; [split; reflexivity|]). subst d. split; reflexivity.
Qed.

Lemma all_digits_append (x y : string) :
  all_digits (x ++ y) = all_digits x && all_digits y.
Proof.
  induction x as [|c x IH]; cbn [append all_digits]; [reflexivity|].
  now rewrite IH, andb_assoc.
Qed.

Lemma digits_value_append (x y : string) (a : Z) :
  strconv.digits_value a (x ++ y)
  = match strconv.digits_value a x with
    | Some v => strconv.digits_value v y
    | None => None
    end.
Proof.
  revert a. induction x as [|c x IH]; intros a; cbn [append strconv.digits_value];
    [reflexivity|].
  destruct (is_digit c); [apply IH | reflexivity].
Qed.

Lemma utoa_spec (fuel : nat) :
  forall (u : Z) (acc : string),
    0 <= u < 2 ^ Z.of_nat (S fuel) ->
    exists ds,
      strconv.utoa (S fuel) u acc = ds ++ acc
      /\ ds <> ""
      /\ all_digits ds = true
      /\ forall a, strconv.digits_value a ds
                   = Some (a * 10 ^ Z.of_nat (String.length ds) + u).
Proof.
  induction fuel as [|fuel IH]; intros u acc Hu.
  - assert (Hd : u / 10 = 0) by (apply Z.div_small; cbn in Hu; lia).
    cbn [strconv.utoa]. rewrite Hd. cbn [Z.eqb].
    assert (Hm : u mod 10 = u) by (apply Z.mod_small; cbn in Hu; lia).
    rewrite Hm. destruct (digit_char_ok u) as [H1 H2]; [cbn in Hu; lia|].
    exists (String (digit_char u) ""). repeat split.
    + discriminate.
    + cbn [all_digits]. now rewrite H1.
    + intros a. cbn [strconv.digits_value String.length]. rewrite H1, H2.
      f_equal. change (10 ^ Z.of_nat 1) with 10. lia.
  - change (strconv.utoa (S (S fuel)) u acc)
      with (if u / 10 =? 0 then String (digit_char (u mod 10)) acc
            else strconv.utoa (S fuel) (u / 10) (String (digit_char (u mod 10)) acc)).
    pose proof (Z.mod_pos_bound u 10 ltac:(lia)) as Hm.
    destruct (digit_char_ok (u mod 10) Hm) as [H1 H2].
    pose proof (Z.div_mod u 10 ltac:(lia)) as Hdm.
    destruct (u / 10 =? 0) eqn:Hz.
    + apply Z.eqb_eq in Hz.
      exists (String (digit_char (u mod 10)) ""). repeat split.
      * discriminate.
      * cbn [all_digits]. now rewrite H1.
      * intros a. cbn [strconv.digits_value String.length]. rewrite H1, H2.
        f_equal. change (10 ^ Z.of_nat 1) with 10. lia.
    + apply Z.eqb_neq in Hz.
      assert (Hq : 0 <= u / 10 < 2 ^ Z.of_nat (S fuel)).
      { split; [apply Z.div_pos; lia|].
        apply Z.div_lt_upper_bound; [lia|].
        rewrite (Nat2Z.inj_succ (S fuel)), Z.pow_succ_r in Hu by lia. lia. }
      destruct (IH (u / 10) (String (digit_char (u mod 10)) acc) Hq)
        as (ds & Hds & Hne & Hall & Hval).
      exists (ds ++ String (digit_char (u mod 10)) ""). repeat split.
      * rewrite Hds, append_assoc. reflexivity.
      * destruct ds; [congruence | discriminate].
      * rewrite all_digits_append, Hall. cbn [all_digits]. now rewrite H1.
      * intros a. rewrite digits_value_append, Hval.
        cbn [strconv.digits_value]. rewrite H1, H2. f_equal.
        rewrite length_append. cbn [String.length].
        rewrite Nat.add_1_r, Nat2Z.inj_succ, Z.pow_succ_r by lia. lia.
Qed.

(** The decimal form of an integer: a minus sign for a negative one, then
    the digits of its absolute value, at least one. *)
Lemma Itoa_digits (n : Z) :
  exists ds,
    strconv.Itoa n = (if n <? 0 then String "-" ds else ds)
    /\ ds <> ""
    /\ all_digits ds = true
    /\ forall a, strconv.digits_value a ds
                 = Some (a * 10 ^ Z.of_nat (String.length ds) + Z.abs n).
Proof.
  unfold strconv.Itoa.
  assert (Hu : 0 <= Z.abs n < 2 ^ Z.of_nat (S (Z.to_nat (Z.log2 (Z.abs n))))).
  { split; [lia|].
    rewrite Nat2Z.inj_succ, Z2Nat.id by apply Z.log2_nonneg.
    destruct (Z.eq_dec (Z.abs n) 0) as [E|E].
    - rewrite E. reflexivity.
    - apply Z.log2_spec. lia. }
  destruct (utoa_spec _ _ "" Hu) as (ds & Hds & Hne & Hall & Hval).
  rewrite append_nil_r in Hds. exists ds. rewrite Hds. now repeat split.
Qed.

Lemma Atoi_digits (ds : string) (v : Z) :
  ds <> "" -> all_digits ds = true -> strconv.digits_value 0 ds = Some v ->
  0 <= v <= max_int64 ->
  strconv.Atoi ds = Ok v
  /\ strconv.Atoi (String "+" ds) = Ok v
  /\ strconv.Atoi (String "-" ds) = Ok (- v)
  /\ strconv.Atoi (String "0" ds) = Ok v.
Proof.
  intros Hne Hall Hval Hv.
  assert (Hr : (min_int64 <=? v) && (v <=? max_int64) = true).
  { apply andb_true_iff. unfold min_int64, max_int64 in *. split; apply Z.leb_le; lia. }
  assert (Hr' : (min_int64 <=? - v) && (- v <=? max_int64) = true).
  { apply andb_true_iff. unfold min_int64, max_int64 in *. split; apply Z.leb_le; lia. }
  destruct ds as [|c ds]; [congruence|].
  pose proof Hall as Hc. cbn [all_digits] in Hc. apply andb_true_iff in Hc as [Hc _].
  destruct (digit_not_sign c Hc) as [Hm Hp].
  repeat split.
  - unfold strconv.Atoi. rewrite Hm, Hp. cbn [orb]. now rewrite Hval, Hr.
  - unfold strconv.Atoi. cbn [Ascii.eqb Bool.eqb orb]. now rewrite Hval, Hr.
  - unfold strconv.Atoi. cbn [Ascii.eqb Bool.eqb orb]. now rewrite Hval, Hr'.
  - unfold strconv.Atoi. cbn [Ascii.eqb Bool.eqb orb].
    change (strconv.digits_value 0 (String "0" (String c ds)))
      with (strconv.digits_value 0 (String c ds)).
    now rewrite Hval, Hr.
Qed.

Lemma Itoa_read_back (n : Z) :
  min_int64 <= n <= max_int64 -> strconv.Atoi (strconv.Itoa n) = Ok n.
Proof.
  intros Hn. destruct (Itoa_digits n) as (ds & Hds & Hne & Hall & Hval).
  specialize (Hval 0). rewrite Z.mul_0_l, Z.add_0_l in Hval.
  rewrite Hds. destruct (n <? 0) eqn:Hneg.
  - apply Z.ltb_lt in Hneg.
    destruct ds as [|c ds]; [congruence|].
    pose proof Hall as Hc. cbn [all_digits] in Hc. apply andb_true_iff in Hc as [Hc _].
    unfold strconv.Atoi. cbn [Ascii.eqb Bool.eqb orb]. rewrite Hval.
    replace (- Z.abs n) with n by lia.
    replace ((min_int64 <=? n) && (n <=? max_int64)) with true; [reflexivity|].
    symmetry. apply andb_true_iff. split; apply Z.leb_le; lia.
  - apply Z.ltb_ge in Hneg. rewrite Z.abs_eq in Hval by lia.
    apply (Atoi_digits ds n Hne Hall Hval). lia.
Qed.

(** [strconv.Atoi] reads back what [strconv.Itoa] (the verb [%d]) prints,
    for every [int]; so two integers with the same decimal form are
    equal. *)
Theorem Atoi_Itoa (n : Z) :
  min_int64 <= n <= max_int64 ->
  strconv.Atoi (strconv.Itoa n) = Ok n
  /\ forall m, min_int64 <= m <= max_int64 -> strconv.Itoa n = strconv.Itoa m -> n = m.
Proof.
  intros Hn. split; [now apply Itoa_read_back|].
  intros m Hm E. pose proof (Itoa_read_back n Hn) as H.
  rewrite E, (Itoa_read_back m Hm) in H. now injection H.
Qed.

Lemma Atoi_Itoa_witness : strconv.Atoi (strconv.Itoa (- 40)) = Ok (- 40).
Proof. apply (proj1 (Atoi_Itoa (- 40) ltac:(unfold min_int64, max_int64; lia))). Defined.

(** ** The limit parameter *)

Lemma parseLimit_spellings (n : Z) :
  0 < n <= max_int64 ->
  parseLimit (strconv.Itoa n) = Ok n
  /\ parseLimit (String "+" (strconv.Itoa n)) = Ok n
  /\ parseLimit (String "0" (strconv.Itoa n)) = Ok n
  /\ parseLimit (String "-" (strconv.Itoa n)) = Err "not positive".
Proof.
  intros Hn. destruct (Itoa_digits n) as (ds & Hds & Hne & Hall & Hval).
  specialize (Hval 0). rewrite Z.mul_0_l, Z.add_0_l, Z.abs_eq in Hval by lia.
  assert (Hneg : (n <? 0) = false) by (apply Z.ltb_ge; lia).
  rewrite Hneg in Hds. rewrite Hds.
  destruct (Atoi_digits ds n Hne Hall Hval ltac:(lia)) as (H1 & H2 & H3 & H4).
  assert (Hpos : (n <=? 0) = false) by (apply Z.leb_gt; lia).
  assert (Hpos' : (- n <=? 0) = true) by (apply Z.leb_le; lia).
  unfold parseLimit. rewrite H1, H2, H3, H4, Hpos, Hpos'.
  destruct ds as [|c ds]; [congruence|]. repeat split.
Qed.

Section LimitSpellings.

Context (U : Upstream) {sorter : SliceSorter}.

(** The limit is read by [strconv.Atoi]: a plus sign or a leading zero
    before the decimal form of a positive limit changes nothing of what
    the handler does, and a minus sign before it is answered with 400
    before any upstream call. *)
Theorem limit_spellings (sched : list nat) (w : world U) (keyword : string) (n : Z) :
  0 < n <= max_int64 ->
  handlePRTimesPosts U sched w (mkRequest keyword (String "+" (strconv.Itoa n)))
  = handlePRTimesPosts U sched w (mkRequest keyword (strconv.Itoa n))
  /\ handlePRTimesPosts U sched w (mkRequest keyword (String "0" (strconv.Itoa n)))
     = handlePRTimesPosts U sched w (mkRequest keyword (strconv.Itoa n))
  /\ (keyword <> "" ->
      handlePRTimesPosts U sched w (mkRequest keyword (String "-" (strconv.Itoa n)))
      = Some (mkOutcome U
                (StatusBadRequest "limit query parameter must be a positive integer") [] w)).
Proof.
  intros Hn. destruct (parseLimit_spellings n Hn) as (H1 & H2 & H3 & H4).
  unfold handlePRTimesPosts. cbn [query_keyword query_limit].
  rewrite H1, H2, H3, H4. repeat split.
  intros Hk. apply String.eqb_neq in Hk. now rewrite Hk.
Qed.

End LimitSpellings.

Lemma limit_spellings_witness :
  handlePRTimesPosts Demo.upstream Demo.fifo 0%nat (mkRequest "rocq 9" "+2")
  = handlePRTimesPosts Demo.upstream Demo.fifo 0%nat (mkRequest "rocq 9" "2").
Proof.
  refine (proj1 (limit_spellings Demo.upstream Demo.fifo 0%nat "rocq 9" 2 _)).
  unfold max_int64. lia.
Defined.

(** ** The request for a page of listings *)

Lemma all_bytes_append (p : ascii -> bool) (x y : string) :
  all_bytes p (x ++ y) = all_bytes p x && all_bytes p y.
Proof.
  induction x as [|c x IH]; cbn [append all_bytes]; [reflexivity|].
  now rewrite IH, andb_assoc.
Qed.

Lemma all_bytes_impl (p q : ascii -> bool) (s : string) :
  (forall c, p c = true -> q c = true) -> all_bytes p s = true -> all_bytes q s = true.
Proof.
  intros Hpq. induction s as [|c s IH]; cbn [all_bytes]; [reflexivity|].
  intros H. apply andb_true_iff in H as [H1 H2]. now rewrite (Hpq c H1), IH.
Qed.

Lemma all_digits_bytes (s : string) : all_digits s = all_bytes is_digit s.
Proof. induction s as [|c s IH]; cbn [all_digits all_bytes]; [reflexivity | now rewrite IH]. Qed.

Lemma QueryEscape_step (c : ascii) (s : string) :
  url.QueryEscape (String c s) = url.QueryEscape (String c "") ++ url.QueryEscape s.
Proof.
  cbn [url.QueryEscape].
  destruct (Ascii.eqb c " "); [reflexivity|].
  destruct (url.unreserved c); reflexivity.
Qed.

Lemma escaped_byte_safe (c : ascii) :
  all_bytes query_safe (url.QueryEscape (String c "")) = true.
Proof.
  destruct c as [[] [] [] [] [] [] [] []]; reflexivity.
Qed.

Lemma unescape_byte (c : ascii) (r : string) :
  unescape (url.QueryEscape (String c "") ++ r) = String c (unescape r).
Proof.
  destruct c as [[] [] [] [] [] [] [] []]; reflexivity.
Qed.

Lemma escaped_bytes_safe (s : string) :
  all_bytes query_safe (url.QueryEscape s) = true.
Proof.
  induction s as [|c s IH]; [reflexivity|].
  now rewrite QueryEscape_step, all_bytes_append, escaped_byte_safe, IH.
Qed.

Lemma unescape_escaped (s : string) : unescape (url.QueryEscape s) = s.
Proof.
  induction s as [|c s IH]; [reflexivity|].
  now rewrite QueryEscape_step, unescape_byte, IH.
Qed.

(** [url.QueryEscape] writes only unreserved bytes, [+] and [%]: the
    escaped keyword holds no [&], [=], [#], [?], [/] and no space. *)
Theorem QueryEscape_safe (s : string) :
  all_bytes query_safe (url.QueryEscape s) = true
  /\ all_bytes (fun c => negb (existsb (Ascii.eqb c)
                                  (list_ascii_of_string "&=#?/ ")))
       (url.QueryEscape s) = true.
Proof.
  pose proof (escaped_bytes_safe s) as H.
  split; [exact H|].
  revert H. apply all_bytes_impl.
  intros c Hc. destruct c as [[] [] [] [] [] [] [] []]; try reflexivity; discriminate Hc.
Qed.

(** The escaped keyword is read back to the keyword, so two keywords with
    the same escaped form are equal. *)
Theorem QueryEscape_unescape (s : string) :
  unescape (url.QueryEscape s) = s
  /\ forall t, url.QueryEscape s = url.QueryEscape t -> s = t.
Proof.
  split; [apply unescape_escaped|].
  intros t E. rewrite <- (unescape_escaped s), E. apply unescape_escaped.
Qed.

Lemma append_cancel_l (p a b : string) : p ++ a = p ++ b -> a = b.
Proof.
  induction p as [|c p IH]; cbn [append]; [trivial|].
  intros H. injection H as H. now apply IH.
Qed.

(** Two texts that are cut at the first byte outside [p] are cut alike. *)
Lemma split_at_mark (p : ascii -> bool) (c : ascii) (a a' r r' : string) :
  all_bytes p a = true -> all_bytes p a' = true -> p c = false ->
  a ++ String c r = a' ++ String c r' -> a = a' /\ r = r'.
Proof.
  intros Ha Ha' Hc. revert a' Ha'.
  induction a as [|x a IH]; intros [|x' a'] Ha' H; cbn [append all_bytes] in *.
  - injection H as ->. now split.
  - injection H as -> _. apply andb_true_iff in Ha' as [Hx _]. congruence.
  - injection H as -> _. apply andb_true_iff in Ha as [Hx _]. congruence.
  - injection H as -> H.
    apply andb_true_iff in Ha as [_ Ha]. apply andb_true_iff in Ha' as [_ Ha'].
    destruct (IH Ha a' Ha' H) as [-> ->]. now split.
Qed.

Lemma Itoa_bytes (n : Z) :
  all_bytes (fun c => is_digit c || Ascii.eqb c "-") (strconv.Itoa n) = true.
Proof.
  destruct (Itoa_digits n) as (ds & -> & _ & Hall & _).
  rewrite all_digits_bytes in Hall.
  assert (H : all_bytes (fun c => is_digit c || Ascii.eqb c "-") ds = true).
  { revert Hall. apply all_bytes_impl. intros c ->. reflexivity. }
  destruct (n <? 0); [cbn [all_bytes]; now rewrite H | exact H].
Qed.

Section Requests.

Context (U : Upstream).

(** [fetchPRTimesData] asks the listing endpoint for one URL, and the URL
    tells the keyword and the page: the escaped keyword cannot end the
    parameter it stands in, so two requests for the same URL are requests
    for the same page of the same keyword. *)
Theorem listing_request_injective (w : world U) (keyword keyword' : string)
    (page page' : Z) :
  min_int64 <= page <= max_int64 ->
  min_int64 <= page' <= max_int64 ->
  fetchPRTimesData U w keyword page = get_listing U w (listing_request keyword page)
  /\ (listing_request keyword page = listing_request keyword' page' ->
      keyword = keyword' /\ page = page').
Proof.
  intros Hp Hp'. split; [reflexivity|].
  unfold listing_request. intros H. apply append_cancel_l in H.
  change ("&page=" ++ strconv.Itoa page ++ "&limit=40")
    with (String "&" ("page=" ++ strconv.Itoa page ++ "&limit=40")) in H.
  change ("&page=" ++ strconv.Itoa page' ++ "&limit=40")
    with (String "&" ("page=" ++ strconv.Itoa page' ++ "&limit=40")) in H.
  apply (split_at_mark query_safe) in H as [Hk H];
    [| apply escaped_bytes_safe | apply escaped_bytes_safe | reflexivity].
  split.
  - rewrite <- (unescape_escaped keyword), Hk. apply unescape_escaped.
  - apply (append_cancel_l "page=") in H.
    change ("&limit=40") with (String "&" "limit=40") in H.
    apply (split_at_mark (fun c => is_digit c || Ascii.eqb c "-")) in H as [Hi _];
      [| apply Itoa_bytes | apply Itoa_bytes | reflexivity].
    pose proof (Itoa_read_back page Hp) as E. rewrite Hi, (Itoa_read_back page' Hp') in E.
    now injection E.
Qed.

End Requests.

Lemma listing_request_injective_witness :
  listing_request "rocq 9" 3
  = "https://prtimes.jp/api/keyword_search.php/search?keyword=rocq+9&page=3&limit=40"
  /\ fetchPRTimesData Demo.upstream 0%nat "rocq 9" 3
     = get_listing Demo.upstream 0%nat (listing_request "rocq 9" 3)
  /\ ("rocq 9" = "rocq 9" /\ 3 = 3).
Proof.
  assert (H := listing_request_injective Demo.upstream 0%nat "rocq 9" "rocq 9" 3 3
                 ltac:(unfold min_int64, max_int64; lia)
                 ltac:(unfold min_int64, max_int64; lia)).
  split; [reflexivity|]. split; [exact (proj1 H) | exact (proj2 H eq_refl)].
Defined.

(** ** The request for a like count *)

Lemma extractReleaseID_digits_and_dots (u : string) :
  all_bytes (fun c => is_digit c || Ascii.eqb c ".") (extractReleaseID u) = true.
Proof.
  destruct (extractReleaseID_cases u)
    as [[-> _] | (pre & a & b & post & ((Ha & Hb & _) & _) & ->)]; [reflexivity|].
  destruct Ha as [_ Ha], Hb as [_ Hb]. rewrite all_digits_bytes in Ha, Hb.
  rewrite !all_bytes_append. cbn [all_bytes].
  assert (H : forall x, all_bytes is_digit x = true ->
                        all_bytes (fun c => is_digit c || Ascii.eqb c ".") x = true).
  { intros x. apply all_bytes_impl. intros c ->. reflexivity. }
  now rewrite (H a Ha), (H b Hb).
Qed.

Section LikeRequests.

Context (U : Upstream).

(** [fetchLikeCount] puts the identifier into the path of its URL as it
    is.  An identifier that [extractReleaseID] returns is made of digits
    and dots only, so it stays one segment of the path, and the URL tells
    the identifier; the world after the call is the one the endpoint
    leaves. *)
Theorem like_request_of_release (w : world U) (u u' : string) :
  all_bytes (fun c => is_digit c || Ascii.eqb c ".") (extractReleaseID u) = true
  /\ fst (fetchLikeCount U w (extractReleaseID u))
     = fst (get_like_count U w (like_request (extractReleaseID u)))
  /\ (like_request (extractReleaseID u) = like_request (extractReleaseID u') ->
      extractReleaseID u = extractReleaseID u').
Proof.
  split; [apply extractReleaseID_digits_and_dots|]. split.
  - unfold fetchLikeCount, like_request.
    destruct (get_like_count U w _) as [w' [resp|e]]; reflexivity.
  - unfold like_request. intros H. apply append_cancel_l in H.
    change "/like_count" with (String "/" "like_count") in H.
    apply (split_at_mark (fun c => is_digit c || Ascii.eqb c ".")) in H as [H _];
      [exact H | apply extractReleaseID_digits_and_dots
       | apply extractReleaseID_digits_and_dots | reflexivity].
Qed.

End LikeRequests.

Lemma like_request_of_release_witness :
  extractReleaseID "/main/html/rd/p/123.456.html"
  = extractReleaseID "https://prtimes.jp/main/html/rd/p/123.456.html?x=1".
Proof.
  exact (proj2 (proj2 (like_request_of_release Demo.upstream 0%nat
                         "/main/html/rd/p/123.456.html"
                         "https://prtimes.jp/main/html/rd/p/123.456.html?x=1")) eq_refl).
Defined.

(** ** The fan-out, page by page *)

Section FanOutPages.

#[local] Open Scope list_scope.

Lemma pages_In (totalPages p : Z) : In p (pages totalPages) <-> 1 <= p <= totalPages.
Proof.
  unfold pages. rewrite in_map_iff. split.
  - intros (n & <- & Hn). apply in_seq in Hn. lia.
  - intros Hp. exists (Z.to_nat p). split; [lia|]. apply in_seq. lia.
Qed.

Lemma pages_count (totalPages p : Z) :
  count_occ Z.eq_dec (pages totalPages) p
  = if (1 <=? p) && (p <=? totalPages) then 1%nat else 0%nat.
Proof.
  destruct ((1 <=? p) && (p <=? totalPages)) eqn:E.
  - apply andb_true_iff in E as [E1 E2]. apply Z.leb_le in E1, E2.
    assert (Hin : In p (pages totalPages)) by (apply pages_In; lia).
    pose proof (proj1 (NoDup_count_occ Z.eq_dec _) (pages_NoDup totalPages) p) as Hle.
    pose proof (proj1 (count_occ_In Z.eq_dec _ p) Hin) as Hge. lia.
  - apply count_occ_not_In. rewrite pages_In. intros [H1 H2].
    apply Z.leb_le in H1, H2. now rewrite H1, H2 in E.
Qed.

Lemma In_finalize {sorter : SliceSorter} (limit : Z) (results : list ResponseItem.t)
    (item : ResponseItem.t) :
  In item (finalize limit results) -> In item results.
Proof.
  rewrite finalize_cases. intros H.
  apply (Permutation_in _ (Permutation_sym (sort_slice_permutation _ byLikeCount results))).
  destruct (limit >? 0); [|exact H].
  rewrite <- (firstn_skipn (Z.to_nat limit)). apply in_or_app. now left.
Qed.

Context (U : Upstream) {sorter : SliceSorter}.

(** At [wg.Wait()] every page from 1 to the last page has been asked for
    exactly once by the fan-out, and no other page; with the fetch of the
    first page before it, a successful request has made one call of the
    Listing Fetcher more than there are pages. *)
Theorem pages_fetched_once (sched : list nat) (w : world U) (r : Request)
    (out : Outcome U) (body : list ResponseItem.t) :
  handlePRTimesPosts U sched w r = Some out ->
  response U out = StatusOK body ->
  exists first,
    hd_error (calls U out) = Some (CallListing (query_keyword r) 1 (Ok first))
    /\ let totalPages := PRTimesResponse.LastPage (PRTimesResponse.Data first) in
       (forall p, count_occ Z.eq_dec (listing_pages (tl (calls U out))) p
                  = if (1 <=? p) && (p <=? totalPages) then 1%nat else 0%nat)
       /\ List.length (listing_pages (calls U out)) = S (Z.to_nat totalPages).
Proof.
  intros H Hresp.
  destruct (handlePRTimesPosts_ok U _ _ _ _ _ H Hresp)
    as (limit & fp & w1 & gs & sh & Hkw & Hlimit & Hfetch & Hfan & Hfin & ->).
  destruct (fan_out_spec U _ _ _ _ _ _ Hfan Hfin) as (_ & _ & Hlp & _).
  exists fp. cbn [calls hd_error tl]. split; [reflexivity|]. split.
  - intros p. rewrite (Permutation_count_occ Z.eq_dec) in Hlp. rewrite Hlp.
    apply pages_count.
  - cbn [listing_pages flat_map List.app List.length]. f_equal.
    change (flat_map _ (sh_trace U sh)) with (listing_pages (sh_trace U sh)).
    rewrite (Permutation_length Hlp). unfold pages.
    now rewrite length_map, length_seq.
Qed.

(** Every item of an answer is the item of a listing that the fan-out has
    fetched: the handler answers with nothing that is not on a page of the
    search.  The item has the fields of the listing, the like count of the
    call of the Popularity Fetcher made for this listing with the
    identifier of the listing, or 0 when that call failed, and its post
    URL is the path of the listing behind [https://prtimes.jp]. *)
Theorem answer_items_have_listings (sched : list nat) (w : world U) (r : Request)
    (out : Outcome U) (body : list ResponseItem.t) (item : ResponseItem.t) :
  handlePRTimesPosts U sched w r = Some out ->
  response U out = StatusOK body ->
  In item body ->
  exists page data release index now res,
    In (CallListing (query_keyword r) page (Ok data)) (tl (calls U out))
    /\ In release (PRTimesResponse.ReleaseList (PRTimesResponse.Data data))
    /\ nth_error (PRTimesResponse.ReleaseList (PRTimesResponse.Data data)) index
       = Some release
    /\ In (CallLikeCount page index
             (extractReleaseID (PRTimesResponse.ReleaseURL release)) res)
          (calls U out)
    /\ item = buildItem release now (like_or_zero res)
    /\ ResponseItem.PostURL item
       = ("https://prtimes.jp" ++ PRTimesResponse.ReleaseURL release)%string
    /\ ResponseItem.Title item = PRTimesResponse.Title release
    /\ ResponseItem.CorporationName item = PRTimesResponse.CompanyName release.
Proof.
  intros H Hresp Hin.
  destruct (handlePRTimesPosts_ok U _ _ _ _ _ H Hresp)
    as (limit & fp & w1 & gs & sh & Hkw & Hlimit & Hfetch & Hfan & Hfin & ->).
  cbn [response] in Hresp. injection Hresp as <-.
  destruct (fan_out_spec U _ _ _ _ _ _ Hfan Hfin) as (_ & Hperm & _ & Hall).
  apply In_finalize in Hin. apply (Permutation_in _ Hperm) in Hin.
  apply in_flat_map in Hin as (g & Hg & Hitem).
  rewrite Forall_forall in Hall.
  destruct (Hall g Hg) as (page & res & items & -> & Hcall & Hitems).
  cbn [out_of] in Hitem. destruct res as [data|e]; cbn [page_items] in Hitems;
    [|subst items; contradiction].
  apply In_nth_error in Hitem as [index Hidx].
  destruct (items_from_nth_item _ _ _ _ _ _ _ Hitems Hidx)
    as (release & Hrel & now & lres & Hlike & ->).
  exists page, data, release, index, now, lres. cbn [calls tl].
  repeat split; try assumption; try reflexivity.
  - exact (nth_error_In _ _ Hrel).
  - now right.
Qed.

End FanOutPages.

(** ** The cut keeps the most liked *)

Section Cut.

#[local] Open Scope list_scope.

Lemma StronglySorted_app_inv {A : Type} (R : A -> A -> Prop) (l1 l2 : list A) :
  StronglySorted R (l1 ++ l2) -> forall x y, In x l1 -> In y l2 -> R x y.
Proof.
  induction l1 as [|a l1 IH]; intros Hs x y Hx Hy; [contradiction|].
  cbn [List.app] in Hs. inversion Hs as [|? ? Hs' Hall]; subst.
  destruct Hx as [->|Hx].
  - rewrite Forall_forall in Hall. apply Hall, in_or_app. now right.
  - now apply IH.
Qed.

Context (U : Upstream) {sorter : SliceSorter}.

(** What the cut to the limit leaves out stands behind what it keeps: the
    sorted collection is the answer followed by the items left out, and no
    item left out has more likes than an item of the answer. *)
Theorem cut_keeps_most_liked (sched : list nat) (w : world U) (r : Request)
    (out : Outcome U) (body : list ResponseItem.t) :
  handlePRTimesPosts U sched w r = Some out ->
  response U out = StatusOK body ->
  exists dropped,
    raw_results U sched w (query_keyword r) = body ++ dropped
    /\ (query_limit r = ""%string -> dropped = [])
    /\ forall x y, In x body -> In y dropped ->
                   ResponseItem.LikeCount x >= ResponseItem.LikeCount y.
Proof.
  intros H Hresp.
  destruct (handlePRTimesPosts_ok U _ _ _ _ _ H Hresp)
    as (limit & fp & w1 & gs & sh & Hkw & Hlimit & Hfetch & Hfan & Hfin & ->).
  cbn [response] in Hresp. injection Hresp as <-.
  rewrite (raw_results_eq U _ _ _ _ _ _ _ Hfetch Hfan), finalize_cases.
  set (sorted := sort_slice byLikeCount (sh_results U sh)).
  assert (Hs : StronglySorted (fun u v => byLikeCount v u = false) sorted).
  { apply Sorted_StronglySorted.
    - intros a b c. unfold byLikeCount. rewrite !Z.gtb_ltb, !Z.ltb_ge. lia.
    - apply sort_slice_sorted, byLikeCount_swo. }
  destruct (parseLimit_ok _ _ Hlimit) as [[Hempty ->] | (Hne & Hatoi & Hpos)].
  - exists []. cbn [Z.gtb Z.compare]. rewrite app_nil_r.
    split; [reflexivity|]. split; [reflexivity|]. intros x y _ [].
  - replace (limit >? 0) with true by (symmetry; apply Z.gtb_lt; lia).
    exists (skipn (Z.to_nat limit) sorted).
    split; [symmetry; apply firstn_skipn|].
    split; [intros E; now destruct Hne|].
    intros x y Hx Hy.
    rewrite <- (firstn_skipn (Z.to_nat limit) sorted) in Hs.
    pose proof (StronglySorted_app_inv _ _ _ Hs x y Hx Hy) as Hxy.
    unfold byLikeCount in Hxy. rewrite Z.gtb_ltb, Z.ltb_ge in Hxy. lia.
Qed.

End Cut.

(** ** More that the fan-out keeps true *)

Section FanOutOrder.

#[local] Open Scope list_scope.

Lemma subseq_refl {A : Type} (l : list A) : subseq l l.
Proof. induction l; constructor; assumption. Qed.

Lemma subseq_app_tail {A : Type} (l1 l2 t : list A) :
  subseq l1 l2 -> subseq (l1 ++ t) (l2 ++ t).
Proof. induction 1; cbn [List.app]; [apply subseq_refl | | ]; now constructor. Qed.

Lemma subseq_app_more {A : Type} (l1 l2 t : list A) :
  subseq l1 l2 -> subseq l1 (l2 ++ t).
Proof.
  intros H. rewrite <- (app_nil_r l1).
  induction H; cbn [List.app].
  - induction t; constructor; assumption.
  - now constructor.
  - now constructor.
Qed.

Lemma subseq_map {A B : Type} (f : A -> B) (l1 l2 : list A) :
  subseq l1 l2 -> subseq (map f l1) (map f l2).
Proof. induction 1; cbn [map]; now constructor. Qed.

Lemma like_calls_app (a b : list Event) : like_calls (a ++ b) = like_calls a ++ like_calls b.
Proof. apply flat_map_app. Qed.

Context (U : Upstream).
Variable keyword : string.

Lemma step_like_calls (g g' : goroutine) (sh sh' : shared U) :
  step U keyword g sh = (g', sh') -> finished g = false ->
  (List.length (like_calls (sh_trace U sh')) + List.length (sh_results U sh) + pending g
   = List.length (like_calls (sh_trace U sh)) + List.length (sh_results U sh') + pending g')%nat.
Proof.
  destruct g as [p | p data out rest | p data out r lc rest | p data out item rest | p res out];
    cbn [step finished]; intros Hstep Hfin; try discriminate.
  - destruct (fetchPRTimesData U (sh_world U sh) keyword p) as [w' res].
    destruct res; injection Hstep as <- <-; cbn [sh_trace sh_results pending];
      rewrite like_calls_app, length_app; cbn; lia.
  - destruct rest as [|release rest].
    + injection Hstep as <- <-. cbn [pending]. lia.
    + destruct (fetchLikeCount U (sh_world U sh)
                  (extractReleaseID (PRTimesResponse.ReleaseURL release))) as [w' res].
      injection Hstep as <- <-. cbn [sh_trace sh_results pending].
      rewrite like_calls_app, length_app. cbn. lia.
  - injection Hstep as <- <-. cbn [pending]. lia.
  - injection Hstep as <- <-. cbn [sh_trace sh_results pending].
    rewrite length_app. cbn. lia.
Qed.

Lemma like_calls_counted (sched : list nat) (gs gs' : list goroutine) (sh sh' : shared U) :
  (List.length (like_calls (sh_trace U sh))
   = List.length (sh_results U sh) + list_sum (map pending gs))%nat ->
  run U keyword sched (gs, sh) = (gs', sh') ->
  (List.length (like_calls (sh_trace U sh'))
   = List.length (sh_results U sh') + list_sum (map pending gs'))%nat.
Proof.
  apply (run_invariant U keyword
           (fun gs sh => (List.length (like_calls (sh_trace U sh))
                          = List.length (sh_results U sh) + list_sum (map pending gs))%nat)).
  - intros ? ? ? H. exact H.
  - intros l1 g l2 g' s s' H Hf Hstep.
    pose proof (step_like_calls _ _ _ _ Hstep Hf) as E.
    rewrite !map_app, !list_sum_app in *. cbn [map] in *.
    change (list_sum (pending g :: map pending l2))
      with (pending g + list_sum (map pending l2))%nat in H.
    change (list_sum (pending g' :: map pending l2))
      with (pending g' + list_sum (map pending l2))%nat.
    lia.
Qed.

Lemma outputs_in_order (sched : list nat) (gs gs' : list goroutine) (sh sh' : shared U) :
  Forall (fun g => subseq (out_of g) (sh_results U sh)) gs ->
  run U keyword sched (gs, sh) = (gs', sh') ->
  Forall (fun g => subseq (out_of g) (sh_results U sh')) gs'.
Proof.
  apply (run_invariant U keyword
           (fun gs sh => Forall (fun g => subseq (out_of g) (sh_results U sh)) gs)).
  - intros ? ? ? H. exact H.
  - intros l1 g l2 g' s s' H Hf Hstep.
    destruct (step_spec U keyword _ _ _ _ Hstep Hf)
      as (_ & _ & evs & items & _ & Hrs & Hout & _).
    apply Forall_app in H as [H1 H2]. inversion H2 as [|? ? Hg H2']; subst.
    rewrite Hrs. apply Forall_app. split; [|constructor].
    + eapply Forall_impl; [|exact H1]. intros a Ha. now apply subseq_app_more.
    + rewrite Hout. now apply subseq_app_tail.
    + eapply Forall_impl; [|exact H2']. intros a Ha. now apply subseq_app_more.
Qed.

Lemma fresh_pool (ps : list Z) :
  list_sum (map pending (map GFetch ps)) = 0%nat
  /\ Forall (fun g => subseq (out_of g) (@nil ResponseItem.t)) (map GFetch ps).
Proof.
  induction ps as [|p ps [IH1 IH2]]; cbn [map]; split.
  - reflexivity.
  - constructor.
  - change (list_sum (pending (GFetch p) :: map pending (map GFetch ps)))
      with (0 + list_sum (map pending (map GFetch ps)))%nat. now rewrite IH1.
  - constructor; [constructor | assumption].
Qed.

Lemma done_pool (gs : list goroutine) :
  forallb finished gs = true -> list_sum (map pending gs) = 0%nat.
Proof.
  induction gs as [|g gs IH]; cbn [forallb map]; [reflexivity|].
  intros H. apply andb_true_iff in H as [Hg Hgs].
  destruct g; try discriminate.
  change (list_sum (?x :: ?l)) with (x + list_sum l)%nat. cbn [pending]. now rewrite IH.
Qed.

Lemma item_titles (trace : list Event) (rs : list PRTimesResponse.Release)
    (items : list ResponseItem.t) (page : Z) (index : nat) :
  items_from trace page index rs items ->
  map PRTimesResponse.Title rs = map ResponseItem.Title items
  /\ List.length rs = List.length items.
Proof.
  revert index items. induction rs as [|r rs IH]; intros index [|i items];
    cbn [items_from]; try tauto.
  intros [(now & res & _ & ->) H]. destruct (IH _ _ H) as [IH1 IH2].
  cbn [map List.length]. now rewrite IH1, IH2.
Qed.

(** At [wg.Wait()] the Popularity Fetcher has been called once for each
    item of the shared collection, and the collection has one item for
    each listing of the pages that were fetched: equal identifiers are
    looked up again, nothing is looked up twice for one listing. *)
Theorem one_like_call_per_listing (totalPages : Z) (sched : list nat) (w : world U)
    (gs : list goroutine) (sh : shared U) :
  fan_out U keyword totalPages sched w = (gs, sh) ->
  forallb finished gs = true ->
  List.length (like_calls (sh_trace U sh)) = List.length (sh_results U sh)
  /\ List.length (sh_results U sh) = List.length (flat_map listings_of gs)
  /\ List.length (sh_trace U sh)
     = (Z.to_nat totalPages + List.length (flat_map listings_of gs))%nat.
Proof.
  intros Hfan Hfin.
  destruct (fan_out_spec U keyword _ _ _ _ _ Hfan Hfin) as (_ & Hperm & Hlp & Hall).
  unfold fan_out in Hfan.
  assert (Hc0 : (List.length (like_calls (sh_trace U (mkShared U w [] [])))
                 = List.length (sh_results U (mkShared U w [] []))
                   + list_sum (map pending (map GFetch (pages totalPages))))%nat).
  { now rewrite (proj1 (fresh_pool (pages totalPages))). }
  pose proof (like_calls_counted sched _ _ _ _ Hc0 Hfan) as Hc.
  rewrite (done_pool gs Hfin), Nat.add_0_r in Hc.
  assert (Hlen : List.length (sh_results U sh) = List.length (flat_map listings_of gs)).
  { rewrite (Permutation_length Hperm). clear - Hall.
    induction Hall as [|g gs (page & res & items & -> & _ & Hit) _ IH]; [reflexivity|].
    cbn [flat_map out_of listings_of]. rewrite !length_app, IH. f_equal.
    destruct res as [data|e]; cbn [page_items] in Hit.
    - symmetry. apply (item_titles _ _ _ _ _ Hit).
    - now subst items. }
  split; [exact Hc|]. split; [exact Hlen|].
  assert (Hsplit : forall trace,
             List.length trace
             = (List.length (listing_pages trace) + List.length (like_calls trace))%nat).
  { induction trace as [|[k p res|p i id res] trace IH]; [reflexivity| |];
      cbn [listing_pages like_calls flat_map List.app List.length] in *;
      fold (listing_pages trace) (like_calls trace); lia. }
  rewrite Hsplit, (Permutation_length Hlp), Hc, Hlen. unfold pages.
  now rewrite length_map, length_seq.
Qed.

(** The items of a page stand in the shared collection in the order of the
    listings of the page, with the items of other pages between them: the
    goroutine of a page appends one item after the other, and the lock
    lets no append be lost. *)
Theorem page_order_kept (totalPages : Z) (sched : list nat) (w : world U)
    (gs : list goroutine) (sh : shared U)
    (page : Z) (data : PRTimesResponse.t) (items : list ResponseItem.t) :
  fan_out U keyword totalPages sched w = (gs, sh) ->
  forallb finished gs = true ->
  In (GDone page (Ok data) items) gs ->
  subseq items (sh_results U sh)
  /\ subseq (map PRTimesResponse.Title
               (PRTimesResponse.ReleaseList (PRTimesResponse.Data data)))
            (map ResponseItem.Title (sh_results U sh)).
Proof.
  intros Hfan Hfin Hin.
  destruct (fan_out_spec U keyword _ _ _ _ _ Hfan Hfin) as (_ & _ & _ & Hall).
  unfold fan_out in Hfan.
  pose proof (outputs_in_order sched (map GFetch (pages totalPages)) gs
                (mkShared U w [] []) sh (proj2 (fresh_pool (pages totalPages))) Hfan)
    as Hord.
  rewrite Forall_forall in Hord, Hall.
  specialize (Hord _ Hin). cbn [out_of] in Hord.
  destruct (Hall _ Hin) as (page' & res' & items' & E & _ & Hit).
  injection E as <- <- <-. cbn [page_items] in Hit.
  split; [exact Hord|].
  rewrite (proj1 (item_titles _ _ _ _ _ Hit)). now apply subseq_map.
Qed.

End FanOutOrder.

(** ** The absolute form of a date *)

Lemma spells_inv (s : string) (v : Z) :
  spells s v = true ->
  s <> "" /\ all_digits s = true /\ strconv.digits_value 0 s = Some v.
Proof.
  unfold spells. rewrite !andb_true_iff, negb_true_iff. intros [[H1 H2] H3].
  split; [now apply String.eqb_neq|]. split; [assumption|].
  destruct (strconv.digits_value 0 s); [|discriminate].
  apply Z.eqb_eq in H3. now subst.
Qed.

Lemma spells_two_ok :
  all_from 100 0 (fun v => spells (time.appendInt v 2) v
                           && (String.length (time.appendInt v 2) =? 2)%nat
                           && spells (strconv.Itoa v) v
                           && (String.length (strconv.Itoa v) <=? 2)%nat) = true.
Proof. vm_compute. reflexivity. Qed.

Lemma spells_four_ok :
  all_from (Z.to_nat 10000) 0
    (fun v => spells (time.appendInt v 4) v
              && (String.length (time.appendInt v 4) =? 4)%nat) = true.
Proof. vm_compute. reflexivity. Qed.

Lemma spells_two (v : Z) :
  0 <= v < 100 ->
  (spells (time.appendInt v 2) v = true /\ String.length (time.appendInt v 2) = 2%nat)
  /\ (spells (strconv.Itoa v) v = true /\ (String.length (strconv.Itoa v) <= 2)%nat).
Proof.
  intros H. pose proof (all_from_spec _ _ _ v spells_two_ok ltac:(simpl; lia)) as E.
  cbv beta in E. rewrite !andb_true_iff, Nat.eqb_eq, Nat.leb_le in E. tauto.
Qed.

Lemma spells_four (v : Z) :
  0 <= v < 10000 ->
  spells (time.appendInt v 4) v = true /\ String.length (time.appendInt v 4) = 4%nat.
Proof.
  intros H.
  pose proof (all_from_spec _ _ _ v spells_four_ok ltac:(rewrite Z2Nat.id; lia)) as E.
  cbv beta in E. rewrite !andb_true_iff, Nat.eqb_eq in E. tauto.
Qed.

Lemma digits_value_cons (acc : Z) (c : ascii) (s : string) :
  is_digit c = true ->
  strconv.digits_value acc (String c s) = strconv.digits_value (10 * acc + digit_val c) s.
Proof. intros H. cbn [strconv.digits_value]. now rewrite H. Qed.

Lemma getnum_spells (s rest : string) (v : Z) (fixed : bool) :
  spells s v = true ->
  String.length s = 2%nat \/ (String.length s = 1%nat /\ fixed = false /\ ends_run rest) ->
  time.getnum (s ++ rest) fixed = Some (v, rest).
Proof.
  intros Hs Hl. destruct (spells_inv s v Hs) as (_ & Hall & Hval).
  destruct s as [|a [|b [|c s]]]; cbn [String.length] in Hl;
    try (exfalso; destruct Hl as [Hl | [Hl _]]; discriminate Hl).
  - destruct Hl as [Hl | (_ & -> & Hend)]; [discriminate|].
    cbn [all_digits] in Hall. apply andb_true_iff in Hall as [Ha _].
    rewrite (digits_value_cons _ _ _ Ha) in Hval.
    change (strconv.digits_value (10 * 0 + digit_val a) "")
      with (Some (10 * 0 + digit_val a)) in Hval.
    assert (E : 10 * 0 + digit_val a = v) by congruence.
    assert (E' : v = digit_val a) by lia. clear E Hval Hs. subst v.
    cbn [append time.getnum]. rewrite Ha.
    destruct rest as [|x rest]; [reflexivity|].
    cbn [ends_run] in Hend. now rewrite Hend.
  - cbn [all_digits] in Hall. apply andb_true_iff in Hall as [Ha Hall].
    apply andb_true_iff in Hall as [Hb _].
    rewrite (digits_value_cons _ _ _ Ha), (digits_value_cons _ _ _ Hb) in Hval.
    change (strconv.digits_value (10 * (10 * 0 + digit_val a) + digit_val b) "")
      with (Some (10 * (10 * 0 + digit_val a) + digit_val b)) in Hval.
    assert (E : 10 * (10 * 0 + digit_val a) + digit_val b = v) by congruence.
    assert (E' : v = digit_val a * 10 + digit_val b) by lia. clear E Hval Hs. subst v.
    cbn [append time.getnum]. now rewrite Ha, Hb.
Qed.

Lemma cutspace_digit (e : ascii) (r : string) :
  is_digit e = true -> time.cutspace (String e r) = String e r.
Proof.
  intros H. destruct e as [[] [] [] [] [] [] [] []]; try reflexivity; discriminate H.
Qed.

Lemma cutspace_spells (s r : string) (v : Z) :
  spells s v = true -> time.cutspace (s ++ r) = s ++ r.
Proof.
  intros Hs. destruct (spells_inv s v Hs) as (Hne & Hall & _).
  destruct s as [|e s]; [congruence|]. cbn [all_digits] in Hall.
  apply andb_true_iff in Hall as [He _]. now apply cutspace_digit.
Qed.

Lemma parse_year (Y rest : string) (y : Z) (l : list time.chunk) (f : time.fields) :
  spells Y y = true -> String.length Y = 4%nat ->
  time.parse_chunks (time.stdLongYear :: l) f (Y ++ rest)
  = time.parse_chunks l
      (time.mkFields y (time.f_month f) (time.f_day f) (time.f_hour f) (time.f_min f)) rest.
Proof.
  intros Hs Hl. destruct (spells_inv Y y Hs) as (_ & Hall & Hval).
  destruct Y as [|a [|b [|c [|d [|e Y]]]]]; try discriminate Hl.
  cbn [append time.parse_chunks]. now rewrite Hall, Hval.
Qed.

Lemma parse_text (p v v' : string) (l : list time.chunk) (f : time.fields) :
  time.skip false v p = Some v' ->
  time.parse_chunks (time.Text p :: l) f v = time.parse_chunks l f v'.
Proof. intros H. cbn [time.parse_chunks]. now rewrite H. Qed.

Lemma parse_month (v v' : string) (m : Z) (l : list time.chunk) (f : time.fields) :
  time.getnum v false = Some (m, v') ->
  time.parse_chunks (time.stdNumMonth :: l) f v
  = if (m <=? 0) || (12 <? m) then None
    else time.parse_chunks l
           (time.mkFields (time.f_year f) m (time.f_day f) (time.f_hour f) (time.f_min f)) v'.
Proof. intros H. cbn [time.parse_chunks]. now rewrite H. Qed.

Lemma parse_day (v v' : string) (d : Z) (l : list time.chunk) (f : time.fields) :
  time.getnum v false = Some (d, v') ->
  time.parse_chunks (time.stdDay :: l) f v
  = time.parse_chunks l
      (time.mkFields (time.f_year f) (time.f_month f) d (time.f_hour f) (time.f_min f)) v'.
Proof. intros H. cbn [time.parse_chunks]. now rewrite H. Qed.

Lemma parse_hour (v v' : string) (h : Z) (l : list time.chunk) (f : time.fields) :
  time.getnum v false = Some (h, v') ->
  time.parse_chunks (time.stdHour :: l) f v
  = if (h <? 0) || (24 <=? h) then None
    else time.parse_chunks l
           (time.mkFields (time.f_year f) (time.f_month f) (time.f_day f) h (time.f_min f)) v'.
Proof. intros H. cbn [time.parse_chunks]. now rewrite H. Qed.

Lemma parse_minute (v v' : string) (mi : Z) (l : list time.chunk) (f : time.fields) :
  time.getnum v true = Some (mi, v') ->
  time.parse_chunks (time.stdZeroMinute :: l) f v
  = if (mi <? 0) || (60 <=? mi) then None
    else time.parse_chunks l
           (time.mkFields (time.f_year f) (time.f_month f) (time.f_day f) (time.f_hour f) mi)
           v'.
Proof. intros H. cbn [time.parse_chunks]. now rewrite H. Qed.

(** The first seven elements of the absolute layout, read from a value
    that starts with a date and an hour. *)
Lemma parse_date_hour (Y M D H r : string) (y m d h : Z) (l : list time.chunk) :
  spells Y y = true -> String.length Y = 4%nat ->
  spells M m = true -> (String.length M <= 2)%nat ->
  spells D d = true -> (String.length D <= 2)%nat ->
  spells H h = true -> (String.length H <= 2)%nat ->
  ends_run r ->
  time.parse_chunks
    (time.stdLongYear :: time.Text "年" :: time.stdNumMonth :: time.Text "月"
       :: time.stdDay :: time.Text "日 " :: time.stdHour :: l)
    (time.mkFields 0 (-1) (-1) 0 0)
    (Y ++ "年" ++ M ++ "月" ++ D ++ "日 " ++ H ++ r)
  = if (m <=? 0) || (12 <? m) then None
    else if (h <? 0) || (24 <=? h) then None
    else time.parse_chunks l (time.mkFields y m d h 0) r.
Proof.
  intros HY HYl HM HMl HD HDl HH HHl Hr.
  assert (Hlen : forall s v, spells s v = true -> (String.length s <= 2)%nat ->
                  forall rest, ends_run rest ->
                  String.length s = 2%nat
                  \/ (String.length s = 1%nat /\ false = false /\ ends_run rest)).
  { intros s v Hs Hl rest Hrest. destruct (spells_inv s v Hs) as (Hne & _).
    destruct s as [|a [|b [|c s]]]; cbn [String.length] in *;
      [congruence | right; now repeat split | now left | lia]. }
  assert (EM : time.getnum (M ++ "月" ++ D ++ "日 " ++ H ++ r) false
               = Some (m, "月" ++ D ++ "日 " ++ H ++ r)).
  { apply getnum_spells; [exact HM|]. apply (Hlen M m HM HMl). reflexivity. }
  assert (ED : time.getnum (D ++ "日 " ++ H ++ r) false = Some (d, "日 " ++ H ++ r)).
  { apply getnum_spells; [exact HD|]. apply (Hlen D d HD HDl). reflexivity. }
  assert (EH : time.getnum (H ++ r) false = Some (h, r)).
  { apply getnum_spells; [exact HH|]. apply (Hlen H h HH HHl). exact Hr. }
  rewrite (parse_year Y _ y _ _ HY HYl). cbn [time.f_month time.f_day time.f_hour time.f_min].
  rewrite (parse_text "年" _ (M ++ "月" ++ D ++ "日 " ++ H ++ r)) by reflexivity.
  rewrite (parse_month _ _ m _ _ EM).
  destruct ((m <=? 0) || (12 <? m)); [reflexivity|].
  cbn [time.f_year time.f_month time.f_day time.f_hour time.f_min].
  rewrite (parse_text "月" _ (D ++ "日 " ++ H ++ r)) by reflexivity.
  rewrite (parse_day _ _ d _ _ ED).
  cbn [time.f_year time.f_month time.f_day time.f_hour time.f_min].
  rewrite (parse_text "日 " _ (H ++ r)).
  2:{ change (time.skip false ("日 " ++ H ++ r) "日 ") with (Some (time.cutspace (H ++ r))).
      now rewrite (cutspace_spells H r h HH). }
  rewrite (parse_hour _ _ h _ _ EH).
  reflexivity.
Qed.

Lemma digit_plain (c : ascii) : is_digit c = true -> plain_byte c = true.
Proof.
  intros H. destruct c as [[] [] [] [] [] [] [] []]; try reflexivity; discriminate H.
Qed.

Lemma digits_plain (s : string) : all_digits s = true -> all_bytes plain_byte s = true.
Proof. rewrite all_digits_bytes. apply all_bytes_impl, digit_plain. Qed.

(** A text without the last byte of the sign that ends the marker holds
    no relative form. *)
Lemma attempt_plain (marker s : string) :
  marker <> "" -> ends_run marker ->
  all_bytes plain_byte marker = false ->
  all_bytes plain_byte s = true ->
  attempt marker s = None.
Proof.
  intros Hne Hend Hm Hs. apply attempt_none; [assumption | assumption |].
  intros k (pre & n & post & ((_ & E) & _) & _).
  rewrite E, !all_bytes_append, Hm in Hs.
  rewrite !andb_false_r, ?andb_false_l in Hs. discriminate Hs.
Qed.

Lemma Parse_absolute_text (Y M D H MI : string) (y m d h mi : Z) :
  spells Y y = true -> String.length Y = 4%nat ->
  spells M m = true -> (String.length M <= 2)%nat ->
  spells D d = true -> (String.length D <= 2)%nat ->
  spells H h = true -> (String.length H <= 2)%nat ->
  spells MI mi = true -> String.length MI = 2%nat ->
  valid_date y m d -> 0 <= h < 24 -> 0 <= mi < 60 ->
  time.Parse "2006年1月2日 15時04分" (absolute_text Y M D H MI)
  = Ok (time.Date y m d h mi).
Proof.
  intros HY HYl HM HMl HD HDl HH HHl HMI HMIl [Hm Hd] Hh Hmi.
  unfold time.Parse, absolute_text. rewrite absolute_layout.
  rewrite (parse_date_hour Y M D H ("時" ++ MI ++ "分") y m d h _
             HY HYl HM HMl HD HDl HH HHl ltac:(reflexivity)).
  replace ((m <=? 0) || (12 <? m)) with false
    by (symmetry; apply orb_false_iff; split; [apply Z.leb_gt | apply Z.ltb_ge]; lia).
  replace ((h <? 0) || (24 <=? h)) with false
    by (symmetry; apply orb_false_iff; split; [apply Z.ltb_ge | apply Z.leb_gt]; lia).
  rewrite (parse_text "時" _ (MI ++ "分")) by reflexivity.
  rewrite (parse_minute _ _ mi _ _ (getnum_spells MI "分" mi true HMI (or_introl HMIl))).
  replace ((mi <? 0) || (60 <=? mi)) with false
    by (symmetry; apply orb_false_iff; split; [apply Z.ltb_ge | apply Z.leb_gt]; lia).
  cbn [time.f_year time.f_month time.f_day time.f_hour time.f_min].
  rewrite (parse_text "分" _ "") by reflexivity.
  cbn [time.parse_chunks time.f_year time.f_month time.f_day time.f_hour time.f_min].
  replace (m <? 0) with false by (symmetry; apply Z.ltb_ge; lia).
  replace (d <? 0) with false by (symmetry; apply Z.ltb_ge; lia).
  replace ((d <? 1) || (time.daysIn m y <? d)) with false
    by (symmetry; apply orb_false_iff; split; apply Z.ltb_ge; lia).
  reflexivity.
Qed.

Lemma absolute_text_plain (Y M D H MI : string) (y m d h mi : Z) :
  spells Y y = true -> spells M m = true -> spells D d = true ->
  spells H h = true -> spells MI mi = true ->
  all_bytes plain_byte (absolute_text Y M D H MI) = true.
Proof.
  intros HY HM HD HH HMI. unfold absolute_text. rewrite !all_bytes_append.
  rewrite (digits_plain Y), (digits_plain M), (digits_plain D), (digits_plain H),
    (digits_plain MI); [reflexivity | | | | |]; eapply spells_inv; eassumption.
Qed.

(** Every date of the calendar up to the year 9999 that is written in the
    absolute form, with the month, the day and the hour in one or two
    digits or zero-padded, is normalised to the same date and time of
    day, zero-padded: what the clock shows and where plays no part. *)
Theorem absolute_date_normalised (now : time.Time) (y m d h mi : Z) (M D H : string) :
  0 <= y < 10000 -> valid_date y m d -> 0 <= h < 24 -> 0 <= mi < 60 ->
  M = strconv.Itoa m \/ M = time.appendInt m 2 ->
  D = strconv.Itoa d \/ D = time.appendInt d 2 ->
  H = strconv.Itoa h \/ H = time.appendInt h 2 ->
  parseReleaseDate now (absolute_text (time.appendInt y 4) M D H (time.appendInt mi 2))
  = canonical_text y m d h mi.
Proof.
  intros Hy Hv Hh Hmi HM HD HH.
  pose proof (daysIn_le_31 m y (proj1 Hv)) as H31.
  destruct (spells_four y Hy) as [HY HYl].
  destruct (spells_two m ltac:(destruct Hv; lia)) as [[Hm2 Hm2l] [Hm1 Hm1l]].
  destruct (spells_two d ltac:(destruct Hv; lia)) as [[Hd2 Hd2l] [Hd1 Hd1l]].
  destruct (spells_two h ltac:(lia)) as [[Hh2 Hh2l] [Hh1 Hh1l]].
  destruct (spells_two mi ltac:(lia)) as [[Hmi2 Hmi2l] _].
  assert (SM : spells M m = true /\ (String.length M <= 2)%nat)
    by (destruct HM as [-> | ->]; split; (assumption || lia)).
  assert (SD : spells D d = true /\ (String.length D <= 2)%nat)
    by (destruct HD as [-> | ->]; split; (assumption || lia)).
  assert (SH : spells H h = true /\ (String.length H <= 2)%nat)
    by (destruct HH as [-> | ->]; split; (assumption || lia)).
  destruct SM as [SM SMl], SD as [SD SDl], SH as [SH SHl].
  pose proof (absolute_text_plain _ _ _ _ _ _ _ _ _ _ HY SM SD SH Hmi2) as Hplain.
  rewrite parseReleaseDate_chain.
  rewrite (attempt_plain "時間前" _ (proj1 hours_marker) (proj2 hours_marker) eq_refl Hplain).
  rewrite (attempt_plain "分前" _ (proj1 minutes_marker) (proj2 minutes_marker) eq_refl Hplain).
  rewrite (Parse_absolute_text _ _ _ _ _ y m d h mi HY HYl SM SMl SD SDl SH SHl Hmi2 Hmi2l
             Hv Hh Hmi).
  destruct (date_of_Date y m d h mi Hv Hh Hmi) as (Hdate & Hhour & Hmin).
  now rewrite (Format_canonical _ y m d Hdate), Hhour, Hmin.
Qed.

Lemma absolute_date_normalised_witness :
  parseReleaseDate Demo.noon "2024年2月29日 9時05分" = "2024年02月29日 09:05".
Proof.
  apply (absolute_date_normalised Demo.noon 2024 2 29 9 5 "2" "29" "9").
  - lia.
  - unfold valid_date. vm_compute. intuition discriminate.
  - lia.
  - lia.
  - left. reflexivity.
  - left. reflexivity.
  - left. reflexivity.
Defined.

(** ** The canonical form as an input *)









(** ** The relative forms without overflow *)




(** ** The fan-out on an upstream that stands still *)

Section Steady.

#[local] Open Scope list_scope.

Context (U : Upstream).
Variable L : string -> result PRTimesResponse.t.
Variable K : string -> result LikeCountResponse.t.
Variable c : time.Time.
Hypothesis U_steady : steady U L K c.
Variable keyword : string.

Lemma steady_listing (w : world U) (page : Z) :
  snd (fetchPRTimesData U w keyword page) = L (listing_request keyword page).
Proof. apply (proj1 U_steady). Qed.

Lemma steady_like (w : world U) (releaseID : string) :
  snd (fetchLikeCount U w releaseID) = like_result (K (like_request releaseID)).
Proof.
  unfold fetchLikeCount. fold (like_request releaseID).
  rewrite <- (proj1 (proj2 U_steady) w).
  destruct (get_like_count U w (like_request releaseID)) as [w' [r|e]]; reflexivity.
Qed.

Lemma steady_ok_step (g g' : goroutine) (sh sh' : shared U) :
  step U keyword g sh = (g', sh') -> finished g = false ->
  steady_ok L K c keyword g -> steady_ok L K c keyword g'.
Proof.
  destruct g as [p | p data out rest | p data out r lc rest | p data out item rest | p res out];
    cbn [step finished]; intros Hstep Hfin Hok; try discriminate.
  - pose proof (steady_listing (sh_world U sh) p) as Hl.
    destruct (fetchPRTimesData U (sh_world U sh) keyword p) as [w' res].
    cbn [snd] in Hl.
    destruct res as [data|e]; injection Hstep as <- <-; cbn [steady_ok].
    + split; [now symmetry|]. exists []. now split.
    + split; [exact Hl | reflexivity].
  - destruct Hok as (Hl & done & Hdone & Hout).
    destruct rest as [|release rest].
    + injection Hstep as <- <-. cbn [steady_ok steady_items].
      split; [now symmetry|]. now rewrite Hdone, app_nil_r.
    + pose proof (steady_like (sh_world U sh)
                    (extractReleaseID (PRTimesResponse.ReleaseURL release))) as Hk.
      destruct (fetchLikeCount U (sh_world U sh)
                  (extractReleaseID (PRTimesResponse.ReleaseURL release))) as [w' res].
      cbn [snd] in Hk. injection Hstep as <- <-. cbn [steady_ok].
      split; [assumption|]. split.
      * unfold steady_item. rewrite <- Hk. now destruct res.
      * exists done. now split.
  - destruct Hok as (Hl & Hitem & done & Hdone & Hout).
    injection Hstep as <- <-. cbn [steady_ok].
    split; [assumption|]. exists done, r. rewrite (proj2 (proj2 U_steady)).
    now repeat split.
  - destruct Hok as (Hl & done & release & Hdone & Hitem & Hout).
    injection Hstep as <- <-. cbn [steady_ok].
    split; [assumption|]. exists (done ++ [release]). split.
    + now rewrite <- app_assoc.
    + rewrite map_app, Hout, Hitem. reflexivity.
Qed.

Lemma steady_ok_run (sched : list nat) (gs gs' : list goroutine) (sh sh' : shared U) :
  Forall (steady_ok L K c keyword) gs ->
  run U keyword sched (gs, sh) = (gs', sh') ->
  Forall (steady_ok L K c keyword) gs'.
Proof.
  apply (run_invariant U keyword (fun gs _ => Forall (steady_ok L K c keyword) gs)).
  - intros ? ? ? H. exact H.
  - intros l1 g l2 g' s s' H Hf Hstep.
    apply Forall_app in H as [H1 H2]. inversion H2 as [|? ? Hg H2']; subst.
    apply Forall_app. split; [assumption|]. constructor; [|assumption].
    exact (steady_ok_step _ _ _ _ Hstep Hf Hg).
Qed.

Lemma steady_outputs (gs : list goroutine) :
  forallb finished gs = true ->
  Forall (steady_ok L K c keyword) gs ->
  flat_map out_of gs = flat_map (steady_page L K c keyword) (map page_of gs).
Proof.
  induction gs as [|g gs IH]; intros Hfin Hok; [reflexivity|].
  cbn [forallb] in Hfin. apply andb_true_iff in Hfin as [Hg Hgs].
  inversion Hok as [|? ? Hg' Hok']; subst.
  destruct g as [| | | |page res out]; try discriminate.
  cbn [flat_map map out_of page_of]. rewrite (IH Hgs Hok'). f_equal.
  destruct Hg' as [-> ->]. reflexivity.
Qed.

(** On an upstream that stands still the schedule plays no part in what
    is collected: at [wg.Wait()] the shared collection holds, in some
    order, the items of the pages 1 to the last page as the upstream
    shows them, so the collections of two schedules are permutations of
    each other. *)
Theorem steady_fan_out (totalPages : Z) (sched sched' : list nat) (w w' : world U)
    (gs gs' : list goroutine) (sh sh' : shared U) :
  fan_out U keyword totalPages sched w = (gs, sh) ->
  forallb finished gs = true ->
  fan_out U keyword totalPages sched' w' = (gs', sh') ->
  forallb finished gs' = true ->
  Permutation (sh_results U sh)
    (flat_map (steady_page L K c keyword) (pages totalPages))
  /\ Permutation (sh_results U sh) (sh_results U sh').
Proof.
  assert (H : forall sched w gs sh,
             fan_out U keyword totalPages sched w = (gs, sh) ->
             forallb finished gs = true ->
             Permutation (sh_results U sh)
               (flat_map (steady_page L K c keyword) (pages totalPages))).
  { intros sched0 w0 gs0 sh0 Hfan Hfin.
    destruct (fan_out_spec U keyword _ _ _ _ _ Hfan Hfin) as (Hpages & Hperm & _).
    unfold fan_out in Hfan.
    assert (Hinit : forall ps, Forall (steady_ok L K c keyword) (map GFetch ps)).
    { induction ps; cbn [map]; constructor; [exact I | assumption]. }
    pose proof (steady_ok_run sched0 _ _ _ _ (Hinit (pages totalPages)) Hfan) as Hok.
    rewrite Hperm, (steady_outputs gs0 Hfin Hok), Hpages. reflexivity. }
  intros Hfan Hfin Hfan' Hfin'. split; [exact (H _ _ _ _ Hfan Hfin)|].
  rewrite (H _ _ _ _ Hfan Hfin). symmetry. exact (H _ _ _ _ Hfan' Hfin').
Qed.

End Steady.

(** ** The further properties at work *)

Section MoreRuns.

#[local] Open Scope list_scope.

Ltac answer_of_run :=
  match goal with
  | |- exists out, ?run = Some out /\ _ =>
      match type of run with
      | option (Outcome ?U) =>
          let r := eval vm_compute in (option_map (response U) run) in
          let c := eval vm_compute in (option_map (calls U) run) in
          let w := eval vm_compute in (option_map (world_after U) run) in
          match constr:((r, c, w)) with
          | (Some ?r', Some ?c', Some ?w') =>
              exists (mkOutcome U r' c' w');
              split; [apply outcome_eta; vm_compute; reflexivity|]
          end
      end
  end.

Lemma QueryEscape_unescape_witness :
  url.QueryEscape "a b&c" = "a+b%26c" /\ unescape "a+b%26c" = "a b&c".
Proof.
  split; [reflexivity|]. exact (proj1 (QueryEscape_unescape "a b&c")).
Defined.

Lemma pages_fetched_once_witness :
  exists out,
    handlePRTimesPosts Demo.upstream Demo.mixed 0%nat (mkRequest "rocq 9" "") = Some out
    /\ map (count_occ Z.eq_dec (listing_pages (tl (calls Demo.upstream out)))) [0; 1; 2; 3; 4]
       = [0; 1; 1; 1; 0]%nat.
Proof.
  answer_of_run.
  destruct (pages_fetched_once Demo.upstream Demo.mixed 0%nat (mkRequest "rocq 9" "")
              _ _ ltac:(apply outcome_eta; vm_compute; reflexivity) eq_refl)
    as (first & Hfirst & Hcount & _).
  injection Hfirst as <-.
  cbn [map]. now rewrite !Hcount.
Defined.

Lemma answer_items_have_listings_witness :
  exists out,
    handlePRTimesPosts Demo.upstream Demo.fifo 0%nat (mkRequest "rocq 9" "1") = Some out
    /\ exists item release,
        response Demo.upstream out = StatusOK [item]
        /\ ResponseItem.PostURL item
           = ("https://prtimes.jp" ++ PRTimesResponse.ReleaseURL release)%string
        /\ ResponseItem.Title item = PRTimesResponse.Title release.
Proof.
  answer_of_run. eexists.
  destruct (answer_items_have_listings Demo.upstream Demo.fifo 0%nat (mkRequest "rocq 9" "1")
              _ _ _ ltac:(apply outcome_eta; vm_compute; reflexivity) eq_refl
              (or_introl eq_refl))
    as (page & data & release & index & now & res & _ & _ & _ & _ & _ & Hurl & Htitle & _).
  exists release. split; [reflexivity|]. split; [exact Hurl | exact Htitle].
Defined.

Lemma cut_keeps_most_liked_witness :
  exists out,
    handlePRTimesPosts Demo.upstream Demo.fifo 0%nat (mkRequest "rocq 9" "2") = Some out
    /\ exists body dropped,
        response Demo.upstream out = StatusOK body
        /\ raw_results Demo.upstream Demo.fifo 0%nat "rocq 9" = body ++ dropped
        /\ forall x y, In x body -> In y dropped ->
                       ResponseItem.LikeCount x >= ResponseItem.LikeCount y.
Proof.
  answer_of_run. eexists.
  destruct (cut_keeps_most_liked Demo.upstream Demo.fifo 0%nat (mkRequest "rocq 9" "2")
              _ _ ltac:(apply outcome_eta; vm_compute; reflexivity) eq_refl)
    as (dropped & Hraw & _ & Hle).
  exists dropped. split; [reflexivity|]. split; [exact Hraw | exact Hle].
Defined.

Lemma one_like_call_per_listing_witness :
  List.length (like_calls (sh_trace Demo.upstream (snd Demo.barrier))) = 3%nat
  /\ List.length (sh_results Demo.upstream (snd Demo.barrier)) = 3%nat.
Proof.
  destruct (one_like_call_per_listing Demo.upstream "rocq 9" 3 Demo.fifo 1%nat
              (fst Demo.barrier) (snd Demo.barrier) eq_refl eq_refl)
    as (H1 & H2 & _).
  rewrite H1, H2. split; reflexivity.
Defined.

Lemma page_order_kept_witness :
  subseq ["Alpha ships"; "Beta story"]%string
    (map ResponseItem.Title (sh_results Demo.upstream (snd Demo.barrier))).
Proof.
  refine (proj2 (page_order_kept Demo.upstream "rocq 9" 3 Demo.fifo 1%nat
                   (fst Demo.barrier) (snd Demo.barrier) 1
                   (PRTimesResponse.mk (PRTimesResponse.mkData 1 3 [Demo.relA; Demo.relB])
                      200 "ok") _ eq_refl eq_refl _)).
  left. reflexivity.
Defined.

Lemma steady_fan_out_witness :
  Permutation (sh_results Still.upstream (snd Still.barrier_fifo))
              (sh_results Still.upstream (snd Still.barrier_mixed)).
Proof.
  refine (proj2 (steady_fan_out Still.upstream Still.listing Still.like Demo.noon _
                   "rocq 9" 2 Demo.fifo Demo.mixed 1%nat 1%nat
                   (fst Still.barrier_fifo) (fst Still.barrier_mixed)
                   (snd Still.barrier_fifo) (snd Still.barrier_mixed)
                   eq_refl eq_refl eq_refl eq_refl)).
  repeat split; intros; reflexivity.
Defined.

End MoreRuns.
